(** * Intent controller and calculator: a shallow embedding of
      [intent_controller.py] and the properties of its pipeline.

    Conventions of the embedding.
    - A Python [str] is a Rocq [string]; the character classes used by
      [lower], [strip], [split] and the regular expressions are the ASCII
      ones (the model is exact on ASCII text; characters above 127 are kept
      as they are and belong to no class). The statements that are about
      the text itself (which characters are whitespace, digits or
      letters, how long a string is) are made for the inputs of
      [ascii_text].
    - [float] skips its own whitespace, the one of C (tab to carriage
      return and the space), which is narrower than that of [str.strip].
    - A Python [float] is an IEEE 754 binary64 value, [spec_float] with
      precision 53 and maximal exponent 1024.
    - A Python exception is a value of [exn]; a computation that can raise
      has type [M A]. [try]/[except] is a [match] on that sum. The texts
      of the exceptions of the interpreter are those of CPython 3.11.
    - The power operator [**] calls the C library; its [pow] and the
      overflow of the complex power are parameters of the model.
    - A [dict] with string keys is a [gmap string _].
    - Calls to [logger.info] only write to the log and are left out. *)

From Stdlib Require Import ZArith QArith Qabs Qround Qpower.
From Stdlib Require Import String Ascii List Lia Bool.
From Stdlib Require Import SpecFloat.
From stdpp Require Import gmap strings list.

Local Open Scope string_scope.
Local Open Scope list_scope.

(** ** Exceptions *)

Inductive exn : Type :=
| ReError (pattern : string)
| ValueError (msg : string)
| OverflowError (msg : string)
| ZeroDivisionError (msg : string)
| TypeError (msg : string)
| IndexError (msg : string)
| KeyError (msg : string)
| AttributeError (msg : string).

(** [str(e)] for the exceptions above. *)
Definition exn_str (e : exn) : string :=
  match e with
  | ReError p => "bad pattern " +:+ p
  | ValueError m | OverflowError m | ZeroDivisionError m
  | TypeError m | IndexError m | KeyError m | AttributeError m => m
  end.

Definition M (A : Type) : Type := (exn + A)%type.
Definition ret {A} (a : A) : M A := inr a.
Definition raise {A} (e : exn) : M A := inl e.
Definition bind {A B} (m : M A) (f : A -> M B) : M B :=
  match m with
  | inl e => inl e
  | inr a => f a
  end.

Notation "x <- m ;; k" := (bind m (fun x => k))
  (at level 100, m at next level, right associativity).

(** ** Python strings *)

Module PyStr.

Definition code (c : ascii) : N := N_of_ascii c.

Definition between (lo hi : N) (c : ascii) : bool :=
  (N.leb lo (code c) && N.leb (code c) hi)%bool.

(** [str.isspace] on ASCII: tab to carriage return, the four separators
    0x1c to 0x1f, and the space. The whitespace of Unicode outside ASCII
    (U+0085, U+00A0 and the like) is not in the class. *)
Definition isspace (c : ascii) : bool :=
  (between 9 13 c || between 28 32 c)%bool.

(** The digits of ASCII; the decimal digits of other scripts, which
    [\d] and [float] take as well, are not in the class. *)
Definition isdigit (c : ascii) : bool := between 48 57 c.
Definition isupper (c : ascii) : bool := between 65 90 c.
Definition islower (c : ascii) : bool := between 97 122 c.
Definition isalpha (c : ascii) : bool := (isupper c || islower c)%bool.
(** the class of [\w] *)
Definition isword (c : ascii) : bool :=
  (isalpha c || isdigit c || Ascii.eqb c "_")%bool.

(** [str.lower] on one ASCII character; other characters are kept. *)
Definition lower_char (c : ascii) : ascii :=
  if isupper c then ascii_of_N (code c + 32) else c.

Definition chars (s : string) : list ascii := list_ascii_of_string s.
Definition of_chars (l : list ascii) : string := string_of_list_ascii l.

(** [s.lower()] *)
Definition lower (s : string) : string := of_chars (map lower_char (chars s)).

Fixpoint lstrip_chars (l : list ascii) : list ascii :=
  match l with
  | c :: l' => if isspace c then lstrip_chars l' else l
  | [] => []
  end.

Definition strip_chars (l : list ascii) : list ascii :=
  rev (lstrip_chars (rev (lstrip_chars l))).

(** [s.strip()] *)
Definition strip (s : string) : string := of_chars (strip_chars (chars s)).

Fixpoint split_chars (l cur : list ascii) : list (list ascii) :=
  match l with
  | [] => match cur with [] => [] | _ => [rev cur] end
  | c :: l' =>
      if isspace c
      then match cur with
           | [] => split_chars l' []
           | _ => rev cur :: split_chars l' []
           end
      else split_chars l' (c :: cur)
  end.

(** [s.split()]: the maximal runs of characters that are not spaces *)
Definition split (s : string) : list string :=
  map of_chars (split_chars (chars s) []).

Fixpoint starts_chars (p l : list ascii) : bool :=
  match p, l with
  | [], _ => true
  | a :: p', b :: l' => (Ascii.eqb a b && starts_chars p' l')%bool
  | _ :: _, [] => false
  end.

(** [s.startswith(p)] *)
Definition startswith (s p : string) : bool := starts_chars (chars p) (chars s).

Fixpoint contains_chars (p l : list ascii) : bool :=
  (starts_chars p l ||
   match l with
   | [] => false
   | _ :: l' => contains_chars p l'
   end)%bool.

(** [p in s] for two strings *)
Definition contains (p s : string) : bool := contains_chars (chars p) (chars s).

(** [x in l] for a string and a list of strings *)
Definition mem (x : string) (l : list string) : bool :=
  existsb (String.eqb x) l.

(** The text after the first occurrence of [p], if there is one:
    [s.split(p, 1)[1]]. *)
Fixpoint after_chars (p l : list ascii) : option (list ascii) :=
  if starts_chars p l then Some (skipn (length p) l)
  else match l with
       | [] => None
       | _ :: l' => after_chars p l'
       end.

Definition after_first (p s : string) : option string :=
  option_map of_chars (after_chars (chars p) (chars s)).

(** [sep.join(l)] *)
Fixpoint join (sep : string) (l : list string) : string :=
  match l with
  | [] => ""
  | [x] => x
  | x :: l' => x +:+ sep +:+ join sep l'
  end.

End PyStr.

(** ** Regular expressions: the fragment of Python's [re] the tables use

    Literals, [.], classes ([\s], [\d], [\w], bracket sets with ranges),
    groups (capturing and [(?:...)]), alternation, greedy and lazy
    repetition ([*], [+], [?], [{m}], [{m,}], [{m,n}]), [$] and [\b].
    Matching is the backtracking search of [re]: alternatives left to
    right, greedy repetitions longest first, lazy ones shortest first.
    One step of the matcher takes one character of the string, which is
    one character of the text when the text is ASCII. *)

Module Re.

Import PyStr.

Inductive item : Type :=
| IChar (c : ascii)
| IRange (lo hi : ascii)
| ISpace
| IDigit
| IWord.

Inductive re : Type :=
| REmpty
| RChar (c : ascii)
| RAny
| RSet (negated : bool) (items : list item)
| RSeq (a b : re)
| RAlt (a b : re)
| RGroup (i : nat) (a : re)
| RRep (a : re) (lo : nat) (hi : option nat) (greedy : bool)
| REnd
| RWordB.

(** *** Parsing a pattern *)

Definition digit_val (c : ascii) : nat := N.to_nat (code c - 48).

Fixpoint parse_nat (l : list ascii) (acc : option nat)
  : option nat * list ascii :=
  match l with
  | c :: l' =>
      if isdigit c
      then parse_nat l' (Some (10 * default 0 acc + digit_val c))
      else (acc, l)
  | [] => (acc, l)
  end.

(** An escape inside or outside a bracket set. *)
Definition parse_escape (c : ascii) : option item :=
  if Ascii.eqb c "s" then Some ISpace
  else if Ascii.eqb c "d" then Some IDigit
  else if Ascii.eqb c "w" then Some IWord
  else if (isalpha c || isdigit c)%bool then None
  else Some (IChar c).

(** The items of a bracket set, up to the closing bracket. *)
Fixpoint parse_set (fuel : nat) (l : list ascii) (acc : list item)
  : option (list item * list ascii) :=
  match fuel with
  | O => None
  | S fuel' =>
      match l with
      | [] => None
      | "]"%char :: l' => Some (rev acc, l')
      | "\"%char :: c :: l' =>
          match parse_escape c with
          | Some i => parse_set fuel' l' (i :: acc)
          | None => None
          end
      | lo :: "-"%char :: hi :: l' =>
          if Ascii.eqb hi "]"
          then parse_set fuel' ("-"%char :: hi :: l') (IChar lo :: acc)
          else parse_set fuel' l' (IRange lo hi :: acc)
      | c :: l' => parse_set fuel' l' (IChar c :: acc)
      end
  end.

(** A quantifier after an atom, if there is one. *)
Definition parse_bounds (l : list ascii)
  : option (nat * option nat * list ascii) :=
  match l with
  | "*"%char :: l' => Some (0, None, l')
  | "+"%char :: l' => Some (1, None, l')
  | "?"%char :: l' => Some (0, Some 1, l')
  | "{"%char :: l' =>
      match parse_nat l' None with
      | (Some lo, "}"%char :: l'') => Some (lo, Some lo, l'')
      | (Some lo, ","%char :: l'') =>
          match parse_nat l'' None with
          | (hi, "}"%char :: l3) => Some (lo, hi, l3)
          | _ => None
          end
      | _ => None
      end
  | _ => None
  end.

Definition parse_quant (a : re) (l : list ascii) : re * list ascii :=
  match parse_bounds l with
  | Some (lo, hi, "?"%char :: l') => (RRep a lo hi false, l')
  | Some (lo, hi, l') => (RRep a lo hi true, l')
  | None => (a, l)
  end.

(** [parse_alt fuel l g] reads an alternation from [l]; [g] is the number
    of the next capturing group. It stops at a closing parenthesis or at
    the end of the pattern. *)
Fixpoint parse_alt (fuel : nat) (l : list ascii) (g : nat)
  : option (re * list ascii * nat) :=
  match fuel with
  | O => None
  | S fuel' =>
      let parse_atom (l : list ascii) (g : nat)
        : option (re * list ascii * nat) :=
        match l with
        | "("%char :: "?"%char :: ":"%char :: l' =>
            match parse_alt fuel' l' g with
            | Some (r, ")"%char :: l'', g') => Some (r, l'', g')
            | _ => None
            end
        | "("%char :: l' =>
            match parse_alt fuel' l' (S g) with
            | Some (r, ")"%char :: l'', g') => Some (RGroup g r, l'', g')
            | _ => None
            end
        | "["%char :: "^"%char :: l' =>
            match parse_set fuel' l' [] with
            | Some (items, l'') => Some (RSet true items, l'', g)
            | None => None
            end
        | "["%char :: l' =>
            match parse_set fuel' l' [] with
            | Some (items, l'') => Some (RSet false items, l'', g)
            | None => None
            end
        | "\"%char :: "b"%char :: l' => Some (RWordB, l', g)
        | "\"%char :: c :: l' =>
            match parse_escape c with
            | Some (IChar c') => Some (RChar c', l', g)
            | Some i => Some (RSet false [i], l', g)
            | None => None
            end
        | "."%char :: l' => Some (RAny, l', g)
        | "$"%char :: l' => Some (REnd, l', g)
        | c :: l' =>
            if existsb (Ascii.eqb c) (chars "*+?{\")
            then None
            else Some (RChar c, l', g)
        | [] => None
        end in
      let parse_seq :=
        fix parse_seq (n : nat) (l : list ascii) (g : nat)
          : option (re * list ascii * nat) :=
          match n with
          | O => None
          | S n' =>
              match l with
              | [] | "|"%char :: _ | ")"%char :: _ => Some (REmpty, l, g)
              | _ =>
                  match parse_atom l g with
                  | Some (a, l', g') =>
                      let (a', l'') := parse_quant a l' in
                      match parse_seq n' l'' g' with
                      | Some (b, l3, g'') =>
                          Some (match b with REmpty => a' | _ => RSeq a' b end,
                                l3, g'')
                      | None => None
                      end
                  | None => None
                  end
              end
          end in
      match parse_seq fuel l g with
      | Some (a, "|"%char :: l', g') =>
          match parse_alt fuel' l' g' with
          | Some (b, l'', g'') => Some (RAlt a b, l'', g'')
          | None => None
          end
      | other => other
      end
  end.

(** The compiled pattern and its number of capturing groups. *)
Definition parse (p : string) : option (re * nat) :=
  match parse_alt (S (String.length p)) (chars p) 1 with
  | Some (r, [], g) => Some (r, g - 1)
  | _ => None
  end.

(** *** Matching *)

(** The position of the matcher: the character before it (for [\b]), the
    text after it, its offset, and the groups captured so far. *)
Record mstate : Type := MState {
  ms_prev : option ascii;
  ms_rest : list ascii;
  ms_pos : nat;
  ms_caps : list (nat * string)
}.

Definition item_matches (c : ascii) (i : item) : bool :=
  match i with
  | IChar a => Ascii.eqb a c
  | IRange lo hi => between (code lo) (code hi) c
  | ISpace => isspace c
  | IDigit => isdigit c
  | IWord => isword c
  end.

(** Consume one character that satisfies [ok]. *)
Definition step {A} (ok : ascii -> bool) (st : mstate)
    (k : mstate -> option A) : option A :=
  match ms_rest st with
  | c :: rest =>
      if ok c
      then k (MState (Some c) rest (S (ms_pos st)) (ms_caps st))
      else None
  | [] => None
  end.

Definition is_word_opt (c : option ascii) : bool :=
  match c with
  | Some a => isword a
  | None => false
  end.

Definition at_word_boundary (st : mstate) : bool :=
  xorb (is_word_opt (ms_prev st)) (is_word_opt (head (ms_rest st))).

(** [$]: the end of the text, or just before a final newline. *)
Definition at_end (st : mstate) : bool :=
  match ms_rest st with
  | [] => true
  | [c] => Ascii.eqb c "010"
  | _ => false
  end.

Definition set_group (i : nat) (from to : mstate) : mstate :=
  MState (ms_prev to) (ms_rest to) (ms_pos to)
    ((i, of_chars (firstn (ms_pos to - ms_pos from) (ms_rest from)))
       :: ms_caps to).

Definition below (n : nat) (hi : option nat) : bool :=
  match hi with
  | Some h => Nat.ltb n h
  | None => true
  end.

(** The iterations of a repetition whose body is matched by [body]:
    [n] iterations are done, [k] continues after the last one. A greedy
    repetition tries one more iteration before it stops, a lazy one stops
    first. An iteration that consumes nothing ends the repetition. *)
Fixpoint rep_loop {A} (body : mstate -> (mstate -> option A) -> option A)
    (lo : nat) (hi : option nat) (greedy : bool) (k : mstate -> option A)
    (fuel n : nat) (st : mstate) {struct fuel} : option A :=
  match fuel with
  | O => None
  | S fuel' =>
      let again (_ : unit) :=
        if below n hi
        then body st (fun st' =>
               if Nat.eqb (ms_pos st') (ms_pos st) then None
               else rep_loop body lo hi greedy k fuel' (S n) st')
        else None in
      let stop (_ : unit) := if Nat.leb lo n then k st else None in
      if greedy
      then match again tt with
           | Some x => Some x
           | None => stop tt
           end
      else match stop tt with
           | Some x => Some x
           | None => again tt
           end
  end.

(** [rmatch r st k]: match [r] at [st], then continue with [k]; the first
    success in backtracking order is the answer. *)
Fixpoint rmatch {A} (r : re) (st : mstate) (k : mstate -> option A)
  : option A :=
  match r with
  | REmpty => k st
  | RChar c => step (Ascii.eqb c) st k
  | RAny => step (fun c => negb (Ascii.eqb c "010")) st k
  | RSet neg items =>
      step (fun c => xorb neg (existsb (item_matches c) items)) st k
  | RSeq a b => rmatch a st (fun st' => rmatch b st' k)
  | RAlt a b =>
      match rmatch a st k with
      | Some x => Some x
      | None => rmatch b st k
      end
  | RGroup i a => rmatch a st (fun st' => k (set_group i st st'))
  | REnd => if at_end st then k st else None
  | RWordB => if at_word_boundary st then k st else None
  | RRep a lo hi greedy =>
      rep_loop (rmatch a) lo hi greedy k (S (length (ms_rest st))) 0 st
  end.

(** A match object: where the match starts and ends, its text, and
    [groups()], one entry per capturing group of the pattern ([None] for a
    group that took no part in the match). *)
Record match_obj : Type := Match {
  m_start : nat;
  m_end : nat;
  m_text : string;
  groups : list (option string)
}.

Fixpoint lookup_cap (i : nat) (caps : list (nat * string)) : option string :=
  match caps with
  | (j, s) :: caps' => if Nat.eqb i j then Some s else lookup_cap i caps'
  | [] => None
  end.

Definition match_at (r : re) (ngroups : nat) (st : mstate)
  : option match_obj :=
  match rmatch r st Some with
  | Some st' =>
      Some (Match (ms_pos st) (ms_pos st')
              (of_chars (firstn (ms_pos st' - ms_pos st) (ms_rest st)))
              (map (fun i => lookup_cap i (ms_caps st'))
                 (List.seq 1 ngroups)))
  | None => None
  end.

(** The leftmost match at or after the position [st]. *)
Fixpoint scan (r : re) (ngroups : nat) (fuel : nat) (st : mstate)
  : option match_obj :=
  match match_at r ngroups st with
  | Some m => Some m
  | None =>
      match fuel, ms_rest st with
      | S fuel', c :: rest =>
          scan r ngroups fuel' (MState (Some c) rest (S (ms_pos st)) [])
      | _, _ => None
      end
  end.

Definition start_state (s : string) : mstate := MState None (chars s) 0 [].

Definition compile (p : string) : M (re * nat) :=
  match parse p with
  | Some c => ret c
  | None => raise (ReError p)
  end.

(** [re.search(p, s)] *)
Definition search (p s : string) : M (option match_obj) :=
  c <- compile p ;;
  ret (scan (fst c) (snd c) (String.length s) (start_state s)).

(** The successive matches of [findall], from the position [st]; after a
    match the scan resumes at its end, one character further when the
    match is empty. *)
Fixpoint all_matches (r : re) (fuel : nat) (st : mstate) : list string :=
  match fuel with
  | O => []
  | S fuel' =>
      match scan r 0 (length (ms_rest st)) st with
      | None => []
      | Some m =>
          let skip := if Nat.eqb (m_end m) (m_start m)
                      then S (m_end m) else m_end m in
          let d := skip - ms_pos st in
          m_text m ::
            match d, skipn (d - 1) (ms_rest st) with
            | S _, c :: rest =>
                all_matches r fuel' (MState (Some c) rest skip [])
            | _, _ => []
            end
      end
  end.

(** [re.findall(p, s)] for a pattern without capturing groups (all the
    patterns this program gives to [findall] are such): the texts of the
    successive matches. *)
Definition findall (p s : string) : M (list string) :=
  c <- compile p ;;
  ret (all_matches (fst c) (S (String.length s)) (start_state s)).

End Re.

(** ** Python numbers: [int] is [Z], [float] is binary64 *)

Module PyFloat.

Import PyStr.

Definition prec : Z := 53.
Definition emax : Z := 1024.

Definition add : spec_float -> spec_float -> spec_float := SFadd prec emax.
Definition sub : spec_float -> spec_float -> spec_float := SFsub prec emax.
Definition mul : spec_float -> spec_float -> spec_float := SFmul prec emax.
Definition ltb : spec_float -> spec_float -> bool := SFltb.
Definition eqb : spec_float -> spec_float -> bool := SFeqb.

Definition zero : spec_float := S754_zero false.

(** [float(z)] for an integer *)
Definition of_Z (z : Z) : spec_float := binary_normalize prec emax z 0 false.

Definition one : spec_float := of_Z 1.
Definition half : spec_float := S754_finite false 4503599627370496 (-53).

(** The float nearest to [num / den] (ties to even), with the sign [neg]. *)
Definition of_ratio (neg : bool) (num : Z) (den : positive) : spec_float :=
  match num with
  | Zpos _ =>
      let '(q, e, l) := SFdiv_core_binary prec emax num 0 (Zpos den) 0 in
      binary_round_aux prec emax neg q e l
  | _ => S754_zero neg
  end.

(** The float nearest to [m * 10^e10]: what [float] does with a decimal
    numeral. *)
Definition of_decimal (neg : bool) (m : Z) (e10 : Z) : spec_float :=
  match e10 with
  | Zneg p => of_ratio neg m (Pos.pow 10 p)
  | _ => of_ratio neg (m * 10 ^ e10) 1
  end.

Definition is_finite (x : spec_float) : bool :=
  match x with
  | S754_zero _ | S754_finite _ _ _ => true
  | _ => false
  end.

Definition is_zero (x : spec_float) : bool :=
  match x with
  | S754_zero _ => true
  | _ => false
  end.

(** *** [float(s)] for a string *)

(** A run of digits, a single underscore allowed between two digits. The
    value read so far is [acc]; [n] counts the digits read. *)
Fixpoint digit_run (l : list ascii) (acc : Z) (n : nat)
  : Z * nat * list ascii :=
  match l with
  | c :: l' =>
      if isdigit c
      then digit_run l' (10 * acc + Z.of_N (code c - 48))%Z (S n)
      else if (Ascii.eqb c "_" && Nat.ltb 0 n &&
               match l' with d :: _ => isdigit d | [] => false end)%bool
      then digit_run l' acc n
      else (acc, n, l)
  | [] => (acc, n, l)
  end.

Definition parse_sign (l : list ascii) : bool * list ascii :=
  match l with
  | "-"%char :: l' => (true, l')
  | "+"%char :: l' => (false, l')
  | _ => (false, l)
  end.

(** The optional exponent and what follows it. *)
Definition parse_exponent (l : list ascii) : option (Z * list ascii) :=
  match l with
  | "e"%char :: l' =>
      let (neg, l'') := parse_sign l' in
      match digit_run l'' 0 0 with
      | (_, O, _) => None
      | (v, _, rest) => Some (if neg then (- v)%Z else v, rest)
      end
  | _ => Some (0%Z, l)
  end.

Definition parse_number (neg : bool) (l : list ascii) : option spec_float :=
  let '(ip, ni, l1) := digit_run l 0 0 in
  let '(m, nf, l2) :=
    match l1 with
    | "."%char :: l' => let '(m, n, l'') := digit_run l' ip 0 in (m, n, l'')
    | _ => (ip, O, l1)
    end in
  match (ni + nf)%nat with
  | O => None
  | _ =>
      match parse_exponent l2 with
      | Some (e, []) => Some (of_decimal neg m (e - Z.of_nat nf))
      | _ => None
      end
  end.

(** The spaces [float] skips at the two ends of its text: tab to carriage
    return and the space. The separators 0x1c to 0x1f, which [str.strip]
    removes, are not among them: [float] refuses a text that begins or
    ends with one. *)
Definition float_space (c : ascii) : bool :=
  (between 9 13 c || Ascii.eqb c " ")%bool.

Fixpoint skip_spaces (l : list ascii) : list ascii :=
  match l with
  | c :: l' => if float_space c then skip_spaces l' else l
  | [] => []
  end.

Definition trim (s : string) : string :=
  of_chars (rev (skip_spaces (rev (skip_spaces (chars s))))).

(** [float(s)]: spaces around the text are skipped and letters are read
    in either case. *)
Definition of_string (s : string) : M spec_float :=
  let (neg, l) := parse_sign (chars (lower (trim s))) in
  let word := of_chars l in
  if (String.eqb word "inf" || String.eqb word "infinity")%bool
  then ret (S754_infinity neg)
  else if String.eqb word "nan" then ret S754_nan
  else match parse_number neg l with
       | Some x => ret x
       | None => raise (ValueError "could not convert string to float")
       end.

(** *** [int(x)] and the comparison of a float with an integer *)

(** The integer part of a finite float, towards zero. *)
Definition trunc (x : spec_float) : Z :=
  match x with
  | S754_finite s m e =>
      let a := match e with
               | Zneg p => Z.shiftr (Zpos m) (Zpos p)
               | _ => Z.shiftl (Zpos m) e
               end in
      if s then (- a)%Z else a
  | _ => 0%Z
  end.

(** [int(x)] *)
Definition to_int (x : spec_float) : M Z :=
  match x with
  | S754_nan => raise (ValueError "cannot convert float NaN to integer")
  | S754_infinity _ =>
      raise (OverflowError "cannot convert float infinity to integer")
  | _ => ret (trunc x)
  end.

(** [x == z] for a float and an integer: the two numbers are compared
    exactly. *)
Definition eq_int (x : spec_float) (z : Z) : bool :=
  match x with
  | S754_zero _ => Z.eqb z 0
  | S754_finite s m e =>
      let a := if s then Zneg m else Zpos m in
      match e with
      | Zneg p => Z.eqb (z * 2 ^ Zpos p) a
      | _ => Z.eqb z (a * 2 ^ e)
      end
  | _ => false
  end.

Definition is_integer (x : spec_float) : bool := eq_int x (trunc x).

Definition is_odd_integer (x : spec_float) : bool :=
  (is_integer x && Z.odd (trunc x))%bool.

(** [x / y]: division by a zero raises. *)
Definition div (x y : spec_float) : M spec_float :=
  if eqb y zero then raise (ZeroDivisionError "float division by zero")
  else ret (SFdiv prec emax x y).

(** *** [str] of an integer and of a float *)

Definition digit_char (d : Z) : ascii := ascii_of_N (48 + Z.to_N d)%N.

(** The decimal digits of [z], most significant first, in front of
    [acc]. *)
Fixpoint digits_acc (fuel : nat) (z : Z) (acc : list ascii) : list ascii :=
  match fuel with
  | O => acc
  | S fuel' =>
      let acc' := digit_char (z mod 10)%Z :: acc in
      if (z <? 10)%Z then acc' else digits_acc fuel' (z / 10)%Z acc'
  end.

(** The digits of a natural number [z]. *)
Definition digits (z : Z) : list ascii :=
  digits_acc (S (Z.to_nat (Z.log2 z))) z [].

(** [str(z)] *)
Definition str_int (z : Z) : string :=
  if (z <? 0)%Z then of_chars ("-"%char :: digits (- z)%Z)
  else of_chars (digits z).

(** The value of a positive finite float [m * 2^e] as a fraction. *)
Definition fraction (m : positive) (e : Z) : Z * positive :=
  match e with
  | Zneg p => (Zpos m, Pos.pow 2 p)
  | _ => (Zpos m * 2 ^ e, 1%positive)%Z
  end.

(** [num / den * 10^k] as a fraction. *)
Definition scale10 (q : Z * positive) (k : Z) : Z * positive :=
  match k with
  | Zneg p => (fst q, (snd q * Pos.pow 10 p)%positive)
  | _ => ((fst q * 10 ^ k)%Z, snd q)
  end.

(** The position of the decimal point of a positive fraction [q]: the
    [k] with [10^(k-1) <= q < 10^k]. *)
Fixpoint point_below (fuel : nat) (q : Z * positive) (k : Z) : Z :=
  match fuel with
  | O => k
  | S fuel' =>
      if (fst q * 10 <? Zpos (snd q))%Z
      then point_below fuel' ((fst q * 10)%Z, snd q) (k - 1)%Z
      else k
  end.

Definition decimal_point (q : Z * positive) : Z :=
  if (Zpos (snd q) <=? fst q)%Z
  then Z.of_nat (length (digits (fst q / Zpos (snd q))))
  else point_below 400 q 0%Z.

(** The nearest integer to a fraction, ties to even. *)
Definition round_half_even (q : Z * positive) : Z :=
  let lo := (fst q / Zpos (snd q))%Z in
  let r := (fst q mod Zpos (snd q))%Z in
  match (2 * r ?= Zpos (snd q))%Z with
  | Lt => lo
  | Gt => (lo + 1)%Z
  | Eq => if Z.even lo then lo else (lo + 1)%Z
  end.

(** The shortest decimal that reads back as the float [m * 2^e], whose
    decimal point is at [k]: with [n] digits, the two decimals around the
    float are tried, and the nearer one is taken when both read back.
    The result [(d, x)] stands for [d * 10^x]. *)
Fixpoint shortest (fuel : nat) (n : Z) (m : positive) (e : Z) (k : Z)
  : Z * Z :=
  let q := scale10 (fraction m e) (n - k)%Z in
  let lo := (fst q / Zpos (snd q))%Z in
  let hi := (lo + 1)%Z in
  let back (d : Z) := of_decimal false d (k - n)%Z in
  let x := S754_finite false m e in
  match fuel with
  | O => (round_half_even q, (k - n)%Z)
  | S fuel' =>
      let ok_lo := eqb (back lo) x in
      let ok_hi := eqb (back hi) x in
      if (ok_lo && ok_hi)%bool then (round_half_even q, (k - n)%Z)
      else if ok_lo then (lo, (k - n)%Z)
      else if ok_hi then (hi, (k - n)%Z)
      else shortest fuel' (n + 1)%Z m e k
  end.

Fixpoint strip_zeros (fuel : nat) (d : Z) : Z :=
  match fuel with
  | O => d
  | S fuel' =>
      if ((d mod 10 =? 0) && (0 <? d))%Z then strip_zeros fuel' (d / 10)%Z else d
  end.

Definition zeros (n : Z) : list ascii := repeat "0"%char (Z.to_nat n).

(** The text of the exponent: a sign and at least two digits. *)
Definition exponent_text (x : Z) : list ascii :=
  let a := Z.abs x in
  (if (x <? 0)%Z then "-"%char else "+"%char)
    :: (if (a <? 10)%Z then "0"%char :: digits a else digits a).

(** [repr] of a positive finite float from its digits [ds] and the
    position [p] of the decimal point (the value is [0.ds * 10^p]):
    exponent notation when [p] is above 16 or below -3. *)
Definition layout (ds : list ascii) (p : Z) : list ascii :=
  let n := Z.of_nat (length ds) in
  if ((p <? -3) || (16 <? p))%Z%bool
  then match ds with
       | d :: [] => d :: "e"%char :: exponent_text (p - 1)%Z
       | d :: ds' => d :: "."%char :: ds' ++ "e"%char :: exponent_text (p - 1)%Z
       | [] => []
       end
  else if (p <=? 0)%Z
  then "0"%char :: "."%char :: zeros (- p)%Z ++ ds
  else if (n <=? p)%Z
  then ds ++ zeros (p - n)%Z ++ [ "."%char; "0"%char ]
  else firstn (Z.to_nat p) ds ++ "."%char :: skipn (Z.to_nat p) ds.

(** [str(x)] (which is [repr(x)]) for a float *)
Definition str_float (x : spec_float) : string :=
  match x with
  | S754_nan => "nan"
  | S754_infinity s => if s then "-inf" else "inf"
  | S754_zero s => if s then "-0.0" else "0.0"
  | S754_finite s m e =>
      let (d, x10) := shortest 17 1%Z m e (decimal_point (fraction m e)) in
      let ds := digits (strip_zeros (length (digits d)) d) in
      let p := (x10 + Z.of_nat (length (digits d)))%Z in
      of_chars ((if s then ["-"%char] else []) ++ layout ds p)
  end.

(** *** [round(x, 6)] *)

(** The decimal with six places nearest to [x] (ties to even), read back
    as a float; zeros, infinities and NaN are returned as they are. *)
Definition round6 (x : spec_float) : spec_float :=
  match x with
  | S754_finite s m e =>
      of_decimal s (round_half_even (scale10 (fraction m e) 6%Z)) (-6)%Z
  | _ => x
  end.

(** *** [x ** y] *)

(** The value of an arithmetic expression: an integer, a float, or a
    complex number when a negative number is raised to a power that is
    not an integer (only the fact that it is complex matters to this
    program). *)
Inductive number : Type :=
| Int (z : Z)
| Float (x : spec_float)
| Complex.

Section Pow.

(** The C library's [pow] on a positive finite base other than one and a
    finite exponent other than zero: its result and whether it reports
    a range error. *)
Variable libm_pow : spec_float -> spec_float -> spec_float * bool.

(** Whether the complex power of a negative base overflows. *)
Variable complex_pow_overflows : spec_float -> spec_float -> bool.

Definition is_inf (x : spec_float) : bool :=
  match x with
  | S754_infinity _ => true
  | _ => false
  end.

Definition is_nan (x : spec_float) : bool :=
  match x with
  | S754_nan => true
  | _ => false
  end.

(** [float.__pow__]: the special cases are decided before the C
    library is called; a result that is infinite, or a range error
    with a result that is not zero, raises [OverflowError]. *)
Definition pow (v w : spec_float) : M number :=
  if is_zero w then ret (Float one)
  else if is_nan v then ret (Float v)
  else if is_nan w then ret (Float (if eqb v one then one else w))
  else if is_inf w then
    let a := SFabs v in
    if eqb a one then ret (Float one)
    else if Bool.eqb (ltb zero w) (ltb one a)
         then ret (Float (SFabs w))
         else ret (Float zero)
  else if is_inf v then
    let odd := is_odd_integer w in
    if ltb zero w
    then ret (Float (if odd then v else SFabs v))
    else ret (Float (if odd then S754_zero (ltb v zero) else zero))
  else if is_zero v then
    if ltb w zero
    then raise (ZeroDivisionError "0.0 cannot be raised to a negative power")
    else ret (Float (if is_odd_integer w then v else zero))
  else
    let negative := ltb v zero in
    if (negative && negb (is_integer w))%bool
    then if complex_pow_overflows v w
         then raise (OverflowError "complex exponentiation")
         else ret Complex
    else
      let negate := (negative && is_odd_integer w)%bool in
      let a := SFabs v in
      if eqb a one
      then ret (Float (if negate then SFopp one else one))
      else
        let (r, erange) := libm_pow a w in
        if (is_inf r || (erange && negb (is_zero r)))%bool
        then raise (OverflowError "(34, 'Numerical result out of range')")
        else ret (Float (if negate then SFopp r else r)).

End Pow.

End PyFloat.

(** ** The values of slots and their text *)

(** A slot of [extracted_info] holds a string or a list of strings. *)
Inductive value : Type :=
| VStr (s : string)
| VList (l : list string).

Module PyRepr.

Import PyStr.

Definition hex_digit (n : N) : ascii :=
  if (n <? 10)%N then ascii_of_N (48 + n) else ascii_of_N (87 + n).

Definition escape_char (quote c : ascii) : list ascii :=
  if (Ascii.eqb c quote || Ascii.eqb c "\")%bool then [ "\"%char; c ]
  else if Ascii.eqb c "009" then [ "\"%char; "t"%char ]
  else if Ascii.eqb c "010" then [ "\"%char; "n"%char ]
  else if Ascii.eqb c "013" then [ "\"%char; "r"%char ]
  else if ((code c <? 32) || (code c =? 127))%N%bool
  then [ "\"%char; "x"%char; hex_digit (code c / 16); hex_digit (code c mod 16) ]
  else [c].

(** [repr(s)] for a string: single quotes, unless the text has a single
    quote and no double quote (the character 34). *)
Definition repr_str (s : string) : string :=
  let l := chars s in
  let quote :=
    if (existsb (Ascii.eqb "'") l && negb (existsb (Ascii.eqb "034") l))%bool
    then "034"%char else "'"%char in
  of_chars (quote :: flat_map (escape_char quote) l ++ [quote]).

(** [str(v)] for a slot value; [None] stands for Python's [None]. *)
Definition str_value (v : option value) : string :=
  match v with
  | None => "None"
  | Some (VStr s) => s
  | Some (VList l) => "[" +:+ join ", " (map repr_str l) +:+ "]"
  end.

End PyRepr.

(** [not v]: an empty string and an empty list are false. *)
Definition falsy (v : value) : bool :=
  match v with
  | VStr s => String.eqb s ""
  | VList l => match l with [] => true | _ => false end
  end.

(** The elements of [v] as a sequence: the items of a list, the
    characters of a string. *)
Definition items (v : value) : list string :=
  match v with
  | VStr s => map (fun c => String c "") (PyStr.chars s)
  | VList l => l
  end.

Definition value_eqb (a b : value) : bool :=
  match a, b with
  | VStr s, VStr t => String.eqb s t
  | VList l, VList k => bool_decide (l = k)
  | _, _ => false
  end.

(** ** The controller: its tables *)

Inductive ActionType : Type :=
| ASK_FOR_INFO
| CALL_API
| ANSWER_DIRECTLY.

(** [ActionType.value] *)
Definition action_value (a : ActionType) : string :=
  match a with
  | ASK_FOR_INFO => "ask_for_info"
  | CALL_API => "call_api"
  | ANSWER_DIRECTLY => "answer_directly"
  end.

Definition required_fields : gmap string (list string) :=
  list_to_map [
    ("calculate", ["operation"; "numbers"]);
    ("weather", ["location"]);
    ("book_flight", ["origin"; "destination"; "date"]);
    ("send_email", ["recipient"; "subject"; "message"]);
    ("search", ["query"]);
    ("schedule_meeting", ["participants"; "date"; "duration"])
  ].

Definition api_endpoints : gmap string string :=
  list_to_map [
    ("calculate", "calculator_api");
    ("weather", "weather_api");
    ("book_flight", "flight_booking_api");
    ("send_email", "email_api");
    ("search", "search_api");
    ("schedule_meeting", "calendar_api")
  ].

(** The pattern and keyword tables are iterated in the order of their
    declaration, so they are lists of pairs. *)
Definition intent_patterns : list (string * list string) := [
  ("calculate", [
    "(?:calculate|compute|add|subtract|multiply|divide)\s+(.+?)\s+(?:plus|minus|times|divided by|multiply|divide)\s+(.+)";
    "(?:what is|what's)\s+(.+?)\s+(?:plus|minus|times|divided by)\s+(.+)";
    "(?:add|subtract|multiply|divide)\s+(.+?)\s+(?:and|to|by)\s+(.+)";
    "(?:sum|total|result)\s+of\s+(.+?)\s+(?:and|plus)\s+(.+)";
    "(?:calculate|compute)\s+(.+?)\s+(?:and|with)\s+(.+)";
    "(?:math|mathematics|arithmetic)\s+(?:with|using)\s+(.+?)\s+(?:and|plus|minus|times|divided by)\s+(.+)";
    "(?:power|exponent)\s+(.+?)\s+(?:to|raised to)\s+(.+)";
    "(?:square root|sqrt)\s+of\s+(.+)";
    "(?:root|radical)\s+of\s+(.+)"
  ]);
  ("weather", [
    "(?:weather|temperature|forecast)\s+(?:in\s+)?(.+)";
    "(?:what's|what is)\s+the\s+weather\s+(?:like\s+)?(?:in\s+)?(.+)";
    "(?:how's|how is)\s+the\s+weather\s+(?:in\s+)?(.+)";
    "(?:weather|temperature)\s+(?:for|in)\s+(.+)";
    "(?:forecast|weather forecast)\s+(?:for|in)\s+(.+)";
    "(?:is it|will it)\s+(?:rain|snow|sunny|cloudy)\s+(?:in\s+)?(.+)"
  ]);
  ("book_flight", [
    "(?:book|reserve|schedule)\s+(?:a\s+)?flight\s+(?:from\s+)?(.+?)\s+(?:to\s+)?(.+?)(?:\s+on\s+(.+))?";
    "(?:fly|travel|go)\s+(?:from\s+)?(.+?)\s+(?:to\s+)?(.+?)(?:\s+on\s+(.+))?";
    "(?:flight|ticket)\s+(?:from\s+)?(.+?)\s+(?:to\s+)?(.+?)(?:\s+on\s+(.+))?";
    "(?:i want to|i need to|can you)\s+(?:fly|travel|go)\s+(?:from\s+)?(.+?)\s+(?:to\s+)?(.+?)(?:\s+on\s+(.+))?";
    "(?:book|reserve)\s+(?:a\s+)?(?:ticket|seat)\s+(?:from\s+)?(.+?)\s+(?:to\s+)?(.+?)(?:\s+on\s+(.+))?";
    "(?:from\s+)?(.+?)\s+(?:to\s+)?(.+?)(?:\s+on\s+(.+))?\s+(?:flight|ticket|travel)"
  ]);
  ("send_email", [
    "(?:send|write|compose)\s+(?:an\s+)?email\s+(?:to\s+)?(.+?)(?:\s+about\s+(.+))?";
    "(?:email|mail)\s+(.+?)(?:\s+regarding\s+(.+))?";
    "(?:send|write)\s+(?:a\s+)?message\s+(?:to\s+)?(.+?)(?:\s+about\s+(.+))?";
    "(?:contact|reach out to)\s+(.+?)(?:\s+about\s+(.+))?";
    "(?:i want to|i need to)\s+(?:send|write)\s+(?:an\s+)?email\s+(?:to\s+)?(.+?)(?:\s+about\s+(.+))?"
  ]);
  ("search", [
    "(?:search|find|look up)\s+(.+)";
    "(?:what is|what's)\s+(.+)";
    "(?:tell me about|information about)\s+(.+)";
    "(?:i want to know|i need to know)\s+(.+)";
    "(?:can you tell me|do you know)\s+(.+)";
    "(?:help me find|show me)\s+(.+)"
  ]);
  ("schedule_meeting", [
    "(?:schedule|book|arrange)\s+(?:a\s+)?meeting\s+(?:with\s+)?(.+?)(?:\s+on\s+(.+))?";
    "(?:meet|meeting)\s+(?:with\s+)?(.+?)(?:\s+on\s+(.+))?";
    "(?:set up|organize)\s+(?:a\s+)?meeting\s+(?:with\s+)?(.+?)(?:\s+on\s+(.+))?";
    "(?:i want to|i need to)\s+(?:meet|schedule)\s+(?:with\s+)?(.+?)(?:\s+on\s+(.+))?";
    "(?:appointment|call)\s+(?:with\s+)?(.+?)(?:\s+on\s+(.+))?"
  ])
].

Definition intent_keywords : list (string * list string) := [
  ("calculate", ["calculate"; "compute"; "add"; "subtract"; "multiply";
                 "divide"; "math"; "sum"; "total"; "plus"; "minus"; "times"]);
  ("weather", ["weather"; "temperature"; "forecast"; "rain"; "snow";
               "sunny"; "cloudy"; "hot"; "cold"]);
  ("book_flight", ["flight"; "fly"; "travel"; "ticket"; "airline";
                   "airport"; "from"; "to"; "destination"; "origin"]);
  ("send_email", ["email"; "mail"; "send"; "message"; "contact";
                  "recipient"; "inbox"]);
  ("search", ["search"; "find"; "look"; "what"; "tell"; "information";
              "know"; "help"]);
  ("schedule_meeting", ["meeting"; "schedule"; "appointment"; "call";
                        "meet"; "calendar"; "book"])
].

(** ** The controller: classification and slot extraction *)

Import PyStr.

(** The pattern of a decimal number, [\d+(?:\.\d+)?]. *)
Definition NUMBER : string := "\d+(?:\.\d+)?".

(** [any(k in text for k in ks)] *)
Definition any_in (ks : list string) (text : string) : bool :=
  existsb (fun k => contains k text) ks.

(** [_detect_operation] *)
Definition _detect_operation (text : string) : string :=
  let text := lower text in
  if any_in ["plus"; "+"] text then "add"
  else if any_in ["minus"; "-"] text then "subtract"
  else if any_in ["times"; "*"; "multiply"] text then "multiply"
  else if any_in ["divide"; "/"; "divided by"] text then "divide"
  else if any_in ["power"; "exponent"; "raised to"; "^"] text then "power"
  else if any_in ["square root"; "sqrt"; "root"; "radical"] text then "sqrt"
  else "add".

(** [_parse_calculation] *)
Definition _parse_calculation (text : string) : M (gmap string value) :=
  let operation :=
    if any_in ["plus"; "+"] text then "add"
    else if any_in ["minus"; "-"] text then "subtract"
    else if any_in ["times"; "*"; "multiply"] text then "multiply"
    else if any_in ["divide"; "/"] text then "divide"
    else "add" in
  numbers <- Re.findall NUMBER text ;;
  ret (<["numbers" := VList numbers]> (<["operation" := VStr operation]> ∅)).

(** [groups[i]] *)
Definition group (groups : list (option string)) (i : nat)
  : M (option string) :=
  match nth_error groups i with
  | Some g => ret g
  | None => raise (IndexError "tuple index out of range")
  end.

(** The truth value of a group: it took part in the match and is not
    empty. *)
Definition truthy (g : option string) : bool :=
  match g with
  | Some s => negb (String.eqb s "")
  | None => false
  end.

(** [g.strip() if g else ""] *)
Definition strip_or_empty (g : option string) : string :=
  match g with
  | Some s => if String.eqb s "" then "" else strip s
  | None => ""
  end.

(** The numbers found in the groups that are not empty, in order. *)
Fixpoint numbers_of_groups (groups : list (option string))
  : M (list string) :=
  match groups with
  | [] => ret []
  | g :: rest =>
      nums <- (match g with
               | Some s => if String.eqb s "" then ret []
                           else Re.findall NUMBER (strip s)
               | None => ret []
               end) ;;
      more <- numbers_of_groups rest ;;
      ret (nums ++ more)
  end.

(** [_extract_info_from_match]; [groups] is [match.groups()]. *)
Definition _extract_info_from_match (intent : string)
    (groups : list (option string)) (user_input : string)
  : M (gmap string value) :=
  if String.eqb intent "calculate" then
    second <- (if Nat.leb 2 (length groups)
               then g <- group groups 1 ;; ret (truthy g)
               else ret false) ;;
    if (second : bool) then
      let operation := _detect_operation user_input in
      numbers <- numbers_of_groups groups ;;
      ret (<["numbers" := VList numbers]>
             (<["operation" := VStr operation]> ∅))
    else
      g0 <- group groups 0 ;;
      let text := if truthy g0 then default "" g0 else "" in
      if any_in ["square root"; "sqrt"] (lower user_input) then
        numbers <- Re.findall NUMBER text ;;
        ret (<["numbers" := VList numbers]> (<["operation" := VStr "sqrt"]> ∅))
      else _parse_calculation text
  else if String.eqb intent "weather" then
    g0 <- group groups 0 ;;
    ret (<["location" := VStr (strip_or_empty g0)]> ∅)
  else if String.eqb intent "book_flight" then
    if Nat.leb 3 (length groups) then
      g0 <- group groups 0 ;;
      g1 <- group groups 1 ;;
      g2 <- group groups 2 ;;
      ret (<["date" := VStr (strip_or_empty g2)]>
             (<["destination" := VStr (strip_or_empty g1)]>
                (<["origin" := VStr (strip_or_empty g0)]> ∅)))
    else if Nat.leb 2 (length groups) then
      g0 <- group groups 0 ;;
      g1 <- group groups 1 ;;
      ret (<["destination" := VStr (strip_or_empty g1)]>
             (<["origin" := VStr (strip_or_empty g0)]> ∅))
    else ret ∅
  else if String.eqb intent "send_email" then
    g0 <- group groups 0 ;;
    g1 <- group groups 1 ;;
    ret (<["subject" := VStr (strip_or_empty g1)]>
           (<["recipient" := VStr (strip_or_empty g0)]> ∅))
  else if String.eqb intent "search" then
    g0 <- group groups 0 ;;
    ret (<["query" := VStr (strip_or_empty g0)]> ∅)
  else if String.eqb intent "schedule_meeting" then
    g0 <- group groups 0 ;;
    g1 <- group groups 1 ;;
    ret (<["date" := VStr (strip_or_empty g1)]>
           (<["participants" := VStr (strip_or_empty g0)]> ∅))
  else ret ∅.

(** [match.group(i).strip()]: a group that took no part in the match is
    [None], which has no [strip]. *)
Definition group_strip (m : Re.match_obj) (i : nat) : M string :=
  match nth_error (Re.groups m) (i - 1) with
  | Some (Some s) => ret (strip s)
  | Some None =>
      raise (AttributeError "'NoneType' object has no attribute 'strip'")
  | None => raise (IndexError "no such group")
  end.

(** The first of the patterns that matches: the loop
    [for pattern in patterns: match = re.search(...); if match: ...; break]. *)
Fixpoint first_match (patterns : list string) (text : string)
  : M (option Re.match_obj) :=
  match patterns with
  | [] => ret None
  | p :: rest =>
      m <- Re.search p text ;;
      match m with
      | Some mo => ret (Some mo)
      | None => first_match rest text
      end
  end.

Definition date_patterns : list string := [
  "(?:on|date|when)\s+([a-zA-Z]+\s+\d{1,2},?\s+\d{4})";
  "(?:on|date|when)\s+(\d{1,2}/\d{1,2}/\d{4})";
  "(?:on|date|when)\s+(\d{1,2}-\d{1,2}-\d{4})"
].

(** The loop of the search branch over its keywords: the text after the
    first keyword that occurs in the input. *)
Fixpoint search_query (keywords : list string) (user_input : string)
  : string :=
  match keywords with
  | [] => user_input
  | k :: rest =>
      match (if contains k user_input then after_first k user_input
             else None) with
      | Some tail => strip tail
      | None => search_query rest user_input
      end
  end.

(** [_extract_info_by_keywords] *)
Definition _extract_info_by_keywords (intent user_input : string)
  : M (gmap string value) :=
  if String.eqb intent "calculate" then
    numbers <- Re.findall NUMBER user_input ;;
    let operation := _detect_operation user_input in
    ret (<["numbers" := VList numbers]> (<["operation" := VStr operation]> ∅))
  else if String.eqb intent "weather" then
    m <- first_match [
           "(?:in|at|for)\s+([a-zA-Z\s]+?)(?:\s|$)";
           "weather\s+(?:in|at|for)\s+([a-zA-Z\s]+?)(?:\s|$)"
         ] user_input ;;
    match m with
    | Some mo =>
        location <- group_strip mo 1 ;;
        ret (<["location" := VStr location]> ∅)
    | None =>
        locations <- Re.findall "\b[A-Z][a-z]+(?:\s+[A-Z][a-z]+)*\b" user_input ;;
        match locations with
        | l :: _ => ret (<["location" := VStr l]> ∅)
        | [] => ret ∅
        end
    end
  else if String.eqb intent "book_flight" then
    m <- Re.search
           "(?:from|departing)\s+([a-zA-Z\s]+?)\s+(?:to|arriving at)\s+([a-zA-Z\s]+?)(?:\s|$)"
           user_input ;;
    extracted <- (match m with
                  | Some mo =>
                      origin <- group_strip mo 1 ;;
                      destination <- group_strip mo 2 ;;
                      ret (<["destination" := VStr destination]>
                             (<["origin" := VStr origin]> ∅))
                  | None => ret ∅
                  end) ;;
    d <- first_match date_patterns user_input ;;
    match d with
    | Some mo =>
        date <- group_strip mo 1 ;;
        ret (<["date" := VStr date]> (extracted : gmap string value))
    | None => ret extracted
    end
  else if String.eqb intent "send_email" then
    emails <- Re.findall
                "\b[A-Za-z0-9._%+-]+@[A-Za-z0-9.-]+\.[A-Z|a-z]{2,}\b"
                user_input ;;
    let extracted : gmap string value :=
      match emails with
      | e :: _ => <["recipient" := VStr e]> ∅
      | [] => ∅
      end in
    m <- Re.search "(?:about|regarding|subject)\s+([a-zA-Z\s]+?)(?:\s|$)"
           user_input ;;
    match m with
    | Some mo =>
        subject <- group_strip mo 1 ;;
        ret (<["subject" := VStr subject]> extracted)
    | None => ret extracted
    end
  else if String.eqb intent "search" then
    let search_keywords := ["search"; "find"; "look"; "what"; "tell";
                            "information"; "know"; "help"] in
    ret (<["query" := VStr (search_query search_keywords user_input)]> ∅)
  else if String.eqb intent "schedule_meeting" then
    m <- Re.search "(?:with|meeting with)\s+([a-zA-Z\s]+?)(?:\s|$)"
           user_input ;;
    extracted <- (match m with
                  | Some mo =>
                      participants <- group_strip mo 1 ;;
                      ret (<["participants" := VStr participants]> ∅)
                  | None => ret ∅
                  end) ;;
    d <- first_match date_patterns user_input ;;
    match d with
    | Some mo =>
        date <- group_strip mo 1 ;;
        ret (<["date" := VStr date]> (extracted : gmap string value))
    | None => ret extracted
    end
  else ret ∅.

(** The result of [parse_intent]. The confidence is one of three fixed
    numbers, kept as exact fractions. *)
Record Classification : Type := {
  intent : string;
  confidence : Q;
  extracted_info : gmap string value;
  raw_input : string;
  detection_method : string
}.

(** The score of one intent: one point for each keyword that occurs in
    the input, and half a point more when it is one of its words. *)
Fixpoint keyword_score (keywords : list string) (user_input : string)
    (words : list string) (score : Q) : Q :=
  match keywords with
  | [] => score
  | keyword :: rest =>
      keyword_score rest user_input words
        (if contains keyword user_input
         then let score := (score + 1)%Q in
              if mem keyword words then (score + (1 # 2))%Q else score
         else score)
  end.

(** [max(d, key=d.get)] over the entries that follow [best]: an entry
    replaces the best one only when its score is strictly greater. *)
Fixpoint max_entry (best : string * Q) (entries : list (string * Q))
  : string * Q :=
  match entries with
  | [] => best
  | e :: rest =>
      max_entry (if Qlt_le_dec (snd best) (snd e) then e else best) rest
  end.

(** [_detect_intent_by_keywords] over a keyword table *)
Definition detect_by_keywords (table : list (string * list string))
    (user_input : string) : option string :=
  let words := split user_input in
  let intent_scores :=
    map (fun e => (fst e, keyword_score (snd e) user_input words 0)) table in
  match intent_scores with
  | [] => None
  | first :: rest =>
      let best := max_entry first rest in
      if Qlt_le_dec 0 (snd best) then Some (fst best) else None
  end.

Definition _detect_intent_by_keywords (user_input : string) : option string :=
  detect_by_keywords intent_keywords user_input.

(** The inner loop of the pattern phase, over the patterns of one
    intent. *)
Fixpoint match_patterns (intent : string) (patterns : list string)
    (user_input : string) : M (option Classification) :=
  match patterns with
  | [] => ret None
  | pattern :: rest =>
      m <- Re.search pattern user_input ;;
      match m with
      | Some mo =>
          info <- _extract_info_from_match intent (Re.groups mo) user_input ;;
          ret (Some {| intent := intent;
                       confidence := 9 # 10;
                       extracted_info := info;
                       raw_input := user_input;
                       detection_method := "pattern" |})
      | None => match_patterns intent rest user_input
      end
  end.

(** The outer loop of the pattern phase, over the intents of a table. *)
Fixpoint match_intents (table : list (string * list string))
    (user_input : string) : M (option Classification) :=
  match table with
  | [] => ret None
  | (intent, patterns) :: rest =>
      r <- match_patterns intent patterns user_input ;;
      match r with
      | Some c => ret (Some c)
      | None => match_intents rest user_input
      end
  end.

(** [parse_intent] *)
Definition parse_intent (user_input : string) : M Classification :=
  let user_input := strip (lower user_input) in
  r <- match_intents intent_patterns user_input ;;
  match r with
  | Some c => ret c
  | None =>
      let default :=
        {| intent := "search";
           confidence := 3 # 10;
           extracted_info := <["query" := VStr user_input]> ∅;
           raw_input := user_input;
           detection_method := "default" |} in
      match _detect_intent_by_keywords user_input with
      | Some keyword_intent =>
          if String.eqb keyword_intent "" then ret default
          else
            info <- _extract_info_by_keywords keyword_intent user_input ;;
            ret {| intent := keyword_intent;
                   confidence := 7 # 10;
                   extracted_info := info;
                   raw_input := user_input;
                   detection_method := "keywords" |}
      | None => ret default
      end
  end.

(** ** The controller: missing information and the choice of an action *)

(** The loop of [check_missing_info] over the required fields. *)
Fixpoint missing_loop (required : list string)
    (extracted_info : gmap string value) (missing : list string)
  : list string :=
  match required with
  | [] => missing
  | field :: rest =>
      missing_loop rest extracted_info
        (match extracted_info !! field with
         | None => missing ++ [field]
         | Some v =>
             if falsy v then missing ++ [field]
             else match v with
                  | VList [] => missing ++ [field]
                  | _ => missing
                  end
         end)
  end.

(** [check_missing_info] *)
Definition check_missing_info (intent : string)
    (extracted_info : gmap string value) : list string :=
  match required_fields !! intent with
  | None => []
  | Some required => missing_loop required extracted_info []
  end.

Definition intent_messages : gmap string string :=
  list_to_map [
    ("calculate", "I need to know what numbers you want to calculate with.");
    ("weather", "I need to know which location you want weather information for.");
    ("book_flight", "I need the origin, destination, and date for your flight.");
    ("send_email", "I need the recipient and subject for your email.");
    ("search", "I need to know what you want to search for.");
    ("schedule_meeting", "I need to know who to meet with and when.")
  ].

Definition field_messages : gmap string string :=
  list_to_map [
    ("operation", "What operation would you like to perform? (add, subtract, multiply, divide)");
    ("numbers", "What numbers would you like to calculate with?");
    ("location", "Which location would you like weather information for?");
    ("origin", "Where are you departing from?");
    ("destination", "Where are you traveling to?");
    ("date", "What date would you like?");
    ("recipient", "Who should I send the email to?");
    ("subject", "What should the email subject be?");
    ("message", "What message would you like to send?");
    ("query", "What would you like to search for?");
    ("participants", "Who should attend the meeting?");
    ("duration", "How long should the meeting be?")
  ].

(** [_generate_missing_info_message] *)
Definition _generate_missing_info_message (intent : string)
    (missing_fields : list string) : string :=
  let base_message :=
    default "I need more information to help you." (intent_messages !! intent) in
  match missing_fields with
  | [field] =>
      let specific_message :=
        default ("Please provide " +:+ field +:+ ".") (field_messages !! field) in
      base_message +:+ " " +:+ specific_message
  | _ => base_message
  end.

(** [_generate_direct_answer] *)
Definition _generate_direct_answer (intent : string)
    (data : gmap string value) : string :=
  if String.eqb intent "search"
  then "I'll search for information about '" +:+
       PyRepr.str_value (Some (default (VStr "") (data !! "query"))) +:+
       "' for you."
  else "I understand you want to " +:+ intent +:+ ". Let me help you with that.".

(** The dictionary that goes with an action; each action has its own
    keys. *)
Inductive action_data : Type :=
| AskData (missing_fields : list string) (intent : string) (message : string)
| ApiData (endpoint : string) (intent : string) (data : gmap string value)
| AnswerData (intent : string) (data : gmap string value) (message : string).

(** [decide_action] *)
Definition decide_action (intent : string) (missing_info : list string)
    (extracted_info : gmap string value) : ActionType * action_data :=
  match missing_info with
  | _ :: _ =>
      (ASK_FOR_INFO,
       AskData missing_info intent
         (_generate_missing_info_message intent missing_info))
  | [] =>
      match api_endpoints !! intent with
      | Some endpoint => (CALL_API, ApiData endpoint intent extracted_info)
      | None =>
          (ANSWER_DIRECTLY,
           AnswerData intent extracted_info
             (_generate_direct_answer intent extracted_info))
      end
  end.

(** ** The controller: the execution of an action *)

(** The dictionary an action results in; the constructor is its
    ["type"] key. *)
Inductive ExecutionResult : Type :=
| AskForInfo (response : string) (missing_fields : list string)
    (intent : string)
| ApiResponse (endpoint result status : string) (error_type : option string)
    (data : option (gmap string value))
| DirectAnswer (response : string) (intent : string).

Definition result_type (r : ExecutionResult) : string :=
  match r with
  | AskForInfo _ _ _ => "ask_for_info"
  | ApiResponse _ _ _ _ _ => "api_response"
  | DirectAnswer _ _ => "direct_answer"
  end.

(** [r.get("status")], [r.get("result")] and [r.get("error_type")] *)
Definition status (r : ExecutionResult) : option string :=
  match r with
  | ApiResponse _ _ s _ _ => Some s
  | _ => None
  end.

Definition result_text (r : ExecutionResult) : option string :=
  match r with
  | ApiResponse _ t _ _ _ => Some t
  | _ => None
  end.

Definition error_type (r : ExecutionResult) : option string :=
  match r with
  | ApiResponse _ _ _ e _ => e
  | _ => None
  end.

Section Controller.

(** The two functions of the C library the power operator rests on. *)
Variable libm_pow : spec_float -> spec_float -> spec_float * bool.
Variable complex_pow_overflows : spec_float -> spec_float -> bool.

Import PyFloat.

(** [l[i]] *)
Definition list_item (l : list spec_float) (i : nat) : M spec_float :=
  match nth_error l i with
  | Some x => ret x
  | None => raise (IndexError "list index out of range")
  end.

(** [sum(l)]: from the integer 0, left to right, each addition rounded to
    binary64 (a release of Python whose [sum] compensates the rounding
    errors can differ in the last bit of a sum that is not exact). *)
Definition sum (l : list spec_float) : number :=
  match l with
  | [] => Int 0
  | _ => Float (fold_left add l zero)
  end.

(** [x - n] for a float [x] and a sum [n] *)
Definition minus (x : spec_float) (n : number) : number :=
  match n with
  | Int z => Float (sub x (of_Z z))
  | Float y => Float (sub x y)
  | Complex => Complex
  end.

(** [result = 1; for num in l: result *= num] *)
Definition product (l : list spec_float) : number :=
  fold_left (fun result num =>
               match result with
               | Int z => Float (mul (of_Z z) num)
               | Float x => Float (mul x num)
               | Complex => Complex
               end) l (Int 1).

(** [for num in l: result /= num] *)
Fixpoint quotient (result : spec_float) (l : list spec_float)
  : M spec_float :=
  match l with
  | [] => ret result
  | num :: rest => r <- div result num ;; quotient r rest
  end.

(** [0 in l] *)
Definition has_zero (l : list spec_float) : bool :=
  existsb (fun x => eq_int x 0) l.

(** The float conversions of [_calculate_result]: the floats, or the
    message about the first string that is not a number. *)
Fixpoint convert (numbers : list string) (float_numbers : list spec_float)
  : M (string + list spec_float) :=
  match numbers with
  | [] => ret (inr float_numbers)
  | num_str :: rest =>
      match of_string num_str with
      | inr x => convert rest (float_numbers ++ [x])
      | inl (ValueError _) =>
          ret (inl ("Error: '" +:+ num_str +:+ "' is not a valid number"))
      | inl e => raise e
      end
  end.

(** The branch of the operation: a message that is returned at once,
    or the result and the symbol of the operation. *)
Definition evaluate (operation : value) (float_numbers : list spec_float)
  : M (string + number * string) :=
  if value_eqb operation (VStr "add") then
    ret (inr (sum float_numbers, "+"))
  else if value_eqb operation (VStr "subtract") then
    x <- list_item float_numbers 0 ;;
    ret (inr (minus x (sum (tail float_numbers)), "-"))
  else if value_eqb operation (VStr "multiply") then
    ret (inr (product float_numbers, "×"))
  else if value_eqb operation (VStr "divide") then
    if has_zero (tail float_numbers)
    then ret (inl "Error: Cannot divide by zero")
    else
      x <- list_item float_numbers 0 ;;
      r <- quotient x (tail float_numbers) ;;
      ret (inr (Float r, "÷"))
  else if value_eqb operation (VStr "power") then
    if negb (Nat.eqb (length float_numbers) 2)
    then ret (inl "Error: Power operation requires exactly two numbers")
    else
      x <- list_item float_numbers 0 ;;
      y <- list_item float_numbers 1 ;;
      r <- pow libm_pow complex_pow_overflows x y ;;
      ret (inr (r, "^"))
  else if value_eqb operation (VStr "sqrt") then
    if negb (Nat.eqb (length float_numbers) 1)
    then ret (inl "Error: Square root operation requires exactly one number")
    else
      x <- list_item float_numbers 0 ;;
      if ltb x zero
      then ret (inl "Error: Cannot calculate square root of negative number")
      else
        x <- list_item float_numbers 0 ;;
        r <- pow libm_pow complex_pow_overflows x half ;;
        ret (inr (r, "√"))
  else
    ret (inl ("Error: Unknown operation '" +:+
              PyRepr.str_value (Some operation) +:+
              "'. Supported operations: add, subtract, multiply, divide, power, sqrt")).

(** The text of the operands. *)
Definition expression (operation : value) (symbol : string)
    (float_numbers : list spec_float) : M string :=
  if value_eqb operation (VStr "sqrt") then
    x <- list_item float_numbers 0 ;;
    ret (symbol +:+ "(" +:+ str_float x +:+ ")")
  else ret (join (" " +:+ symbol +:+ " ") (map str_float float_numbers)).

(** [int(result)] *)
Definition int_of (result : number) : M Z :=
  match result with
  | Int z => ret z
  | Float x => to_int x
  | Complex =>
      raise (TypeError
        "int() argument must be a string, a bytes-like object or a real number, not 'complex'")
  end.

(** The text of the result: the integer when the result equals it,
    the result rounded to six places otherwise. *)
Definition render (result : number) : M string :=
  z <- int_of result ;;
  match result with
  | Float x => ret (if eq_int x z then str_int z else str_float (round6 x))
  | _ => ret (str_int z)
  end.

(** The body of the [try] block of [_calculate_result]. *)
Definition calculate (operation : value) (numbers : list string)
  : M string :=
  c <- convert numbers [] ;;
  match c with
  | inl message => ret message
  | inr float_numbers =>
      e <- evaluate operation float_numbers ;;
      match e with
      | inl message => ret message
      | inr (result, symbol) =>
          expr <- expression operation symbol float_numbers ;;
          text <- render result ;;
          ret (expr +:+ " = " +:+ text)
      end
  end.

(** [_calculate_result] *)
Definition _calculate_result (data : gmap string value) : M string :=
  let operation := default (VStr "add") (data !! "operation") in
  let numbers := default (VList []) (data !! "numbers") in
  if falsy numbers then ret "Error: No numbers provided for calculation"
  else if (if value_eqb operation (VStr "sqrt")
           then Nat.ltb (length (items numbers)) 1
           else false)
  then ret "Error: Square root operation requires at least one number"
  else if (if value_eqb operation (VStr "sqrt")
           then false
           else Nat.ltb (length (items numbers)) 2)
  then ret "Error: Need at least two numbers for calculation"
  else if Nat.ltb 10 (length (items numbers))
  then ret "Error: Too many numbers provided (maximum 10)"
  else
    match calculate operation (items numbers) with
    | inr text => ret text
    | inl (OverflowError _) => ret "Error: Calculation result is too large"
    | inl e => ret ("Error: Calculation failed - " +:+ exn_str e)
    end.

(** [_call_calculator_api] *)
Definition _call_calculator_api (data : gmap string value)
  : ExecutionResult :=
  match _calculate_result data with
  | inr result =>
      if startswith result "Error:"
      then ApiResponse "calculator" result "error"
             (Some "calculation_error") (Some data)
      else ApiResponse "calculator" result "success" None (Some data)
  | inl e =>
      ApiResponse "calculator"
        ("Error: Calculator API failed - " +:+ exn_str e) "error"
        (Some "api_error") (Some data)
  end.

(** The answers of the other endpoints. *)
Definition api_responses (data : gmap string value)
  : gmap string ExecutionResult :=
  let get (key : string) := PyRepr.str_value (data !! key) in
  list_to_map [
    ("weather_api",
     ApiResponse "weather"
       ("Weather information for " +:+
        PyRepr.str_value
          (Some (default (VStr "unknown location") (data !! "location"))))
       "success" None None);
    ("flight_booking_api",
     ApiResponse "flight_booking"
       ("Flight booked from " +:+ get "origin" +:+ " to " +:+
        get "destination" +:+ " on " +:+ get "date")
       "success" None None);
    ("email_api",
     ApiResponse "email"
       ("Email sent to " +:+ get "recipient" +:+ " with subject: " +:+
        get "subject")
       "success" None None);
    ("search_api",
     ApiResponse "search" ("Search results for: " +:+ get "query")
       "success" None None);
    ("calendar_api",
     ApiResponse "calendar"
       ("Meeting scheduled with " +:+ get "participants" +:+ " on " +:+
        get "date")
       "success" None None)
  ].

(** [_call_api] *)
Definition _call_api (endpoint : string) (data : gmap string value)
  : ExecutionResult :=
  if String.eqb endpoint "calculator_api" then _call_calculator_api data
  else default (ApiResponse endpoint "API call completed" "success" None None)
         (api_responses data !! endpoint).

(** [execute_action]: the keys read from [action_data] are those of
    the action's own dictionary; another dictionary has not got them. *)
Definition execute_action (action_type : ActionType)
    (data : action_data) : M ExecutionResult :=
  match action_type, data with
  | ASK_FOR_INFO, AskData missing_fields intent message =>
      ret (AskForInfo message missing_fields intent)
  | ASK_FOR_INFO, ApiData _ _ _ => raise (KeyError "'message'")
  | ASK_FOR_INFO, AnswerData _ _ _ => raise (KeyError "'missing_fields'")
  | CALL_API, ApiData endpoint _ d => ret (_call_api endpoint d)
  | CALL_API, _ => raise (KeyError "'endpoint'")
  | ANSWER_DIRECTLY, AnswerData intent _ message =>
      ret (DirectAnswer message intent)
  | ANSWER_DIRECTLY, _ => raise (KeyError "'message'")
  end.

(** The dictionary [process_input] returns. *)
Record Response : Type := {
  input : string;
  intent_analysis : Classification;
  missing_info : list string;
  action_taken : string;
  result : ExecutionResult
}.

(** [process_input] *)
Definition process_input (user_input : string) : M Response :=
  intent_result <- parse_intent user_input ;;
  let missing_info :=
    check_missing_info (intent intent_result)
      (extracted_info intent_result) in
  let '(action_type, action_data) :=
    decide_action (intent intent_result) missing_info
      (extracted_info intent_result) in
  result <- execute_action action_type action_data ;;
  ret {| input := user_input;
         intent_analysis := intent_result;
         missing_info := missing_info;
         action_taken := action_value action_type;
         result := result |}.

End Controller.

(** ** Notions used in the statements *)

(** The input of the classifier after [lower] and [strip]. *)
Definition normalize (user_input : string) : string :=
  strip (lower user_input).

(** The pattern table as one list of (intent, pattern) pairs, in the
    order of declaration. *)
Definition declared_pairs (table : list (string * list string))
  : list (string * string) :=
  flat_map (fun e => map (pair (fst e)) (snd e)) table.

(** The two loops of the pattern phase as one pass over the pairs. *)
Fixpoint run_pairs (pairs : list (string * string)) (user_input : string)
  : M (option Classification) :=
  match pairs with
  | [] => ret None
  | (intent, pattern) :: rest =>
      m <- Re.search pattern user_input ;;
      match m with
      | Some mo =>
          info <- _extract_info_from_match intent (Re.groups mo) user_input ;;
          ret (Some {| intent := intent;
                       confidence := 9 # 10;
                       extracted_info := info;
                       raw_input := user_input;
                       detection_method := "pattern" |})
      | None => run_pairs rest user_input
      end
  end.

(** The score of an intent as a sum over its keywords. *)
Fixpoint score_sum (keywords : list string) (user_input : string) : Q :=
  match keywords with
  | [] => 0
  | keyword :: rest =>
      ((if contains keyword user_input then 1 else 0) +
       (if (contains keyword user_input && mem keyword (split user_input))%bool
        then 1 # 2 else 0) +
       score_sum rest user_input)%Q
  end.

(** The names of the six intents. *)
Definition intents : list string :=
  ["calculate"; "weather"; "book_flight"; "send_email"; "search";
   "schedule_meeting"].

(** [pattern] matches somewhere in [text]. *)
Definition matches (pattern text : string) : Prop :=
  exists m, Re.search pattern text = inr (Some m).

(** [pattern] matches nowhere in [text]. *)
Definition no_match (pattern text : string) : Prop :=
  Re.search pattern text = inr None.

(** Group [i] is captured by every match of [r]: it lies on every path
    through [r], outside of any repetition. *)
Fixpoint mandatory (i : nat) (r : Re.re) : bool :=
  match r with
  | Re.RSeq a b => (mandatory i a || mandatory i b)%bool
  | Re.RAlt a b => (mandatory i a && mandatory i b)%bool
  | Re.RGroup j a => (Nat.eqb i j || mandatory i a)%bool
  | _ => false
  end.

(** A pattern compiles, has at least [n] groups, and the groups listed
    in [sure] are captured by every match. *)
Definition pattern_ok (p : string) (n : nat) (sure : list nat) : bool :=
  match Re.parse p with
  | Some (r, g) =>
      (Nat.leb n g &&
       forallb (fun i => (Nat.leb 1 i && Nat.leb i g && mandatory i r)%bool)
         sure)%bool
  | None => false
  end.

(** The number of groups [_extract_info_from_match] reads for an
    intent. *)
Definition groups_read (intent : string) : nat :=
  if String.eqb intent "send_email" then 2
  else if String.eqb intent "schedule_meeting" then 2
  else if String.eqb intent "book_flight" then 0
  else 1.

(** A required field is missing from the slots: it is absent, or an
    empty string, or an empty list. *)
Definition is_missing (slots : gmap string value) (field : string) : bool :=
  match slots !! field with
  | None => true
  | Some (VStr s) => String.eqb s ""
  | Some (VList l) => match l with [] => true | _ => false end
  end.

(** A C library for the examples that never reach the power operator. *)
Definition unused_pow (_ _ : spec_float) : spec_float * bool :=
  (S754_nan, false).
Definition unused_complex_pow (_ _ : spec_float) : bool := false.

(** The string [s] reads as the float [x]. *)
Definition reads_as (s : string) (x : spec_float) : Prop :=
  PyFloat.of_string s = inr x.

(** The string [s] is a number for [float]. *)
Definition is_number (s : string) : Prop :=
  exists x, PyFloat.of_string s = inr x.

(** The string [s] is read by [float] as a number that is not below
    zero. *)
Definition unsigned_number (s : string) : Prop :=
  exists x, PyFloat.of_string s = inr x /\ PyFloat.ltb x PyFloat.zero = false.

(** The counts of [_calculate_result] let the numbers through: there is
    one at least, ten at most, and two at least unless the operation is
    the square root. *)
Definition counts_ok (operation : value) (numbers : list string) : Prop :=
  numbers <> [] /\ length numbers <= 10 /\
  (operation <> VStr "sqrt" -> 2 <= length numbers).

(** The calculator endpoint answers with the calculation error
    [message]. *)
Definition calculation_error
    (libm_pow : spec_float -> spec_float -> spec_float * bool)
    (complex_pow_overflows : spec_float -> spec_float -> bool)
    (data : gmap string value) (message : string) : Prop :=
  _call_calculator_api libm_pow complex_pow_overflows data =
  ApiResponse "calculator" message "error" (Some "calculation_error")
    (Some data).

(** The six operations of the calculator. *)
Definition operations : list string :=
  ["add"; "subtract"; "multiply"; "divide"; "power"; "sqrt"].

(** The value of an operation as the specification words it: the sum of
    all operands; the first operand minus the sum of the rest; the
    product of all; the first operand divided by each of the others in
    turn; the first operand raised to the second; the operand raised to
    0.5. *)
Definition spec_value
    (libm_pow : spec_float -> spec_float -> spec_float * bool)
    (complex_pow_overflows : spec_float -> spec_float -> bool)
    (op : string) (operands : list spec_float) : M PyFloat.number :=
  if String.eqb op "add" then
    ret (PyFloat.Float (fold_left PyFloat.add operands PyFloat.zero))
  else if String.eqb op "subtract" then
    match operands with
    | x :: rest =>
        ret (PyFloat.Float
               (PyFloat.sub x (fold_left PyFloat.add rest PyFloat.zero)))
    | [] => raise (IndexError "no operand")
    end
  else if String.eqb op "multiply" then
    ret (PyFloat.Float (fold_left PyFloat.mul operands PyFloat.one))
  else if String.eqb op "divide" then
    match operands with
    | x :: rest =>
        ret (PyFloat.Float
               (fold_left (SFdiv PyFloat.prec PyFloat.emax) rest x))
    | [] => raise (IndexError "no operand")
    end
  else if String.eqb op "power" then
    match operands with
    | [x; y] => PyFloat.pow libm_pow complex_pow_overflows x y
    | _ => raise (IndexError "not two operands")
    end
  else
    match operands with
    | [x] => PyFloat.pow libm_pow complex_pow_overflows x PyFloat.half
    | _ => raise (IndexError "not one operand")
    end.

(** The checks of an operation on its operands: no divisor is zero; a
    power has two operands; a square root has one, which is not
    negative. *)
Definition valid_operands (op : string) (operands : list spec_float) : Prop :=
  (op = "divide" ->
   Forall (fun x => PyFloat.is_zero x = false) (tail operands)) /\
  (op = "power" -> length operands = 2) /\
  (op = "sqrt" ->
   exists x, operands = [x] /\ PyFloat.ltb x PyFloat.zero = false).

(** The text of a finite result: without a fractional part when the
    result is a whole number, rounded to six places otherwise. *)
Definition spec_render (r : spec_float) : string :=
  if PyFloat.is_integer r then PyFloat.str_int (PyFloat.trunc r)
  else PyFloat.str_float (PyFloat.round6 r).

(** The matcher goes from [st] to [st'] by consuming the text [w]. *)
Definition advances (st : Re.mstate) (w : list ascii) (st' : Re.mstate)
  : Prop :=
  Re.ms_rest st = w ++ Re.ms_rest st' /\
  Re.ms_pos st' = Re.ms_pos st + length w.

(** The texts a regular expression can consume (the conditions [$] and
    [\b] put on the surrounding text are left out). *)
Fixpoint lang (r : Re.re) (w : list ascii) : Prop :=
  match r with
  | Re.REmpty | Re.REnd | Re.RWordB => w = []
  | Re.RChar c => w = [c]
  | Re.RAny => exists c, w = [c]
  | Re.RSet neg its =>
      exists c, w = [c] /\ xorb neg (existsb (Re.item_matches c) its) = true
  | Re.RSeq a b => exists u v, w = u ++ v /\ lang a u /\ lang b v
  | Re.RAlt a b => lang a w \/ lang b w
  | Re.RGroup _ a => lang a w
  | Re.RRep a lo hi _ =>
      exists ws,
        w = concat ws /\ lo <= length ws /\
        match hi with Some h => length ws <= h | None => True end /\
        Forall (lang a) ws
  end.

(** The text of a decimal number as [NUMBER] matches it: digits, then
    possibly a point and digits. *)
Definition number_text (w : list ascii) : Prop :=
  exists ds fs,
    ds <> [] /\ Forall (fun c => isdigit c = true) ds /\
    Forall (fun c => isdigit c = true) fs /\
    (w = ds \/ (fs <> [] /\ w = ds ++ "."%char :: fs)).

(** The slots each extraction can fill for an intent. *)
Definition known_slots (intent : string) : list string :=
  if String.eqb intent "calculate" then ["operation"; "numbers"]
  else if String.eqb intent "weather" then ["location"]
  else if String.eqb intent "book_flight" then ["origin"; "destination"; "date"]
  else if String.eqb intent "send_email" then ["recipient"; "subject"]
  else if String.eqb intent "search" then ["query"]
  else if String.eqb intent "schedule_meeting" then ["participants"; "date"]
  else [].

(** The slots of a calculation: an operation and a list of numbers. *)
Definition calculation (op : string) (numbers : list string)
  : gmap string value :=
  <["numbers" := VList numbers]> (<["operation" := VStr op]> ∅).

(** The errors of the calculator that a request of the classifier can be
    answered with. *)
Definition reachable_errors : list string :=
  ["Error: Need at least two numbers for calculation";
   "Error: Too many numbers provided (maximum 10)";
   "Error: Cannot divide by zero";
   "Error: Power operation requires exactly two numbers";
   "Error: Square root operation requires exactly one number";
   "Error: Calculation result is too large";
   "Error: Calculation failed - cannot convert float NaN to integer"].

(** [r.get("endpoint")] *)
Definition endpoint_name (r : ExecutionResult) : option string :=
  match r with
  | ApiResponse e _ _ _ _ => Some e
  | _ => None
  end.

(** The group [i] is set somewhere in [r]. *)
Fixpoint sets_group (i : nat) (r : Re.re) : bool :=
  match r with
  | Re.RSeq a b | Re.RAlt a b => (sets_group i a || sets_group i b)%bool
  | Re.RGroup j a => (Nat.eqb i j || sets_group i a)%bool
  | Re.RRep a _ _ _ => sets_group i a
  | _ => false
  end.

(** The value of the group [i] is the same in [st'] as in [st]. *)
Definition same_group (i : nat) (st st' : Re.mstate) : Prop :=
  Re.lookup_cap i (Re.ms_caps st') = Re.lookup_cap i (Re.ms_caps st).

(** The lazy group [(.+?)] with the number [i], followed by an optional
    part: [(.+?)(?:...)?]. *)
Definition lazy_then_optional (i : nat) (opt : Re.re) : Re.re :=
  Re.RSeq (Re.RGroup i (Re.RRep Re.RAny 1 None false))
    (Re.RRep opt 0 (Some 1) true).

(** The pattern [r] ends with [b]. *)
Fixpoint ends_with (b r : Re.re) : Prop :=
  r = b \/
  match r with
  | Re.RSeq _ r' => ends_with b r'
  | _ => False
  end.

(** The patterns of an intent. *)
Definition patterns_of (intent : string) : list string :=
  match List.find (fun e => String.eqb (fst e) intent) intent_patterns with
  | Some e => snd e
  | None => []
  end.

(** The patterns that end with a lazy group and an optional part, each
    with the number of that group: the first five patterns of a flight,
    whose second group is the destination, and the patterns of an email
    and of a meeting, whose first group is the recipient or the
    participants. *)
Definition lazy_patterns : list (string * nat) :=
  map (fun p => (p, 2)) (firstn 5 (patterns_of "book_flight")) ++
  map (fun p => (p, 1)) (patterns_of "send_email") ++
  map (fun p => (p, 1)) (patterns_of "schedule_meeting").

(** [s] is made of ASCII characters. *)
Definition ascii_text (s : string) : Prop :=
  forallb (fun c => N.ltb (code c) 128) (chars s) = true.

(** The whitespace characters of ASCII, which are those of [str.isspace]
    below 128: tab, line feed, vertical tab, form feed, carriage return,
    the four separators 0x1c to 0x1f and the space. *)
Definition ascii_whitespace : list ascii :=
  ["009"; "010"; "011"; "012"; "013"; "028"; "029"; "030"; "031"; " "]%char.

(** [k] occurs in [s]: [s] is some text, then [k], then some text. *)
Definition occurs (k s : string) : Prop :=
  exists a b, chars s = a ++ chars k ++ b.

(** What stands next to a word: a whitespace character, or nothing at an
    end of the text. *)
Definition delimiter (c : option ascii) : Prop :=
  match c with
  | Some c => isspace c = true
  | None => True
  end.

(** [w] is one of the words of the text [l], a token delimited by
    whitespace: it is not empty, has no whitespace in it, and stands in
    [l] between two delimiters. *)
Definition token (w l : list ascii) : Prop :=
  w <> [] /\ Forall (fun c => isspace c = false) w /\
  exists a b, l = a ++ w ++ b /\ delimiter (last a) /\ delimiter (head b).

(** [w] is one of the words of [s]. *)
Definition word_of (w s : string) : Prop := token (chars w) (chars s).

(** The points of one keyword for the input [u]: one when it occurs in
    [u], and half a point more when it also is one of the words of
    [u]. *)
Definition points (u k : string) (p : Q) : Prop :=
  (~ occurs k u /\ p == 0)%Q \/
  (occurs k u /\ ~ word_of k u /\ p == 1)%Q \/
  (occurs k u /\ word_of k u /\ p == 1 + (1 # 2))%Q.

(** The score of an intent for the input [u]: the sum of the points of
    its keywords. *)
Fixpoint scores (u : string) (keywords : list string) (q : Q) : Prop :=
  match keywords with
  | [] => (q == 0)%Q
  | k :: rest =>
      exists p q', points u k p /\ scores u rest q' /\ (q == p + q')%Q
  end.

(** The number a float stands for; zero for an infinity and for NaN. *)
Definition float_value (x : spec_float) : Q :=
  match x with
  | S754_finite s m e =>
      ((if s then -1 else 1) * (inject_Z (Zpos m) * 2 ^ e))%Q
  | _ => 0%Q
  end.

(** The sign bit of a float. *)
Definition sign_bit (x : spec_float) : bool :=
  match x with
  | S754_zero s | S754_infinity s | S754_finite s _ _ => s
  | S754_nan => false
  end.

(** [n] is the integer nearest to [q], and the even one when [q] is
    halfway between two integers. *)
Definition nearest_even (q : Q) (n : Z) : Prop :=
  (Qabs (inject_Z n - q) <= 1 # 2)%Q /\
  ((Qabs (inject_Z n - q) == 1 # 2)%Q -> Z.even n = true).

(** The integer part of [q]: the integer next to [q] towards zero. *)
Definition integer_part (q : Q) : Z :=
  if Qle_bool 0 q then Qfloor q else Qceiling q.

(** [x] is [r] rounded to six decimal places: the float nearest to
    [n / 10^6] with the sign of [r], where [n] is the integer nearest to
    the absolute value of [r] times [10^6], the even one in a tie. *)
Definition rounded_to_six_places (r x : spec_float) : Prop :=
  exists n,
    nearest_even (Qabs (float_value r) * 1000000)%Q n /\
    x = PyFloat.of_decimal (sign_bit r) n (-6).

(** The captures of [st] are still there in [st']. *)
Definition keeps (st st' : Re.mstate) : Prop :=
  forall i, is_Some (Re.lookup_cap i (Re.ms_caps st)) ->
            is_Some (Re.lookup_cap i (Re.ms_caps st')).

(** ** Properties of the matcher *)

(** One step of a computation that can raise. *)
Ltac run := cbn [bind ret raise].

Lemma keeps_refl st : keeps st st.
Proof. intros i H. exact H. Qed.

Lemma keeps_trans a b c : keeps a b -> keeps b c -> keeps a c.
Proof. intros H1 H2 i H. apply H2, H1, H. Qed.

Lemma step_inv {A} ok st (k : Re.mstate -> option A) x :
  Re.step ok st k = Some x ->
  exists st', k st' = Some x /\ keeps st st'.
Proof.
  unfold Re.step. destruct (Re.ms_rest st) as [|c rest]; [discriminate|].
  destruct (ok c); [|discriminate].
  intros H. eexists. split; [exact H|]. intros i Hi. exact Hi.
Qed.

Lemma rep_loop_inv {A} (body : Re.mstate -> (Re.mstate -> option A) -> option A)
    lo hi greedy (k : Re.mstate -> option A) :
  (forall st k' x, body st k' = Some x ->
     exists st', k' st' = Some x /\ keeps st st') ->
  forall fuel n st x,
    Re.rep_loop body lo hi greedy k fuel n st = Some x ->
    exists st', k st' = Some x /\ keeps st st'.
Proof.
  intros Hbody. induction fuel as [|fuel IH]; intros n st x H.
  - discriminate.
  - simpl in H.
    assert (Hagain : forall y,
      (if Re.below n hi
       then body st (fun st' =>
              if Nat.eqb (Re.ms_pos st') (Re.ms_pos st) then None
              else Re.rep_loop body lo hi greedy k fuel (S n) st')
       else None) = Some y ->
      exists st', k st' = Some y /\ keeps st st').
    { intros y Hy. destruct (Re.below n hi); [|discriminate].
      apply Hbody in Hy as (st1 & Hy & K1).
      destruct (Nat.eqb (Re.ms_pos st1) (Re.ms_pos st)); [discriminate|].
      apply IH in Hy as (st2 & Hy & K2).
      exists st2. split; [exact Hy|]. eapply keeps_trans; eassumption. }
    assert (Hstop : forall y,
      (if Nat.leb lo n then k st else None) = Some y ->
      exists st', k st' = Some y /\ keeps st st').
    { intros y Hy. destruct (Nat.leb lo n); [|discriminate].
      exists st. split; [exact Hy|apply keeps_refl]. }
    destruct greedy.
    + match type of H with
      | match ?a with _ => _ end = _ =>
          case_eq a; [intros y Ha|intros Ha]; rewrite Ha in H
      end.
      * injection H as <-. apply Hagain, Ha.
      * apply Hstop, H.
    + match type of H with
      | match ?a with _ => _ end = _ =>
          case_eq a; [intros y Ha|intros Ha]; rewrite Ha in H
      end.
      * injection H as <-. apply Hstop, Ha.
      * apply Hagain, H.
Qed.

Lemma rmatch_inv r :
  forall A st (k : Re.mstate -> option A) x,
    Re.rmatch r st k = Some x ->
    exists st', k st' = Some x /\ keeps st st' /\
      forall i, mandatory i r = true ->
                is_Some (Re.lookup_cap i (Re.ms_caps st')).
Proof.
  induction r as [| c | | neg its | a IHa b IHb | a IHa b IHb | j a IHa
                 | a IHa lo hi g | | ]; intros A st k x H;
    cbn [Re.rmatch] in H.
  - exists st. split; [exact H|]. split; [apply keeps_refl|discriminate].
  - apply step_inv in H as (st' & H & K). exists st'.
    split; [exact H|]. split; [exact K|discriminate].
  - apply step_inv in H as (st' & H & K). exists st'.
    split; [exact H|]. split; [exact K|discriminate].
  - apply step_inv in H as (st' & H & K). exists st'.
    split; [exact H|]. split; [exact K|discriminate].
  - apply IHa in H as (st1 & H & K1 & M1).
    apply IHb in H as (st2 & H & K2 & M2).
    exists st2. split; [exact H|]. split; [eapply keeps_trans; eassumption|].
    intros i Hi. simpl in Hi. apply orb_true_iff in Hi as [Hi|Hi].
    + apply K2, M1, Hi.
    + apply M2, Hi.
  - destruct (Re.rmatch a st k) as [y|] eqn:Ha.
    + injection H as <-. apply IHa in Ha as (st1 & H & K1 & M1).
      exists st1. split; [exact H|]. split; [exact K1|].
      intros i Hi. simpl in Hi. apply andb_true_iff in Hi as [Hi _].
      apply M1, Hi.
    + apply IHb in H as (st1 & H & K1 & M1).
      exists st1. split; [exact H|]. split; [exact K1|].
      intros i Hi. simpl in Hi. apply andb_true_iff in Hi as [_ Hi].
      apply M1, Hi.
  - apply IHa in H as (st1 & H & K1 & M1).
    exists (Re.set_group j st st1). split; [exact H|].
    assert (Hset : forall i,
      is_Some (Re.lookup_cap i (Re.ms_caps st1)) ->
      is_Some (Re.lookup_cap i (Re.ms_caps (Re.set_group j st st1)))).
    { intros i Hi. simpl. destruct (Nat.eqb i j); [eexists; reflexivity|exact Hi]. }
    split.
    + intros i Hi. apply Hset, K1, Hi.
    + intros i Hi. simpl in Hi. apply orb_true_iff in Hi as [Hi|Hi].
      * simpl. rewrite Hi. eexists; reflexivity.
      * apply Hset, M1, Hi.
  - apply rep_loop_inv in H as (st' & H & K).
    + exists st'. split; [exact H|]. split; [exact K|discriminate].
    + intros st0 k' y Hy. apply IHa in Hy as (st1 & Hy & K1 & _).
      exists st1. split; assumption.
  - destruct (Re.at_end st); [|discriminate].
    exists st. split; [exact H|]. split; [apply keeps_refl|discriminate].
  - destruct (Re.at_word_boundary st); [|discriminate].
    exists st. split; [exact H|]. split; [apply keeps_refl|discriminate].
Qed.

Lemma match_at_groups r n st m :
  Re.match_at r n st = Some m ->
  length (Re.groups m) = n /\
  forall i, mandatory i r = true -> 1 <= i <= n ->
            exists s, nth_error (Re.groups m) (i - 1) = Some (Some s).
Proof.
  unfold Re.match_at. intros H.
  destruct (Re.rmatch r st Some) as [st'|] eqn:Hm; [|discriminate].
  injection H as <-. simpl. split.
  - rewrite length_map, length_seq. reflexivity.
  - intros i Hi Hn. apply rmatch_inv in Hm as (st1 & E & _ & M).
    injection E as ->. destruct (M i Hi) as [s Hs].
    exists s. rewrite nth_error_map.
    replace (nth_error (List.seq 1 n) (i - 1)) with (Some i).
    + simpl. rewrite Hs. reflexivity.
    + symmetry. rewrite nth_error_nth' with (d := 0).
      * rewrite seq_nth by lia. f_equal. lia.
      * rewrite length_seq. lia.
Qed.

Lemma scan_groups r n fuel : forall st m,
  Re.scan r n fuel st = Some m ->
  length (Re.groups m) = n /\
  forall i, mandatory i r = true -> 1 <= i <= n ->
            exists s, nth_error (Re.groups m) (i - 1) = Some (Some s).
Proof.
  induction fuel as [|fuel IH]; intros st m H; simpl in H.
  - destruct (Re.match_at r n st) as [m'|] eqn:Hm.
    + injection H as <-. eapply match_at_groups, Hm.
    + discriminate.
  - destruct (Re.match_at r n st) as [m'|] eqn:Hm.
    + injection H as <-. eapply match_at_groups, Hm.
    + destruct (Re.ms_rest st); [discriminate|]. eapply IH, H.
Qed.

(** A pattern that compiles can be searched for; its matches have the
    groups of the pattern. *)
Lemma search_ok p n sure text :
  pattern_ok p n sure = true ->
  exists r, Re.search p text = inr r /\
    forall m, r = Some m ->
      n <= length (Re.groups m) /\
      forall i, In i sure ->
        exists s, nth_error (Re.groups m) (i - 1) = Some (Some s).
Proof.
  unfold pattern_ok, Re.search, Re.compile.
  destruct (Re.parse p) as [[r g]|]; [|discriminate].
  intros H. apply andb_true_iff in H as [Hn Hs]. simpl.
  eexists. split; [reflexivity|].
  intros m Hm. apply scan_groups in Hm as [Hl Hg]. split.
  - rewrite Hl. apply Nat.leb_le, Hn.
  - intros i Hi. rewrite forallb_forall in Hs. specialize (Hs i Hi).
    apply andb_true_iff in Hs as [Hs Hmand].
    apply andb_true_iff in Hs as [H1 H2].
    apply Nat.leb_le in H1. apply Nat.leb_le in H2.
    apply Hg; [exact Hmand|lia].
Qed.

Lemma findall_ok p text :
  pattern_ok p 0 [] = true -> exists l, Re.findall p text = inr l.
Proof.
  unfold pattern_ok, Re.findall, Re.compile.
  destruct (Re.parse p) as [[r g]|]; [|discriminate].
  intros _. simpl. eexists. reflexivity.
Qed.

Lemma NUMBER_ok : pattern_ok NUMBER 0 [] = true.
Proof. vm_compute. reflexivity. Qed.

Lemma first_match_ok patterns text :
  forallb (fun p => pattern_ok p 1 [1]) patterns = true ->
  exists r, first_match patterns text = inr r /\
    forall m, r = Some m ->
      exists s, nth_error (Re.groups m) 0 = Some (Some s).
Proof.
  induction patterns as [|p ps IH]; simpl; intros H.
  - exists None. split; [reflexivity|discriminate].
  - apply andb_true_iff in H as [Hp Hps].
    destruct (search_ok p 1 [1] text Hp) as (r & Hr & Hg).
    rewrite Hr. simpl. destruct r as [m|].
    + exists (Some m). split; [reflexivity|].
      intros m' E. injection E as <-.
      destruct (Hg m eq_refl) as [_ Hs]. apply (Hs 1). left. reflexivity.
    + apply IH, Hps.
Qed.

Lemma group_strip_ok m i s :
  nth_error (Re.groups m) (i - 1) = Some (Some s) ->
  group_strip m i = inr (strip s).
Proof. unfold group_strip. intros ->. reflexivity. Qed.

Lemma group_ok groups i :
  i < length groups -> exists g, group groups i = inr g.
Proof.
  intros H. unfold group.
  destruct (nth_error groups i) as [g|] eqn:E.
  - exists g. reflexivity.
  - apply nth_error_None in E. lia.
Qed.

Lemma numbers_of_groups_ok groups :
  exists l, numbers_of_groups groups = inr l.
Proof.
  induction groups as [|g rest [l IH]]; cbn [numbers_of_groups].
  - eexists. reflexivity.
  - rewrite IH. destruct g as [s|].
    + destruct (String.eqb s "").
      * run. eexists. reflexivity.
      * destruct (findall_ok NUMBER (strip s) NUMBER_ok) as [nums ->].
        run. eexists. reflexivity.
    + run. eexists. reflexivity.
Qed.

Lemma _parse_calculation_ok text :
  exists d, _parse_calculation text = inr d.
Proof.
  unfold _parse_calculation.
  destruct (findall_ok NUMBER text NUMBER_ok) as [l ->]. run.
  eexists. reflexivity.
Qed.

(** With the groups it reads, [_extract_info_from_match] does not
    raise. *)
Lemma _extract_info_from_match_ok intent groups user_input :
  groups_read intent <= length groups ->
  exists d, _extract_info_from_match intent groups user_input = inr d.
Proof.
  unfold groups_read, _extract_info_from_match. intros H.
  destruct (String.eqb intent "calculate") eqn:E1.
  - apply String.eqb_eq in E1. subst intent. simpl in H.
    destruct (Nat.leb 2 (length groups)) eqn:E2.
    + apply Nat.leb_le in E2.
      destruct (group_ok groups 1) as [g1 ->]; [lia|]. run.
      destruct (truthy g1).
      * destruct (numbers_of_groups_ok groups) as [l ->]. run.
        eexists. reflexivity.
      * destruct (group_ok groups 0) as [g0 ->]; [lia|]. run.
        match goal with |- context [any_in ?a ?b] => destruct (any_in a b) end.
        -- destruct (findall_ok NUMBER
                       (if truthy g0 then default "" g0 else "") NUMBER_ok)
             as [l ->].
           run. eexists. reflexivity.
        -- apply _parse_calculation_ok.
    + run. destruct (group_ok groups 0) as [g0 ->]; [lia|]. run.
      match goal with |- context [any_in ?a ?b] => destruct (any_in a b) end.
      * destruct (findall_ok NUMBER
                    (if truthy g0 then default "" g0 else "") NUMBER_ok)
          as [l ->].
        run. eexists. reflexivity.
      * apply _parse_calculation_ok.
  - destruct (String.eqb intent "weather") eqn:E2.
    { apply String.eqb_eq in E2. subst intent. simpl in H.
      destruct (group_ok groups 0) as [g0 ->]; [lia|]. run.
      eexists. reflexivity. }
    destruct (String.eqb intent "book_flight") eqn:E3.
    { destruct (Nat.leb 3 (length groups)) eqn:L3.
      - apply Nat.leb_le in L3.
        destruct (group_ok groups 0) as [g0 ->]; [lia|].
        destruct (group_ok groups 1) as [g1 ->]; [lia|].
        destruct (group_ok groups 2) as [g2 ->]; [lia|].
        run. eexists. reflexivity.
      - destruct (Nat.leb 2 (length groups)) eqn:L2.
        + apply Nat.leb_le in L2.
          destruct (group_ok groups 0) as [g0 ->]; [lia|].
          destruct (group_ok groups 1) as [g1 ->]; [lia|].
          run. eexists. reflexivity.
        + eexists. reflexivity. }
    destruct (String.eqb intent "send_email") eqn:E4.
    { apply String.eqb_eq in E4. subst intent. simpl in H.
      destruct (group_ok groups 0) as [g0 ->]; [lia|].
      destruct (group_ok groups 1) as [g1 ->]; [lia|].
      run. eexists. reflexivity. }
    destruct (String.eqb intent "search") eqn:E5.
    { apply String.eqb_eq in E5. subst intent. simpl in H.
      destruct (group_ok groups 0) as [g0 ->]; [lia|].
      run. eexists. reflexivity. }
    destruct (String.eqb intent "schedule_meeting") eqn:E6.
    { apply String.eqb_eq in E6. subst intent. simpl in H.
      destruct (group_ok groups 0) as [g0 ->]; [lia|].
      destruct (group_ok groups 1) as [g1 ->]; [lia|].
      run. eexists. reflexivity. }
    eexists. reflexivity.
Qed.

(** ** Properties of the pattern phase *)

(** Every pattern of the table compiles and has the groups that the
    extraction for its intent reads. *)
Lemma intent_patterns_ok :
  forallb (fun e => pattern_ok (snd e) (groups_read (fst e)) [])
    (declared_pairs intent_patterns) = true.
Proof. vm_compute. reflexivity. Qed.

Lemma match_patterns_run intent patterns user_input
    (rest : M (option Classification)) pairs :
  rest = run_pairs pairs user_input ->
  (r <- match_patterns intent patterns user_input ;;
   match r with
   | Some c => ret (Some c)
   | None => rest
   end) = run_pairs (map (pair intent) patterns ++ pairs) user_input.
Proof.
  intros ->. induction patterns as [|p ps IH]; cbn [match_patterns map app run_pairs].
  - reflexivity.
  - destruct (Re.search p user_input) as [e|[mo|]]; run.
    + reflexivity.
    + destruct (_extract_info_from_match intent (Re.groups mo) user_input);
        reflexivity.
    + exact IH.
Qed.

(** The nested loops visit the pairs in the order of declaration. *)
Lemma match_intents_run table user_input :
  match_intents table user_input =
  run_pairs (declared_pairs table) user_input.
Proof.
  induction table as [|[intent patterns] rest IH];
    cbn [match_intents declared_pairs flat_map fst snd].
  - reflexivity.
  - apply match_patterns_run. exact IH.
Qed.

Lemma run_pairs_skip pre pairs user_input :
  Forall (fun q => no_match (snd q) user_input) pre ->
  run_pairs (pre ++ pairs) user_input = run_pairs pairs user_input.
Proof.
  induction 1 as [|[i p] pre Hp _ IH]; cbn [app run_pairs].
  - reflexivity.
  - unfold no_match in Hp. cbn [snd] in Hp. rewrite Hp. run. exact IH.
Qed.

Lemma run_pairs_none pairs user_input :
  Forall (fun q => no_match (snd q) user_input) pairs ->
  run_pairs pairs user_input = inr None.
Proof.
  intros H. rewrite <- (app_nil_r pairs). rewrite run_pairs_skip by exact H.
  reflexivity.
Qed.

Lemma run_pairs_hit intent p pairs user_input :
  pattern_ok p (groups_read intent) [] = true ->
  matches p user_input ->
  exists info,
    run_pairs ((intent, p) :: pairs) user_input =
    inr (Some {| intent := intent;
                 confidence := 9 # 10;
                 extracted_info := info;
                 raw_input := user_input;
                 detection_method := "pattern" |}).
Proof.
  intros Hok [m Hm]. cbn [run_pairs]. rewrite Hm. run.
  destruct (search_ok p _ [] user_input Hok) as (r & Hr & Hg).
  rewrite Hm in Hr. injection Hr as <-.
  destruct (Hg m eq_refl) as [Hlen _].
  destruct (_extract_info_from_match_ok intent (Re.groups m) user_input Hlen)
    as [d ->].
  run. exists d. reflexivity.
Qed.

(** The pattern phase never raises, and an intent it finds is one of the
    table. *)
Lemma run_pairs_total pairs user_input :
  forallb (fun e => pattern_ok (snd e) (groups_read (fst e)) []) pairs = true ->
  exists r, run_pairs pairs user_input = inr r /\
    match r with
    | Some c => In (intent c) (map fst pairs) /\
                detection_method c = "pattern"
    | None => Forall (fun q => no_match (snd q) user_input) pairs
    end.
Proof.
  induction pairs as [|[i p] pairs IH]; cbn [forallb fst snd]; intros H.
  - exists None. split; [reflexivity|constructor].
  - apply andb_true_iff in H as [Hp Hps].
    destruct (search_ok p _ [] user_input Hp) as (r & Hr & Hg).
    destruct r as [m|].
    + destruct (run_pairs_hit i p pairs user_input Hp) as [d Hd].
      { exists m. exact Hr. }
      rewrite Hd. eexists. split; [reflexivity|]. cbn. split; [left|]; reflexivity.
    + destruct (IH Hps) as (r & E & Hr').
      exists r. cbn [run_pairs]. rewrite Hr. run. split; [exact E|].
      destruct r as [c|].
      * destruct Hr' as [Hin Hd]. split; [right; exact Hin|exact Hd].
      * constructor; [exact Hr|exact Hr'].
Qed.

(** ** Properties of the keyword phase *)

Lemma keyword_score_sum keywords user_input : forall score,
  (keyword_score keywords user_input (split user_input) score ==
   score + score_sum keywords user_input)%Q.
Proof.
  induction keywords as [|k rest IH]; intros score; cbn [keyword_score score_sum].
  - ring.
  - rewrite IH.
    destruct (contains k user_input), (mem k (split user_input));
      cbn [andb]; ring.
Qed.

Lemma max_entry_in entries : forall best,
  In (max_entry best entries) (best :: entries).
Proof.
  induction entries as [|e rest IH]; intros best; cbn [max_entry].
  - left. reflexivity.
  - specialize (IH (if Qlt_le_dec (snd best) (snd e) then e else best)).
    destruct (Qlt_le_dec (snd best) (snd e)); destruct IH as [IH|IH].
    + right. left. exact IH.
    + right. right. exact IH.
    + left. exact IH.
    + right. right. exact IH.
Qed.

Lemma max_entry_head entries : forall best,
  Forall (fun x => (snd x <= snd best)%Q) entries ->
  max_entry best entries = best.
Proof.
  induction entries as [|e rest IH]; intros best H; cbn [max_entry].
  - reflexivity.
  - inversion H as [|? ? He Hrest]; subst.
    destruct (Qlt_le_dec (snd best) (snd e)) as [Hlt|_].
    + exfalso. apply (Qlt_not_le _ _ Hlt). exact He.
    + apply IH, Hrest.
Qed.

(** [max_entry] returns the first of the entries with the greatest
    score. *)
Lemma max_entry_first before e after : forall best,
  Forall (fun x => (snd x < snd e)%Q) (best :: before) ->
  Forall (fun x => (snd x <= snd e)%Q) after ->
  max_entry best (before ++ e :: after) = e.
Proof.
  induction before as [|x before IH]; intros best Hb Ha; cbn [app max_entry].
  - inversion Hb as [|? ? Hbest _]; subst.
    destruct (Qlt_le_dec (snd best) (snd e)) as [_|Hle].
    + apply max_entry_head, Ha.
    + exfalso. apply (Qlt_not_le _ _ Hbest). exact Hle.
  - inversion Hb as [|? ? Hbest Hrest]; subst.
    inversion Hrest as [|? ? Hx Hbefore]; subst.
    apply IH; [|exact Ha].
    constructor; [|exact Hbefore].
    destruct (Qlt_le_dec (snd best) (snd x)); assumption.
Qed.

Lemma detect_by_keywords_in table user_input k :
  detect_by_keywords table user_input = Some k -> In k (map fst table).
Proof.
  unfold detect_by_keywords.
  set (f := fun e : string * list string =>
              (fst e, keyword_score (snd e) user_input (split user_input) 0)).
  destruct table as [|first rest]; cbn [map]; [discriminate|].
  destruct (Qlt_le_dec 0 (snd (max_entry (f first) (map f rest))));
    [|discriminate].
  intros E. injection E as <-.
  pose proof (max_entry_in (map f rest) (f first)) as Hin.
  change (f first :: map f rest) with (map f (first :: rest)) in Hin.
  apply in_map_iff in Hin as (e & <- & He).
  apply (in_map fst) in He. exact He.
Qed.

(** The first intent with the greatest score is detected when that
    score is positive. *)
Lemma detect_by_keywords_first before a keywords after user_input :
  Forall (fun e => (score_sum (snd e) user_input <
                    score_sum keywords user_input)%Q) before ->
  Forall (fun e => (score_sum (snd e) user_input <=
                    score_sum keywords user_input)%Q) after ->
  (0 < score_sum keywords user_input)%Q ->
  detect_by_keywords (before ++ (a, keywords) :: after) user_input = Some a.
Proof.
  intros Hb Ha Hpos. unfold detect_by_keywords.
  set (f := fun e : string * list string =>
              (fst e, keyword_score (snd e) user_input (split user_input) 0)).
  assert (Hf : forall e, (snd (f e) == score_sum (snd e) user_input)%Q).
  { intros e. unfold f. cbn [snd]. rewrite keyword_score_sum. ring. }
  assert (Hb' : Forall (fun x => (snd x < snd (f (a, keywords)))%Q)
                  (map f before)).
  { apply List.Forall_forall. intros x Hx.
    apply in_map_iff in Hx as (e & <- & He).
    rewrite List.Forall_forall in Hb. rewrite !Hf. apply Hb, He. }
  assert (Ha' : Forall (fun x => (snd x <= snd (f (a, keywords)))%Q)
                  (map f after)).
  { apply List.Forall_forall. intros x Hx.
    apply in_map_iff in Hx as (e & <- & He).
    rewrite List.Forall_forall in Ha. rewrite !Hf. apply Ha, He. }
  assert (Hmax : match map f (before ++ (a, keywords) :: after) with
                 | [] => None
                 | first :: rest => Some (max_entry first rest)
                 end = Some (f (a, keywords))).
  { rewrite map_app. cbn [map].
    destruct (map f before) as [|first rest] eqn:E; cbn [app].
    - rewrite max_entry_head by exact Ha'. reflexivity.
    - rewrite max_entry_first; [reflexivity|exact Hb'|exact Ha']. }
  destruct (map f (before ++ (a, keywords) :: after)) as [|first rest];
    [discriminate|].
  injection Hmax as ->.
  destruct (Qlt_le_dec 0 (snd (f (a, keywords)))) as [_|Hle].
  - reflexivity.
  - exfalso. rewrite Hf in Hle. cbn [snd] in Hle.
    apply (Qlt_not_le _ _ Hpos). exact Hle.
Qed.

(** No intent is detected when no score is positive. *)
Lemma detect_by_keywords_none table user_input :
  Forall (fun e => (score_sum (snd e) user_input <= 0)%Q) table ->
  detect_by_keywords table user_input = None.
Proof.
  intros H. unfold detect_by_keywords.
  set (f := fun e : string * list string =>
              (fst e, keyword_score (snd e) user_input (split user_input) 0)).
  destruct table as [|first rest]; cbn [map]; [reflexivity|].
  destruct (Qlt_le_dec 0 (snd (max_entry (f first) (map f rest))))
    as [Hlt|_]; [|reflexivity].
  exfalso.
  pose proof (max_entry_in (map f rest) (f first)) as Hin.
  change (f first :: map f rest) with (map f (first :: rest)) in Hin.
  apply in_map_iff in Hin as (e & E & He).
  rewrite <- E in Hlt. unfold f in Hlt. cbn [snd] in Hlt.
  rewrite keyword_score_sum in Hlt.
  rewrite List.Forall_forall in H. specialize (H e He).
  apply (Qlt_not_le _ _ Hlt). rewrite Qplus_0_l. exact H.
Qed.

(** The patterns of the keyword mode compile, and the groups it reads
    are captured by every match. *)
Lemma keyword_patterns_ok :
  forallb (fun p => pattern_ok p 1 [1]) [
    "(?:in|at|for)\s+([a-zA-Z\s]+?)(?:\s|$)";
    "weather\s+(?:in|at|for)\s+([a-zA-Z\s]+?)(?:\s|$)"
  ] = true /\
  forallb (fun p => pattern_ok p 1 [1]) date_patterns = true /\
  pattern_ok "\b[A-Z][a-z]+(?:\s+[A-Z][a-z]+)*\b" 0 [] = true /\
  pattern_ok
    "(?:from|departing)\s+([a-zA-Z\s]+?)\s+(?:to|arriving at)\s+([a-zA-Z\s]+?)(?:\s|$)"
    2 [1; 2] = true /\
  pattern_ok "\b[A-Za-z0-9._%+-]+@[A-Za-z0-9.-]+\.[A-Z|a-z]{2,}\b" 0 [] = true /\
  pattern_ok "(?:about|regarding|subject)\s+([a-zA-Z\s]+?)(?:\s|$)" 1 [1] = true /\
  pattern_ok "(?:with|meeting with)\s+([a-zA-Z\s]+?)(?:\s|$)" 1 [1] = true.
Proof. vm_compute. repeat split. Qed.

(** The part of the keyword mode that reads a date. *)
Lemma date_ok user_input (extracted : gmap string value) :
  exists d,
    (d <- first_match date_patterns user_input ;;
     match d with
     | Some mo =>
         date <- group_strip mo 1 ;;
         ret (<["date" := VStr date]> extracted)
     | None => ret extracted
     end) = inr d.
Proof.
  destruct keyword_patterns_ok as (_ & Hd & _).
  destruct (first_match_ok date_patterns user_input Hd) as (r & -> & Hg).
  run. destruct r as [mo|].
  - destruct (Hg mo eq_refl) as [s Hs].
    rewrite (group_strip_ok mo 1 s Hs). run. eexists. reflexivity.
  - eexists. reflexivity.
Qed.

(** The keyword mode of the extraction does not raise. *)
Lemma _extract_info_by_keywords_ok intent user_input :
  exists d, _extract_info_by_keywords intent user_input = inr d.
Proof.
  destruct keyword_patterns_ok as (Hw & Hd & Hcap & Hft & Hmail & Hsubj & Hwith).
  unfold _extract_info_by_keywords.
  destruct (String.eqb intent "calculate").
  { destruct (findall_ok NUMBER user_input NUMBER_ok) as [l ->]. run.
    eexists. reflexivity. }
  destruct (String.eqb intent "weather").
  { match goal with
    | |- context [first_match ?ps user_input] =>
        destruct (first_match_ok ps user_input Hw) as (r & -> & Hg)
    end.
    run. destruct r as [mo|].
    - destruct (Hg mo eq_refl) as [s Hs].
      rewrite (group_strip_ok mo 1 s Hs). run. eexists. reflexivity.
    - match goal with
      | |- context [Re.findall ?p user_input] =>
          destruct (findall_ok p user_input Hcap) as [l ->]
      end.
      run. destruct l; eexists; reflexivity. }
  destruct (String.eqb intent "book_flight").
  { match goal with
    | |- context [Re.search ?p user_input] =>
        destruct (search_ok p 2 [1; 2] user_input Hft) as (r & -> & Hg)
    end.
    run. destruct r as [mo|].
    - destruct (Hg mo eq_refl) as [_ Hs].
      destruct (Hs 1) as [s1 H1]; [left; reflexivity|].
      destruct (Hs 2) as [s2 H2]; [right; left; reflexivity|].
      rewrite (group_strip_ok mo 1 s1 H1). run.
      rewrite (group_strip_ok mo 2 s2 H2). run.
      apply date_ok.
    - run. apply date_ok. }
  destruct (String.eqb intent "send_email").
  { match goal with
    | |- context [Re.findall ?p user_input] =>
        destruct (findall_ok p user_input Hmail) as [l ->]
    end.
    run.
    match goal with
    | |- context [Re.search ?p user_input] =>
        destruct (search_ok p 1 [1] user_input Hsubj) as (r & -> & Hg)
    end.
    run. destruct r as [mo|].
    - destruct (Hg mo eq_refl) as [_ Hs].
      destruct (Hs 1) as [s1 H1]; [left; reflexivity|].
      rewrite (group_strip_ok mo 1 s1 H1). run. eexists. reflexivity.
    - eexists. reflexivity. }
  destruct (String.eqb intent "search").
  { eexists. reflexivity. }
  destruct (String.eqb intent "schedule_meeting").
  { match goal with
    | |- context [Re.search ?p user_input] =>
        destruct (search_ok p 1 [1] user_input Hwith) as (r & -> & Hg)
    end.
    run. destruct r as [mo|].
    - destruct (Hg mo eq_refl) as [_ Hs].
      destruct (Hs 1) as [s1 H1]; [left; reflexivity|].
      rewrite (group_strip_ok mo 1 s1 H1). run.
      apply date_ok.
    - run. apply date_ok. }
  eexists. reflexivity.
Qed.

(** ** Properties of the classifier *)

Lemma declared_pairs_intents table i :
  In i (map fst (declared_pairs table)) -> In i (map fst table).
Proof.
  induction table as [|[a ps] rest IH];
    cbn [declared_pairs flat_map map fst snd]; [tauto|].
  rewrite map_app, in_app_iff, map_map. cbn [fst].
  intros [H|H].
  - left. apply in_map_iff in H as (p & <- & _). reflexivity.
  - right. apply IH, H.
Qed.

Lemma pattern_intents : map fst intent_patterns = intents.
Proof. vm_compute. reflexivity. Qed.

Lemma keyword_intents : map fst intent_keywords = intents.
Proof. vm_compute. reflexivity. Qed.

Lemma search_is_intent : In "search" intents.
Proof. unfold intents. cbn [In]. tauto. Qed.

Lemma pattern_phase_intent (c : Classification) :
  In (intent c) (map fst (declared_pairs intent_patterns)) ->
  In (intent c) intents.
Proof.
  intros H. apply declared_pairs_intents in H.
  rewrite pattern_intents in H. exact H.
Qed.

Lemma keyword_phase_intent user_input k :
  _detect_intent_by_keywords user_input = Some k -> In k intents.
Proof.
  unfold _detect_intent_by_keywords. intros H.
  apply detect_by_keywords_in in H. rewrite keyword_intents in H. exact H.
Qed.

(** [parse_intent] does not raise, and its intent is one of the six. *)
Lemma parse_intent_total user_input :
  exists c, parse_intent user_input = inr c /\ In (intent c) intents.
Proof.
  unfold parse_intent. rewrite match_intents_run.
  destruct (run_pairs_total (declared_pairs intent_patterns)
              (strip (lower user_input)) intent_patterns_ok)
    as (r & -> & Hr).
  run. destruct r as [c|].
  - exists c. split; [reflexivity|].
    apply pattern_phase_intent, Hr.
  - destruct (_detect_intent_by_keywords (strip (lower user_input)))
      as [k|] eqn:Hk.
    + destruct (String.eqb k "").
      * eexists. split; [reflexivity|]. exact search_is_intent.
      * destruct (_extract_info_by_keywords_ok k (strip (lower user_input)))
          as [d ->].
        run. eexists. split; [reflexivity|].
        exact (keyword_phase_intent _ k Hk).
    + eexists. split; [reflexivity|]. exact search_is_intent.
Qed.

(** Every intent has an endpoint. *)
Lemma endpoint_of_intent i :
  In i intents -> exists endpoint, api_endpoints !! i = Some endpoint.
Proof.
  intros H. unfold intents in H. cbn [In] in H.
  repeat (destruct H as [<-|H]; [eexists; vm_compute; reflexivity|]).
  destruct H.
Qed.

(** ** Properties of the whole pipeline *)

Lemma not_matches_no_match p n text :
  pattern_ok p n [] = true -> ~ matches p text -> no_match p text.
Proof.
  intros Hok Hn. destruct (search_ok p n [] text Hok) as (r & Hr & _).
  unfold no_match. rewrite Hr. destruct r as [m|]; [|reflexivity].
  exfalso. apply Hn. exists m. exact Hr.
Qed.

Lemma Forall_checked {A} (f : A -> bool) (P Q : A -> Prop) l :
  (forall x, f x = true -> P x -> Q x) ->
  forallb f l = true -> Forall P l -> Forall Q l.
Proof.
  intros Himp Hf H. induction H as [|x l Hx _ IH]; [constructor|].
  cbn [forallb] in Hf. apply andb_true_iff in Hf as [Hfx Hf].
  constructor; [apply Himp; assumption|apply IH, Hf].
Qed.

Lemma pairs_no_match pairs text :
  forallb (fun e => pattern_ok (snd e) (groups_read (fst e)) []) pairs = true ->
  Forall (fun q => ~ matches (snd q) text) pairs ->
  Forall (fun q => no_match (snd q) text) pairs.
Proof.
  apply Forall_checked. intros q Hq Hn.
  exact (not_matches_no_match _ _ _ Hq Hn).
Qed.

Lemma intent_not_empty i : In i intents -> String.eqb i "" = false.
Proof.
  unfold intents. cbn [In]. intros H.
  repeat (destruct H as [<-|H]; [reflexivity|]). destruct H.
Qed.

(** What [process_input] returns: it never raises; it asks for the
    missing fields when there are some, and calls the endpoint of the
    intent when there are none. *)
Lemma process_input_shape libm_pow complex_pow_overflows user_input :
  exists r,
    process_input libm_pow complex_pow_overflows user_input = inr r /\
    In (intent (intent_analysis r)) intents /\
    ((missing_info r <> [] /\
      action_taken r = "ask_for_info" /\
      exists response,
        result r =
        AskForInfo response (missing_info r) (intent (intent_analysis r))) \/
     (missing_info r = [] /\
      action_taken r = "call_api" /\
      exists endpoint,
        api_endpoints !! intent (intent_analysis r) = Some endpoint /\
        result r =
        _call_api libm_pow complex_pow_overflows endpoint
          (extracted_info (intent_analysis r)))).
Proof.
  unfold process_input.
  destruct (parse_intent_total user_input) as (c & -> & Hc). run.
  unfold decide_action.
  destruct (check_missing_info (intent c) (extracted_info c))
    as [|f fs] eqn:Hm.
  - destruct (endpoint_of_intent _ Hc) as [endpoint He]. rewrite He.
    cbn [execute_action]. run. eexists. split; [reflexivity|].
    cbn [intent_analysis missing_info action_taken result action_value].
    split; [exact Hc|]. right. split; [reflexivity|]. split; [reflexivity|].
    exists endpoint. split; [exact He|reflexivity].
  - cbn [execute_action]. run. eexists. split; [reflexivity|].
    cbn [intent_analysis missing_info action_taken result action_value].
    split; [exact Hc|]. left. split; [discriminate|].
    split; [reflexivity|]. eexists. reflexivity.
Qed.

(** C1. [process_input("calculate 15 plus 27")] finds the intent
    "calculate" by a pattern with confidence 0.9, takes the action
    "call_api", and the calculator answers with the status "success" and
    the text "15.0 + 27.0 = 42". *)
Theorem calculate_15_plus_27 libm_pow complex_pow_overflows :
  exists r,
    process_input libm_pow complex_pow_overflows "calculate 15 plus 27"
      = inr r /\
    intent (intent_analysis r) = "calculate" /\
    detection_method (intent_analysis r) = "pattern" /\
    confidence (intent_analysis r) = 9 # 10 /\
    action_taken r = "call_api" /\
    status (result r) = Some "success" /\
    result_text (result r) = Some "15.0 + 27.0 = 42".
Proof.
  eexists. split; [vm_compute; reflexivity|].
  repeat split.
Qed.

(** C6. Priority of the pattern phase: when the first pair (intent,
    pattern) of the table, in the order of declaration, whose pattern
    matches the normalized input belongs to the intent [A], the
    classifier returns [A] with confidence 0.9 and the detection method
    "pattern", whatever the later pairs match. *)
Theorem pattern_priority (U A p : string) (before after : list (string * string)) :
  declared_pairs intent_patterns = before ++ (A, p) :: after ->
  Forall (fun q => ~ matches (snd q) (normalize U)) before ->
  matches p (normalize U) ->
  exists c,
    parse_intent U = inr c /\
    intent c = A /\
    confidence c = 9 # 10 /\
    detection_method c = "pattern".
Proof.
  intros Hd Hb Hp.
  pose proof intent_patterns_ok as Hok. rewrite Hd in Hok.
  rewrite forallb_forall in Hok.
  assert (Hokb : forallb
            (fun e => pattern_ok (snd e) (groups_read (fst e)) []) before
            = true).
  { apply forallb_forall. intros q Hq. apply Hok, in_or_app. left. exact Hq. }
  assert (Hokp : pattern_ok p (groups_read A) [] = true).
  { apply (Hok (A, p)), in_elt. }
  unfold parse_intent. fold (normalize U).
  rewrite match_intents_run, Hd.
  rewrite run_pairs_skip by (apply pairs_no_match; assumption).
  destruct (run_pairs_hit A p after (normalize U) Hokp Hp) as [info ->].
  run. eexists. split; [reflexivity|]. repeat split.
Qed.

Lemma pattern_priority_witness :
  exists c,
    parse_intent "What is 2 plus 3" = inr c /\
    intent c = "calculate" /\
    confidence c = 9 # 10 /\
    detection_method c = "pattern".
Proof.
  apply (pattern_priority "What is 2 plus 3" "calculate"
           "(?:what is|what's)\s+(.+?)\s+(?:plus|minus|times|divided by)\s+(.+)"
           (firstn 1 (declared_pairs intent_patterns))
           (skipn 2 (declared_pairs intent_patterns))).
  - vm_compute. reflexivity.
  - constructor; [|constructor].
    intros [m Hm]. vm_compute in Hm. discriminate Hm.
  - eexists. vm_compute. reflexivity.
Defined.

Lemma no_match_checked pairs text :
  forallb (fun q => match Re.search (snd q) text with
                    | inr None => true
                    | _ => false
                    end) pairs = true ->
  Forall (fun q : string * string => ~ matches (snd q) text) pairs.
Proof.
  intros H. rewrite forallb_forall in H. apply List.Forall_forall.
  intros q Hq [m Hm]. specialize (H q Hq). rewrite Hm in H. discriminate H.
Qed.

(** *** The score of an intent

    The occurrence of a keyword and the words of a text are stated on
    the text itself; the lemmas below show that [k in s] and
    [k in s.split()] decide them. *)

Lemma starts_chars_prefix p : forall l,
  starts_chars p l = true <-> exists b, l = p ++ b.
Proof.
  induction p as [|a p IH]; intros l; cbn [starts_chars app].
  - split; [intros _; exists l; reflexivity|reflexivity].
  - destruct l as [|b l].
    + split; [discriminate|]. intros [t Ht]. discriminate Ht.
    + rewrite andb_true_iff, Ascii.eqb_eq, IH. split.
      * intros [-> [t ->]]. exists t. reflexivity.
      * intros [t Ht]. injection Ht as -> ->. split; [reflexivity|].
        exists t. reflexivity.
Qed.

Lemma contains_chars_occurs p : forall l,
  contains_chars p l = true <-> exists a b, l = a ++ p ++ b.
Proof.
  induction l as [|c l IH]; cbn [contains_chars];
    rewrite orb_true_iff, starts_chars_prefix.
  - split.
    + intros [[b Hb]|H]; [|discriminate H]. exists [], b. exact Hb.
    + intros (a & b & H). left. destruct a as [|x a]; [|discriminate H].
      exists b. exact H.
  - rewrite IH. split.
    + intros [[b Hb]|(a & b & ->)].
      * exists [], b. exact Hb.
      * exists (c :: a), b. reflexivity.
    + intros (a & b & H). destruct a as [|x a].
      * left. exists b. exact H.
      * right. injection H as -> ->. exists a, b. reflexivity.
Qed.

(** [k in s] is the occurrence of [k] in [s]. *)
Lemma contains_occurs k s : contains k s = true <-> occurs k s.
Proof. apply contains_chars_occurs. Qed.

Lemma delimiter_last_cons x a :
  delimiter (last (x :: a)) -> delimiter (last a).
Proof.
  rewrite last_cons. destruct (last a); [trivial|intros _; exact I].
Qed.

(** A word at the start of a text ends where the whitespace begins. *)
Lemma word_at_start c l : forall u w b,
  Forall (fun c => isspace c = false) u ->
  Forall (fun c => isspace c = false) w ->
  isspace c = true ->
  u ++ c :: l = w ++ b -> delimiter (head b) -> w = u.
Proof.
  induction u as [|x u IH]; intros w b Hu Hw Hc E Hb.
  - destruct w as [|y w]; [reflexivity|].
    cbn [app] in E. injection E as <- _.
    inversion Hw as [|? ? Hy _]. rewrite Hc in Hy. discriminate Hy.
  - inversion Hu as [|? ? Hx Hu']. subst.
    destruct w as [|y w].
    + cbn [app] in E. subst b. cbn in Hb. rewrite Hx in Hb. discriminate Hb.
    + cbn [app] in E. injection E as <- E.
      inversion Hw as [|? ? _ Hw']. subst.
      f_equal. eapply IH; eassumption.
Qed.

(** A word of a text that begins with a run [u] without whitespace and a
    whitespace character is that run, or a word of the rest. *)
Lemma word_after c l w b : forall u a,
  Forall (fun c => isspace c = false) u ->
  isspace c = true ->
  u ++ c :: l = a ++ w ++ b ->
  w <> [] -> Forall (fun c => isspace c = false) w ->
  delimiter (last a) -> delimiter (head b) ->
  (a = [] /\ w = u) \/
  (exists a', l = a' ++ w ++ b /\ delimiter (last a')).
Proof.
  induction u as [|x u IH]; intros a Hu Hc E Hne Hw Ha Hb.
  - destruct a as [|y a].
    + destruct w as [|y w]; [contradiction|].
      cbn [app] in E. injection E as <- _.
      inversion Hw as [|? ? Hy _]. rewrite Hc in Hy. discriminate Hy.
    + cbn [app] in E. injection E as <- E. right. exists a.
      split; [exact E|]. eapply delimiter_last_cons, Ha.
  - inversion Hu as [|? ? Hx Hu']. subst.
    destruct a as [|y a].
    + left. split; [reflexivity|].
      eapply (word_at_start c l (x :: u) w b); eassumption.
    + cbn [app] in E. injection E as <- E.
      destruct a as [|z a].
      * cbn in Ha. rewrite Hx in Ha. discriminate Ha.
      * apply delimiter_last_cons in Ha.
        destruct (IH (z :: a) Hu' Hc E Hne Hw Ha Hb) as [[Ea _]|H].
        -- discriminate Ea.
        -- right. exact H.
Qed.

(** A text without whitespace has one word, itself, unless it is
    empty. *)
Lemma token_of_run u w :
  Forall (fun c => isspace c = false) u ->
  token w u <-> (u <> [] /\ w = u).
Proof.
  intros Hu. split.
  - intros (Hne & Hw & a & b & E & Ha & Hb).
    assert (Ea : a = []).
    { destruct (last a) as [c|] eqn:El.
      - exfalso. apply last_Some in El as [a' ->].
        rewrite List.Forall_forall in Hu.
        assert (Hc : isspace c = false).
        { apply Hu. rewrite E, !in_app_iff. left. right. left. reflexivity. }
        cbn in Ha. rewrite Hc in Ha. discriminate Ha.
      - destruct a as [|x a]; [reflexivity|].
        rewrite last_cons in El. destruct (last a); discriminate El. }
    assert (Eb : b = []).
    { destruct b as [|c b]; [reflexivity|]. exfalso.
      rewrite List.Forall_forall in Hu.
      assert (Hc : isspace c = false).
      { apply Hu. rewrite E, !in_app_iff. right. right. left. reflexivity. }
      cbn in Hb. rewrite Hc in Hb. discriminate Hb. }
    subst a b. rewrite app_nil_r in E. cbn [app] in E. subst u.
    split; [exact Hne|reflexivity].
  - intros [Hne ->]. split; [exact Hne|]. split; [exact Hu|].
    exists [], []. rewrite app_nil_r. repeat split.
Qed.

Lemma token_after u c l w :
  Forall (fun c => isspace c = false) u ->
  isspace c = true ->
  token w (u ++ c :: l) <-> ((u <> [] /\ w = u) \/ token w l).
Proof.
  intros Hu Hc. split.
  - intros (Hne & Hw & a & b & E & Ha & Hb).
    destruct (word_after c l w b u a Hu Hc E Hne Hw Ha Hb)
      as [[_ ->]|(a' & E' & Ha')].
    + left. split; [exact Hne|reflexivity].
    + right. split; [exact Hne|]. split; [exact Hw|].
      exists a', b. repeat split; assumption.
  - intros [[Hne ->]|(Hne & Hw & a & b & -> & Ha & Hb)].
    + split; [exact Hne|]. split; [exact Hu|].
      exists [], (c :: l). repeat split. exact Hc.
    + split; [exact Hne|]. split; [exact Hw|].
      exists (u ++ c :: a), b. split; [|split; [|exact Hb]].
      * rewrite <- app_assoc. reflexivity.
      * rewrite last_app_cons, last_cons.
        destruct (last a); [exact Ha|exact Hc].
Qed.

(** [split_chars] lists the words of the text: those of [l] when the
    run [cur] read so far is put back in front of it. *)
Lemma split_chars_words : forall l cur w,
  Forall (fun c => isspace c = false) cur ->
  In w (split_chars l cur) <-> token w (rev cur ++ l).
Proof.
  induction l as [|c l IH]; intros cur w Hcur.
  - rewrite app_nil_r, token_of_run by (apply Forall_rev; exact Hcur).
    cbn [split_chars]. destruct cur as [|x cur].
    + split; [intros []|intros [H _]; apply H; reflexivity].
    + cbn [In]. split.
      * intros [<-|[]]. split; [|reflexivity].
        cbn [rev]. intros H. apply app_eq_nil in H as [_ H]. discriminate H.
      * intros [_ ->]. left. reflexivity.
  - cbn [split_chars]. destruct (isspace c) eqn:Hc.
    + rewrite token_after by (try apply Forall_rev; assumption).
      rewrite <- (IH [] w) by constructor.
      destruct cur as [|x cur].
      * split; [intros H; right; exact H|].
        intros [[H _]|H]; [exfalso; apply H; reflexivity|exact H].
      * cbn [In]. split.
        -- intros [<-|H]; [|right; exact H]. left. split; [|reflexivity].
           cbn [rev]. intros H. apply app_eq_nil in H as [_ H].
           discriminate H.
        -- intros [[_ ->]|H]; [left; reflexivity|right; exact H].
    + rewrite IH by (constructor; assumption).
      cbn [rev]. rewrite <- app_assoc. reflexivity.
Qed.

(** [k in s.split()] tells whether [k] is one of the words of [s]. *)
Lemma mem_split_word k s : mem k (split s) = true <-> word_of k s.
Proof.
  unfold mem, split, word_of.
  rewrite existsb_exists. split.
  - intros (x & Hx & E). apply String.eqb_eq in E. subst x.
    apply in_map_iff in Hx as (w & Ew & Hw).
    apply split_chars_words in Hw; [|constructor]. cbn [rev app] in Hw.
    assert (E : chars k = w).
    { rewrite <- Ew. apply list_ascii_of_string_of_list_ascii. }
    rewrite E. exact Hw.
  - intros H. exists k. split; [|apply String.eqb_refl].
    apply in_map_iff. exists (chars k).
    split; [apply string_of_list_ascii_of_string|].
    apply split_chars_words; [constructor|]. exact H.
Qed.

(** The points the loop of [_detect_intent_by_keywords] gives to one
    keyword. *)
Lemma points_of_keyword u k p :
  points u k p ->
  (p == (if contains k u then 1 else 0) +
        (if (contains k u && mem k (split u))%bool then 1 # 2 else 0))%Q.
Proof.
  intros [(Ho & ->)|[(Ho & Hw & ->)|(Ho & Hw & ->)]].
  - destruct (contains k u) eqn:E; [|reflexivity].
    exfalso. apply Ho, contains_occurs, E.
  - apply contains_occurs in Ho. rewrite Ho.
    destruct (mem k (split u)) eqn:E; [|reflexivity].
    exfalso. apply Hw, mem_split_word, E.
  - apply contains_occurs in Ho. apply mem_split_word in Hw.
    rewrite Ho, Hw. reflexivity.
Qed.

Lemma keyword_points u k :
  points u k
    ((if contains k u then 1 else 0) +
     (if (contains k u && mem k (split u))%bool then 1 # 2 else 0))%Q.
Proof.
  unfold points.
  destruct (contains k u) eqn:Ec.
  - apply contains_occurs in Ec.
    destruct (mem k (split u)) eqn:Em; cbn [andb].
    + right. right. apply mem_split_word in Em.
      split; [exact Ec|]. split; [exact Em|reflexivity].
    + right. left. split; [exact Ec|]. split; [|reflexivity].
      intros H. apply mem_split_word in H. rewrite H in Em. discriminate Em.
  - left. split; [|reflexivity].
    intros H. apply contains_occurs in H. rewrite H in Ec. discriminate Ec.
Qed.

(** The score of an intent is the one [score_sum] computes. *)
Lemma scores_score_sum u keywords : forall q,
  scores u keywords q -> (q == score_sum keywords u)%Q.
Proof.
  induction keywords as [|k rest IH]; intros q; cbn [scores score_sum].
  - trivial.
  - intros (p & q' & Hp & Hq & ->).
    rewrite (points_of_keyword u k p Hp), (IH q' Hq). reflexivity.
Qed.

Lemma score_sum_scores u keywords : scores u keywords (score_sum keywords u).
Proof.
  induction keywords as [|k rest IH]; cbn [scores score_sum].
  - reflexivity.
  - eexists _, _. split; [apply keyword_points|].
    split; [exact IH|reflexivity].
Qed.

(** C7. Keyword phase, for an input of ASCII characters that no pattern
    matches. Each intent scores, for each of its keywords, one point
    when the keyword occurs in the normalized input and half a point more
    when it also is one of its words, the tokens that whitespace
    delimits. The first intent of the table with the greatest score is
    returned with confidence 0.7 and the method "keywords" when that
    score is positive; when no score is positive the classifier returns
    "search" with confidence 0.3, the method "default" and the whole
    normalized input as the query. *)
Theorem keyword_phase (U : string) (score : list string -> Q) :
  ascii_text U ->
  Forall (fun q => ~ matches (snd q) (normalize U))
    (declared_pairs intent_patterns) ->
  (forall e, In e intent_keywords ->
             scores (normalize U) (snd e) (score (snd e))) ->
  (forall before A keywords after,
     intent_keywords = before ++ (A, keywords) :: after ->
     Forall (fun e => (score (snd e) < score keywords)%Q) before ->
     Forall (fun e => (score (snd e) <= score keywords)%Q) after ->
     (0 < score keywords)%Q ->
     exists c,
       parse_intent U = inr c /\
       intent c = A /\
       confidence c = 7 # 10 /\
       detection_method c = "keywords") /\
  (Forall (fun e => (score (snd e) <= 0)%Q) intent_keywords ->
   parse_intent U =
   inr {| intent := "search";
          confidence := 3 # 10;
          extracted_info := <["query" := VStr (normalize U)]> ∅;
          raw_input := normalize U;
          detection_method := "default" |}).
Proof.
  intros _ Hno Hscore.
  assert (Hnone : match_intents intent_patterns (normalize U) = inr None).
  { rewrite match_intents_run. apply run_pairs_none, pairs_no_match.
    - exact intent_patterns_ok.
    - exact Hno. }
  assert (Hsum : forall e, In e intent_keywords ->
    (score (snd e) == score_sum (snd e) (normalize U))%Q).
  { intros e He. apply scores_score_sum, Hscore, He. }
  split.
  - intros before A keywords after Hd Hb Ha Hpos.
    assert (HA : String.eqb A "" = false).
    { apply intent_not_empty. rewrite <- keyword_intents, Hd.
      rewrite map_app. apply in_or_app. right. left. reflexivity. }
    assert (Hk : (score keywords == score_sum keywords (normalize U))%Q).
    { apply (Hsum (A, keywords)). rewrite Hd.
      apply in_or_app. right. left. reflexivity. }
    assert (Hb' : Forall (fun e => (score_sum (snd e) (normalize U) <
                          score_sum keywords (normalize U))%Q) before).
    { apply List.Forall_forall. intros e He.
      rewrite List.Forall_forall in Hb.
      rewrite <- Hk, <- (Hsum e); [apply Hb, He|].
      rewrite Hd. apply in_or_app. left. exact He. }
    assert (Ha' : Forall (fun e => (score_sum (snd e) (normalize U) <=
                          score_sum keywords (normalize U))%Q) after).
    { apply List.Forall_forall. intros e He.
      rewrite List.Forall_forall in Ha.
      rewrite <- Hk, <- (Hsum e); [apply Ha, He|].
      rewrite Hd. apply in_or_app. right. right. exact He. }
    rewrite Hk in Hpos.
    unfold parse_intent. fold (normalize U). rewrite Hnone. run.
    unfold _detect_intent_by_keywords. rewrite Hd.
    rewrite detect_by_keywords_first by assumption. rewrite HA.
    destruct (_extract_info_by_keywords_ok A (normalize U)) as [d ->].
    run. eexists. split; [reflexivity|]. repeat split.
  - intros Hall. unfold parse_intent. fold (normalize U). rewrite Hnone. run.
    unfold _detect_intent_by_keywords.
    rewrite detect_by_keywords_none; [reflexivity|].
    apply List.Forall_forall. intros e He.
    rewrite List.Forall_forall in Hall.
    rewrite <- (Hsum e He). apply Hall, He.
Qed.

Lemma keyword_phase_witness :
  (exists c,
     parse_intent "Hot addition" = inr c /\
     intent c = "weather" /\
     confidence c = 7 # 10 /\
     detection_method c = "keywords") /\
  parse_intent " Hello there" =
  inr {| intent := "search";
         confidence := 3 # 10;
         extracted_info := <["query" := VStr "hello there"]> ∅;
         raw_input := "hello there";
         detection_method := "default" |}.
Proof.
  split.
  - assert (Hno : Forall
              (fun q => ~ matches (snd q) (normalize "Hot addition"))
              (declared_pairs intent_patterns)).
    { apply no_match_checked. vm_compute. reflexivity. }
    destruct (keyword_phase "Hot addition"
                (fun keywords => score_sum keywords "hot addition")
                eq_refl Hno) as [Hhit _].
    { intros e _. apply score_sum_scores. }
    apply (Hhit (firstn 1 intent_keywords) "weather"
             ["weather"; "temperature"; "forecast"; "rain"; "snow";
              "sunny"; "cloudy"; "hot"; "cold"]
             (skipn 2 intent_keywords)).
    + reflexivity.
    + repeat constructor.
    + repeat constructor; vm_compute; discriminate.
    + vm_compute. reflexivity.
  - assert (Hno : Forall
              (fun q => ~ matches (snd q) (normalize " Hello there"))
              (declared_pairs intent_patterns)).
    { apply no_match_checked. vm_compute. reflexivity. }
    destruct (keyword_phase " Hello there"
                (fun keywords => score_sum keywords "hello there")
                eq_refl Hno) as [_ Hdefault].
    { intros e _. apply score_sum_scores. }
    apply Hdefault.
    repeat constructor; vm_compute; discriminate.
Defined.

Lemma missing_loop_filter required slots : forall missing,
  missing_loop required slots missing =
  missing ++ List.filter (is_missing slots) required.
Proof.
  induction required as [|field rest IH]; intros missing;
    cbn [missing_loop List.filter].
  - rewrite app_nil_r. reflexivity.
  - rewrite IH. unfold is_missing at 2.
    destruct (slots !! field) as [[s|[|x l]]|]; cbn [falsy].
    + destruct (String.eqb s ""); [rewrite <- app_assoc|]; reflexivity.
    + rewrite <- app_assoc. reflexivity.
    + reflexivity.
    + rewrite <- app_assoc. reflexivity.
Qed.

(** C8. The completeness check returns exactly the required fields of
    the intent that are absent from the slots, an empty string or an
    empty list, in the order in which the intent declares them; for an
    intent that is not in the schema it returns the empty list. *)
Theorem missing_fields_exact (I : string) (S : gmap string value) :
  check_missing_info I S =
  match required_fields !! I with
  | Some required => List.filter (is_missing S) required
  | None => []
  end /\
  forall field,
    In field (check_missing_info I S) <->
    In field (default [] (required_fields !! I)) /\
    (S !! field = None \/ S !! field = Some (VStr "") \/
     S !! field = Some (VList [])).
Proof.
  assert (E : check_missing_info I S =
              match required_fields !! I with
              | Some required => List.filter (is_missing S) required
              | None => []
              end).
  { unfold check_missing_info. destruct (required_fields !! I); [|reflexivity].
    apply missing_loop_filter. }
  split; [exact E|].
  intros field. rewrite E.
  destruct (required_fields !! I) as [required|]; cbn [default].
  - rewrite filter_In. unfold is_missing.
    destruct (S !! field) as [[s|[|x l]]|].
    + rewrite String.eqb_eq. split.
      * intros [H ->]. split; [exact H|]. right. left. reflexivity.
      * intros [H [E'|[E'|E']]]; try discriminate E'.
        injection E' as ->. split; [exact H|reflexivity].
    + split.
      * intros [H _]. split; [exact H|]. right. right. reflexivity.
      * intros [H _]. split; [exact H|reflexivity].
    + split.
      * intros [_ H]. discriminate H.
      * intros [_ [E'|[E'|E']]]; discriminate E'.
    + split.
      * intros [H _]. split; [exact H|]. left. reflexivity.
      * intros [H _]. split; [exact H|reflexivity].
  - cbn [In]. tauto.
Qed.

(** ** Properties of the execution *)

(** [_calculate_result] catches what its computation raises. *)
Lemma _calculate_result_total libm_pow complex_pow_overflows data :
  exists text,
    _calculate_result libm_pow complex_pow_overflows data = inr text.
Proof.
  unfold _calculate_result.
  repeat match goal with
         | |- context [if ?b then _ else _] => destruct b
         end; try (eexists; reflexivity).
  all: match goal with
       | |- context [calculate ?a ?b ?c ?d] =>
           destruct (calculate a b c d) as [[]|]
       end; eexists; reflexivity.
Qed.

(** The calculator endpoint answers with a success or with a
    calculation error. *)
Lemma _call_calculator_api_shape libm_pow complex_pow_overflows data :
  exists text,
    _calculate_result libm_pow complex_pow_overflows data = inr text /\
    (_call_calculator_api libm_pow complex_pow_overflows data =
     ApiResponse "calculator" text "success" None (Some data) \/
     _call_calculator_api libm_pow complex_pow_overflows data =
     ApiResponse "calculator" text "error" (Some "calculation_error")
       (Some data)).
Proof.
  destruct (_calculate_result_total libm_pow complex_pow_overflows data)
    as [text H].
  exists text. split; [exact H|].
  unfold _call_calculator_api. rewrite H.
  destruct (startswith text "Error:"); [right|left]; reflexivity.
Qed.

(** The other endpoints answer with a success. *)
Lemma api_responses_success data endpoint r :
  api_responses data !! endpoint = Some r ->
  exists e text, r = ApiResponse e text "success" None None.
Proof.
  unfold api_responses, list_to_map. cbn [foldr fst snd].
  repeat (rewrite lookup_insert; case_decide;
          [intros E; injection E as <-; eexists _, _; reflexivity|]).
  rewrite lookup_empty. discriminate.
Qed.

Lemma _call_api_shape libm_pow complex_pow_overflows endpoint data :
  (exists e text d,
     _call_api libm_pow complex_pow_overflows endpoint data =
     ApiResponse e text "success" None d) \/
  (exists text,
     _call_api libm_pow complex_pow_overflows endpoint data =
     ApiResponse "calculator" text "error" (Some "calculation_error")
       (Some data)).
Proof.
  unfold _call_api. destruct (String.eqb endpoint "calculator_api").
  - destruct (_call_calculator_api_shape libm_pow complex_pow_overflows data)
      as (text & _ & [H|H]); rewrite H.
    + left. eexists _, _, _. reflexivity.
    + right. eexists. reflexivity.
  - left. destruct (api_responses data !! endpoint) as [r|] eqn:E.
    + apply api_responses_success in E as (e & text & ->).
      eexists _, _, _. reflexivity.
    + eexists _, _, _. reflexivity.
Qed.

(** C9. For every input, [process_input] returns a response and does not
    raise; what goes wrong is in the result it returns: the missing
    fields in a request for information, the failures of the calculator
    in an answer with the status "error". *)
Theorem process_input_total libm_pow complex_pow_overflows (U : string) :
  exists r,
    process_input libm_pow complex_pow_overflows U = inr r /\
    ((exists response,
        missing_info r <> [] /\
        result r =
        AskForInfo response (missing_info r) (intent (intent_analysis r))) \/
     (exists e text d, result r = ApiResponse e text "success" None d) \/
     (exists text d,
        result r =
        ApiResponse "calculator" text "error" (Some "calculation_error") d)).
Proof.
  destruct (process_input_shape libm_pow complex_pow_overflows U)
    as (r & Hr & _ & [(Hm & _ & response & Hres)
                     |(_ & _ & endpoint & _ & Hres)]).
  - exists r. split; [exact Hr|]. left. exists response. split; assumption.
  - exists r. split; [exact Hr|]. right. rewrite Hres.
    destruct (_call_api_shape libm_pow complex_pow_overflows endpoint
                (extracted_info (intent_analysis r)))
      as [(e & text & d & ->)|(text & ->)].
    + left. eexists _, _, _. reflexivity.
    + right. eexists _, _. reflexivity.
Qed.

(** C10. For every input, the action of [process_input] is
    "ask_for_info" or "call_api" and never "answer_directly": the intent
    of the classifier is one of the six intents, and each of them has an
    endpoint. *)
Theorem action_is_ask_or_call libm_pow complex_pow_overflows (U : string) :
  exists r,
    process_input libm_pow complex_pow_overflows U = inr r /\
    In (intent (intent_analysis r)) intents /\
    is_Some (api_endpoints !! intent (intent_analysis r)) /\
    (action_taken r = "ask_for_info" \/ action_taken r = "call_api") /\
    action_taken r <> "answer_directly".
Proof.
  destruct (process_input_shape libm_pow complex_pow_overflows U)
    as (r & Hr & Hi & Hcases).
  exists r. split; [exact Hr|]. split; [exact Hi|].
  split; [destruct (endpoint_of_intent _ Hi) as [e He]; exists e; exact He|].
  destruct Hcases as [(_ & -> & _)|(_ & -> & _)].
  - split; [left; reflexivity|discriminate].
  - split; [right; reflexivity|discriminate].
Qed.

(** ** Properties of the calculator *)

Import PyFloat.

Lemma value_eqb_eq a b : value_eqb a b = true <-> a = b.
Proof.
  destruct a as [s|l], b as [t|k]; cbn [value_eqb].
  - rewrite String.eqb_eq. split; [intros ->; reflexivity|].
    intros E. injection E as ->. reflexivity.
  - split; discriminate.
  - split; discriminate.
  - rewrite bool_decide_eq_true. split; [intros ->; reflexivity|].
    intros E. injection E as ->. reflexivity.
Qed.

Lemma value_eqb_neq a b : a <> b -> value_eqb a b = false.
Proof.
  intros H. destruct (value_eqb a b) eqn:E; [|reflexivity].
  apply value_eqb_eq in E. contradiction.
Qed.

Lemma of_string_error s e :
  of_string s = inl e -> exists m, e = ValueError m.
Proof.
  unfold of_string. destruct (parse_sign _) as [neg l].
  repeat match goal with
         | |- context [if ?b then _ else _] => destruct b
         end; try discriminate.
  destruct (parse_number neg l); [discriminate|].
  intros E. injection E as <-. eexists. reflexivity.
Qed.

Lemma convert_reads numbers fs :
  Forall2 reads_as numbers fs ->
  forall acc, convert numbers acc = inr (inr (acc ++ fs)).
Proof.
  induction 1 as [|s x numbers fs Hs _ IH]; intros acc; cbn [convert].
  - rewrite app_nil_r. reflexivity.
  - unfold reads_as in Hs. rewrite Hs, IH, <- app_assoc. reflexivity.
Qed.

Lemma convert_stops before token after :
  Forall is_number before -> ~ is_number token ->
  forall acc,
    convert (before ++ token :: after) acc =
    inr (inl ("Error: '" +:+ token +:+ "' is not a valid number")).
Proof.
  intros Hb Ht. induction Hb as [|s before [x Hs] _ IH]; intros acc;
    cbn [app convert].
  - destruct (of_string token) as [e|x] eqn:E.
    + apply of_string_error in E as [m ->]. reflexivity.
    + exfalso. apply Ht. exists x. exact E.
  - rewrite Hs. apply IH.
Qed.

(** After its counts, [_calculate_result] is its computation, with what
    the computation raises turned into a message. *)
Lemma _calculate_result_checked libm_pow complex_pow_overflows data numbers :
  data !! "numbers" = Some (VList numbers) ->
  counts_ok (default (VStr "add") (data !! "operation")) numbers ->
  _calculate_result libm_pow complex_pow_overflows data =
  match calculate libm_pow complex_pow_overflows
          (default (VStr "add") (data !! "operation")) numbers with
  | inr text => inr text
  | inl (OverflowError _) => inr "Error: Calculation result is too large"
  | inl e => inr ("Error: Calculation failed - " +:+ exn_str e)
  end.
Proof.
  intros Hn (Hne & Hmax & Hmin). unfold _calculate_result. rewrite Hn.
  cbn [default from_option id items falsy].
  destruct numbers as [|n0 numbers]; [contradiction|].
  destruct (value_eqb (default (VStr "add") (data !! "operation"))
              (VStr "sqrt")) eqn:Eop.
  - replace (Nat.ltb (length (n0 :: numbers)) 1) with false
      by (symmetry; apply Nat.ltb_ge; cbn [length]; lia).
    replace (Nat.ltb 10 (length (n0 :: numbers))) with false
      by (symmetry; apply Nat.ltb_ge; lia).
    reflexivity.
  - assert (H2 : 2 <= length (n0 :: numbers)).
    { apply Hmin. intros E. apply value_eqb_eq in E. congruence. }
    replace (Nat.ltb (length (n0 :: numbers)) 2) with false
      by (symmetry; apply Nat.ltb_ge; lia).
    replace (Nat.ltb 10 (length (n0 :: numbers))) with false
      by (symmetry; apply Nat.ltb_ge; lia).
    reflexivity.
Qed.

(** A text that starts with "Error:" is answered as a calculation
    error. *)
Lemma error_reported libm_pow complex_pow_overflows data message :
  _calculate_result libm_pow complex_pow_overflows data = inr message ->
  startswith message "Error:" = true ->
  calculation_error libm_pow complex_pow_overflows data message.
Proof.
  intros H Hs. unfold calculation_error, _call_calculator_api.
  rewrite H, Hs. reflexivity.
Qed.

(** C3. The checks of the calculator in their order, each one answered
    as a calculation error: no number at all; fewer than two numbers
    (unless the operation is the square root); more than ten numbers,
    whatever the numbers and the operation are, so before any number is
    read and before the count of the operation; the first string that is
    not a number; the exact count of a power and of a square root. *)
Theorem validation_order libm_pow complex_pow_overflows
    (data : gmap string value) (numbers : list string) :
  data !! "numbers" = Some (VList numbers) ->
  (numbers = [] ->
   calculation_error libm_pow complex_pow_overflows data
     "Error: No numbers provided for calculation") /\
  (default (VStr "add") (data !! "operation") <> VStr "sqrt" ->
   length numbers = 1 ->
   calculation_error libm_pow complex_pow_overflows data
     "Error: Need at least two numbers for calculation") /\
  (10 < length numbers ->
   calculation_error libm_pow complex_pow_overflows data
     "Error: Too many numbers provided (maximum 10)") /\
  (length numbers = 11 ->
   calculation_error libm_pow complex_pow_overflows data
     "Error: Too many numbers provided (maximum 10)") /\
  (forall before token after,
     counts_ok (default (VStr "add") (data !! "operation")) numbers ->
     numbers = before ++ token :: after ->
     Forall is_number before -> ~ is_number token ->
     calculation_error libm_pow complex_pow_overflows data
       ("Error: '" +:+ token +:+ "' is not a valid number")) /\
  (forall operands,
     counts_ok (default (VStr "add") (data !! "operation")) numbers ->
     Forall2 reads_as numbers operands ->
     (data !! "operation" = Some (VStr "power") -> length numbers <> 2 ->
      calculation_error libm_pow complex_pow_overflows data
        "Error: Power operation requires exactly two numbers") /\
     (data !! "operation" = Some (VStr "sqrt") -> length numbers <> 1 ->
      calculation_error libm_pow complex_pow_overflows data
        "Error: Square root operation requires exactly one number")).
Proof.
  intros Hn.
  assert (Hmany : 10 < length numbers ->
    calculation_error libm_pow complex_pow_overflows data
      "Error: Too many numbers provided (maximum 10)").
  { intros Hlen. apply error_reported; [|reflexivity].
    unfold _calculate_result. rewrite Hn. cbn [default from_option id items falsy].
    destruct numbers as [|n0 [|n1 numbers]]; cbn [length] in Hlen; try lia.
    replace (Nat.ltb (length (n0 :: n1 :: numbers)) 1) with false
      by (symmetry; apply Nat.ltb_ge; cbn [length]; lia).
    replace (Nat.ltb (length (n0 :: n1 :: numbers)) 2) with false
      by (symmetry; apply Nat.ltb_ge; cbn [length]; lia).
    replace (Nat.ltb 10 (length (n0 :: n1 :: numbers))) with true
      by (symmetry; apply Nat.ltb_lt; cbn [length]; lia).
    destruct (value_eqb _ _); reflexivity. }
  split; [|split; [|split; [|split; [|split]]]].
  - intros ->. apply error_reported; [|reflexivity].
    unfold _calculate_result. rewrite Hn. reflexivity.
  - intros Hop Hlen. apply error_reported; [|reflexivity].
    unfold _calculate_result. rewrite Hn. cbn [default from_option id items falsy].
    destruct numbers as [|n0 [|n1 numbers]]; try discriminate Hlen.
    rewrite (value_eqb_neq _ _ Hop). reflexivity.
  - exact Hmany.
  - intros Hlen. apply Hmany. lia.
  - intros before token after Hc -> Hb Ht.
    apply error_reported; [|reflexivity].
    rewrite (_calculate_result_checked _ _ _ _ Hn Hc).
    unfold calculate. rewrite (convert_stops before token after Hb Ht).
    reflexivity.
  - intros operands Hc Hr.
    assert (Hlen : length operands = length numbers).
    { symmetry. eapply Forall2_length, Hr. }
    split.
    + intros Hop Hne. apply error_reported; [|reflexivity].
      rewrite (_calculate_result_checked _ _ _ _ Hn Hc).
      unfold calculate. rewrite (convert_reads numbers operands Hr).
      run. rewrite Hop. cbn [default from_option id app].
      unfold evaluate. cbn [value_eqb String.eqb Ascii.eqb Bool.eqb].
      rewrite Hlen.
      replace (Nat.eqb (length numbers) 2) with false
        by (symmetry; apply Nat.eqb_neq; exact Hne).
      reflexivity.
    + intros Hop Hne. apply error_reported; [|reflexivity].
      rewrite (_calculate_result_checked _ _ _ _ Hn Hc).
      unfold calculate. rewrite (convert_reads numbers operands Hr).
      run. rewrite Hop. cbn [default from_option id app].
      unfold evaluate. cbn [value_eqb String.eqb Ascii.eqb Bool.eqb].
      rewrite Hlen.
      replace (Nat.eqb (length numbers) 1) with false
        by (symmetry; apply Nat.eqb_neq; exact Hne).
      reflexivity.
Qed.

Lemma validation_order_witness :
  calculation_error unused_pow unused_complex_pow
    (<["numbers" := VList ["1"; "2"; "x"; "4"; "5"; "6"; "7"; "8"; "9";
                            "10"; "eleven"]]>
       (<["operation" := VStr "modulo"]> ∅))
    "Error: Too many numbers provided (maximum 10)" /\
  calculation_error unused_pow unused_complex_pow
    (<["numbers" := VList [String "028" "1"; "2"; "3"]]>
       (<["operation" := VStr "power"]> ∅))
    ("Error: '" +:+ String "028" "1" +:+ "' is not a valid number").
Proof.
  split.
  - destruct (validation_order unused_pow unused_complex_pow
                (<["numbers" := VList ["1"; "2"; "x"; "4"; "5"; "6"; "7";
                                        "8"; "9"; "10"; "eleven"]]>
                   (<["operation" := VStr "modulo"]> ∅))
                ["1"; "2"; "x"; "4"; "5"; "6"; "7"; "8"; "9"; "10";
                 "eleven"])
      as (_ & _ & _ & H & _).
    + vm_compute. reflexivity.
    + apply H. reflexivity.
  - destruct (validation_order unused_pow unused_complex_pow
                (<["numbers" := VList [String "028" "1"; "2"; "3"]]>
                   (<["operation" := VStr "power"]> ∅))
                [String "028" "1"; "2"; "3"])
      as (_ & _ & _ & _ & H & _).
    + vm_compute. reflexivity.
    + apply (H [] (String "028" "1") ["2"; "3"]).
      * split; [discriminate|]. split; cbn [length]; [lia|intros _; lia].
      * reflexivity.
      * constructor.
      * intros [x Hx]. vm_compute in Hx. discriminate Hx.
Defined.

(** [float] skips the whitespace of C at the two ends of its text, and
    not the separators 0x1c to 0x1f that [str.strip] removes: a number
    behind a separator is not read, and the calculator stops at it before
    it looks at the operation. *)
Lemma separator_is_not_skipped :
  of_string (String "028" "0") =
    inl (ValueError "could not convert string to float") /\
  of_string (String "009" (String "011" " 0 ")) = inr zero /\
  Forall
    (fun call : string * list string * string =>
       _calculate_result unused_pow unused_complex_pow
         (<["numbers" := VList (snd (fst call))]>
            (<["operation" := VStr (fst (fst call))]> ∅)) =
       inr ("Error: '" +:+ snd call +:+ "' is not a valid number"))
    [("divide", ["10"; String "028" "0"], String "028" "0");
     ("power", [String "028" "1"; "2"; "3"], String "028" "1");
     ("modulo", [String "028" "7"; "2"], String "028" "7");
     ("subtract", [String "028" "inf"; "inf"], String "028" "inf");
     ("add", [String "028" "1"; "2"], String "028" "1")].
Proof.
  split; [reflexivity|]. split; [vm_compute; reflexivity|].
  repeat constructor.
Qed.

Lemma eq_int_zero x : eq_int x 0 = is_zero x.
Proof.
  destruct x as [s|s| |s m e]; try reflexivity.
  cbn [eq_int is_zero]. destruct e as [|p|p].
  - destruct s; reflexivity.
  - apply Z.eqb_neq. destruct s; pose proof (Z.pow_pos_nonneg 2 (Zpos p)); lia.
  - apply Z.eqb_neq. destruct s; lia.
Qed.

Lemma eqb_zero x : eqb x zero = is_zero x.
Proof. destruct x as [s|s| |s m e]; try destruct s; reflexivity. Qed.

Lemma has_zero_true l :
  Exists (fun x => is_zero x = true) l -> has_zero l = true.
Proof.
  unfold has_zero. intros H. apply existsb_exists.
  apply List.Exists_exists in H as (x & Hx & Hz).
  exists x. split; [exact Hx|]. rewrite eq_int_zero. exact Hz.
Qed.

Lemma has_zero_false l :
  Forall (fun x => is_zero x = false) l -> has_zero l = false.
Proof.
  unfold has_zero. induction 1 as [|x l Hx _ IH]; cbn [existsb].
  - reflexivity.
  - rewrite eq_int_zero, Hx, IH. reflexivity.
Qed.

(** Without a zero among the divisors the divisions do not raise. *)
Lemma quotient_no_zero l :
  Forall (fun x => is_zero x = false) l ->
  forall x, quotient x l = inr (fold_left (SFdiv prec emax) l x).
Proof.
  induction 1 as [|y l Hy _ IH]; intros x; cbn [quotient fold_left].
  - reflexivity.
  - unfold div. rewrite eqb_zero, Hy. run. apply IH.
Qed.

Lemma chars_append a b : chars (a +:+ b) = chars a ++ chars b.
Proof.
  unfold chars. induction a as [|c a IH]; [reflexivity|].
  change (String c a +:+ b) with (String c (a +:+ b)).
  cbn [list_ascii_of_string app]. f_equal. exact IH.
Qed.

Lemma text_with_equals a b message :
  ~ In "="%char (chars message) -> a +:+ " = " +:+ b <> message.
Proof.
  intros Hn <-. apply Hn. rewrite !chars_append.
  apply in_or_app. right. apply in_or_app. left. cbn. tauto.
Qed.

(** What the computation of a division answers when no divisor is
    zero. *)
Lemma calculate_divide libm_pow complex_pow_overflows numbers x rest :
  Forall2 reads_as numbers (x :: rest) ->
  Forall (fun y => is_zero y = false) rest ->
  calculate libm_pow complex_pow_overflows (VStr "divide") numbers =
  (text <- render (Float (fold_left (SFdiv prec emax) rest x)) ;;
   ret (join " ÷ " (map str_float (x :: rest)) +:+ " = " +:+ text)).
Proof.
  intros Hr Hz. unfold calculate.
  rewrite (convert_reads numbers (x :: rest) Hr). run. cbn [app].
  unfold evaluate. cbn [value_eqb String.eqb Ascii.eqb Bool.eqb tail].
  rewrite (has_zero_false rest Hz). cbn [list_item nth_error]. run.
  rewrite (quotient_no_zero rest Hz). run.
  unfold expression. cbn [value_eqb String.eqb Ascii.eqb Bool.eqb]. run.
  reflexivity.
Qed.

(** C4. For a division whose numbers pass the counts and read as floats:
    when an operand after the first is zero, the answer is the
    calculation error "Error: Cannot divide by zero", which mentions
    "divide by zero", and no division is done; when none is zero, the
    divisions do not raise and the answer is not that error. *)
Theorem divide_by_zero libm_pow complex_pow_overflows
    (data : gmap string value) (numbers : list string)
    (operands : list spec_float) :
  data !! "operation" = Some (VStr "divide") ->
  data !! "numbers" = Some (VList numbers) ->
  2 <= length numbers <= 10 ->
  Forall2 reads_as numbers operands ->
  (Exists (fun x => is_zero x = true) (tail operands) ->
   calculation_error libm_pow complex_pow_overflows data
     "Error: Cannot divide by zero" /\
   contains "divide by zero" "Error: Cannot divide by zero" = true /\
   evaluate libm_pow complex_pow_overflows (VStr "divide") operands =
   inr (inl "Error: Cannot divide by zero")) /\
  (Forall (fun x => is_zero x = false) (tail operands) ->
   (exists x rest,
      operands = x :: rest /\
      quotient x rest = inr (fold_left (SFdiv prec emax) rest x)) /\
   result_text (_call_calculator_api libm_pow complex_pow_overflows data) <>
   Some "Error: Cannot divide by zero").
Proof.
  intros Hop Hn Hlen Hr.
  assert (Hc : counts_ok (default (VStr "add") (data !! "operation")) numbers).
  { split; [|split].
    - intros ->. cbn [length] in Hlen. lia.
    - lia.
    - intros _. lia. }
  pose proof (_calculate_result_checked libm_pow complex_pow_overflows
                data numbers Hn Hc) as Hres.
  rewrite Hop in Hres. cbn [default from_option id] in Hres.
  assert (Hev : has_zero (tail operands) = true ->
    evaluate libm_pow complex_pow_overflows (VStr "divide") operands =
    inr (inl "Error: Cannot divide by zero")).
  { intros Hz. unfold evaluate.
    cbn [value_eqb String.eqb Ascii.eqb Bool.eqb]. rewrite Hz. reflexivity. }
  split.
  - intros Hz. apply has_zero_true in Hz.
    split; [|split; [reflexivity|apply Hev, Hz]].
    apply error_reported; [|reflexivity].
    rewrite Hres. unfold calculate.
    rewrite (convert_reads numbers operands Hr). run. cbn [app].
    rewrite (Hev Hz). reflexivity.
  - intros Hz. destruct operands as [|x rest].
    { apply Forall2_length in Hr. cbn [length] in Hr. lia. }
    cbn [tail] in Hz. split.
    + exists x, rest. split; [reflexivity|]. apply quotient_no_zero, Hz.
    + rewrite (calculate_divide _ _ numbers x rest Hr Hz) in Hres.
      destruct (_call_calculator_api_shape libm_pow complex_pow_overflows data)
        as (text & Ht & [E|E]); rewrite E; cbn [result_text];
        rewrite Hres in Ht; intros Heq; injection Heq as ->.
      all: destruct (render (Float (fold_left (SFdiv prec emax) rest x)))
             as [e|t] eqn:Er.
      all: try (cbn [bind ret] in Ht; injection Ht as Ht;
                revert Ht; apply text_with_equals; vm_compute;
                intuition discriminate).
      all: unfold render, int_of in Er;
           destruct (to_int (fold_left (SFdiv prec emax) rest x))
             as [e'|z] eqn:Ez; [|discriminate Er].
      all: cbn [bind] in Er; injection Er as <-.
      all: unfold to_int in Ez;
           destruct (fold_left (SFdiv prec emax) rest x); try discriminate Ez;
           injection Ez as <-; cbn [bind] in Ht; discriminate Ht.
Qed.

Lemma divide_by_zero_witness :
  calculation_error unused_pow unused_complex_pow
    (<["numbers" := VList ["10"; "0"]]> (<["operation" := VStr "divide"]> ∅))
    "Error: Cannot divide by zero".
Proof.
  destruct (divide_by_zero unused_pow unused_complex_pow
              (<["numbers" := VList ["10"; "0"]]>
                 (<["operation" := VStr "divide"]> ∅))
              ["10"; "0"]
              [S754_finite false 5629499534213120 (-49); S754_zero false])
    as [H _].
  - vm_compute. reflexivity.
  - vm_compute. reflexivity.
  - cbn [length]. lia.
  - repeat constructor.
  - destruct H as [H _]; [left; reflexivity|exact H].
Defined.

(** C2 (as the code has it). When the computation of the calculator
    raises an overflow, the endpoint answers with the status "error",
    the kind "calculation_error" and the text "Error: Calculation result
    is too large"; nothing is raised to the caller, and the kind is not
    "api_error". *)
Theorem overflow_is_calculation_error libm_pow complex_pow_overflows
    (data : gmap string value) (numbers : list string) (msg : string) :
  data !! "numbers" = Some (VList numbers) ->
  counts_ok (default (VStr "add") (data !! "operation")) numbers ->
  calculate libm_pow complex_pow_overflows
    (default (VStr "add") (data !! "operation")) numbers
    = inl (OverflowError msg) ->
  _call_calculator_api libm_pow complex_pow_overflows data =
  ApiResponse "calculator" "Error: Calculation result is too large" "error"
    (Some "calculation_error") (Some data) /\
  error_type (_call_calculator_api libm_pow complex_pow_overflows data) <>
  Some "api_error".
Proof.
  intros Hn Hc Hcalc.
  assert (H : calculation_error libm_pow complex_pow_overflows data
                "Error: Calculation result is too large").
  { apply error_reported; [|reflexivity].
    rewrite (_calculate_result_checked _ _ _ _ Hn Hc), Hcalc. reflexivity. }
  unfold calculation_error in H. rewrite H. split; [reflexivity|discriminate].
Qed.

Lemma overflow_is_calculation_error_witness :
  _call_calculator_api unused_pow unused_complex_pow
    (<["numbers" := VList ["1e308"; "1e308"]]>
       (<["operation" := VStr "add"]> ∅)) =
  ApiResponse "calculator" "Error: Calculation result is too large" "error"
    (Some "calculation_error")
    (Some (<["numbers" := VList ["1e308"; "1e308"]]>
             (<["operation" := VStr "add"]> ∅))).
Proof.
  apply (overflow_is_calculation_error unused_pow unused_complex_pow
           (<["numbers" := VList ["1e308"; "1e308"]]>
              (<["operation" := VStr "add"]> ∅))
           ["1e308"; "1e308"]
           "cannot convert float infinity to integer").
  - vm_compute. reflexivity.
  - split; [discriminate|]. split; [cbn [length]; lia|].
    intros _. cbn [length]. lia.
  - vm_compute. reflexivity.
Defined.

(** C2, as it is stated, fails: the sum of 1e308 and 1e308 overflows, the
    computation raises [OverflowError], and the endpoint answers with
    the kind "calculation_error", not "api_error". *)
Lemma overflow_not_api_error :
  calculate unused_pow unused_complex_pow (VStr "add") ["1e308"; "1e308"]
    = inl (OverflowError "cannot convert float infinity to integer") /\
  error_type
    (_call_calculator_api unused_pow unused_complex_pow
       (<["numbers" := VList ["1e308"; "1e308"]]>
          (<["operation" := VStr "add"]> ∅)))
    = Some "calculation_error" /\
  error_type
    (_call_calculator_api unused_pow unused_complex_pow
       (<["numbers" := VList ["1e308"; "1e308"]]>
          (<["operation" := VStr "add"]> ∅)))
    <> Some "api_error".
Proof.
  split; [vm_compute; reflexivity|].
  split; [vm_compute; reflexivity|].
  vm_compute. discriminate.
Qed.

(** *** The text of a result *)

Lemma digit_char_is_digit d :
  (0 <= d < 10)%Z -> isdigit (digit_char d) = true.
Proof.
  intros H.
  assert (E : d = 0%Z \/ d = 1%Z \/ d = 2%Z \/ d = 3%Z \/ d = 4%Z \/
              d = 5%Z \/ d = 6%Z \/ d = 7%Z \/ d = 8%Z \/ d = 9%Z) by lia.
  repeat (destruct E as [->|E]; [reflexivity|]). subst d. reflexivity.
Qed.

Lemma digits_acc_digits fuel : forall z acc,
  Forall (fun c => isdigit c = true) acc ->
  Forall (fun c => isdigit c = true) (digits_acc fuel z acc).
Proof.
  induction fuel as [|fuel IH]; intros z acc H; cbn [digits_acc].
  - exact H.
  - assert (H' : Forall (fun c => isdigit c = true)
                   (digit_char (z mod 10) :: acc)).
    { constructor; [|exact H]. apply digit_char_is_digit.
      apply Z.mod_pos_bound. lia. }
    destruct (z <? 10)%Z; [exact H'|apply IH, H'].
Qed.

Lemma no_dot_in l :
  Forall (fun c => Ascii.eqb "." c = false) l ->
  contains_chars ["."%char] l = false.
Proof.
  induction 1 as [|c l Hc _ IH]; cbn [contains_chars starts_chars].
  - reflexivity.
  - rewrite Hc, IH. reflexivity.
Qed.

Lemma chars_of_chars l : chars (of_chars l) = l.
Proof. apply list_ascii_of_string_of_list_ascii. Qed.

(** The text of an integer has no decimal point. *)
Lemma str_int_no_dot z : contains "." (str_int z) = false.
Proof.
  assert (Hd : forall n,
    Forall (fun c => Ascii.eqb "." c = false) (digits n)).
  { intros n. unfold digits.
    eapply Forall_impl; [apply digits_acc_digits; constructor|].
    intros c Hc. cbn beta in Hc.
    destruct (Ascii.eqb "." c) eqn:E; [|reflexivity].
    apply Ascii.eqb_eq in E. subst c. discriminate Hc. }
  unfold contains, str_int.
  change (chars ".") with ["."%char].
  destruct (z <? 0)%Z; rewrite chars_of_chars; apply no_dot_in.
  - constructor; [reflexivity|apply Hd].
  - apply Hd.
Qed.

Lemma render_finite r :
  is_finite r = true -> render (Float r) = inr (spec_render r).
Proof.
  unfold render, int_of, to_int, spec_render, is_integer.
  destruct r; try discriminate; intros _; reflexivity.
Qed.

Lemma product_float l : forall a,
  fold_left (fun result num =>
               match result with
               | Int z => Float (mul (of_Z z) num)
               | Float x => Float (mul x num)
               | Complex => Complex
               end) l (Float a) = Float (fold_left mul l a).
Proof.
  induction l as [|x l IH]; intros a; cbn [fold_left]; [reflexivity|apply IH].
Qed.

(** On operands that pass the checks, [evaluate] computes the value the
    specification words. *)
Lemma evaluate_spec libm_pow complex_pow_overflows op operands :
  In op operations -> valid_operands op operands -> 2 <= length operands \/ op = "sqrt" ->
  exists symbol,
    evaluate libm_pow complex_pow_overflows (VStr op) operands =
    (v <- spec_value libm_pow complex_pow_overflows op operands ;;
     ret (inr (v, symbol))) /\
    exists expr,
      expression (VStr op) symbol operands = inr expr.
Proof.
  intros Hop (Hdiv & Hpow & Hsqrt) Hlen.
  unfold operations in Hop. cbn [In] in Hop.
  destruct Hop as [<-|[<-|[<-|[<-|[<-|[<-|[]]]]]]];
    unfold evaluate, spec_value, expression;
    cbn [value_eqb String.eqb Ascii.eqb Bool.eqb].
  - destruct Hlen as [Hlen|Hlen]; [|discriminate Hlen].
    eexists. split; [|eexists; reflexivity].
    destruct operands; [cbn [length] in Hlen; lia|]. reflexivity.
  - destruct Hlen as [Hlen|Hlen]; [|discriminate Hlen].
    eexists. split; [|eexists; reflexivity].
    destruct operands as [|x [|y rest]]; try (cbn [length] in Hlen; lia).
    reflexivity.
  - destruct Hlen as [Hlen|Hlen]; [|discriminate Hlen].
    eexists. split; [|eexists; reflexivity].
    destruct operands as [|x rest]; [cbn [length] in Hlen; lia|].
    unfold product. cbn [fold_left]. rewrite product_float. reflexivity.
  - destruct Hlen as [Hlen|Hlen]; [|discriminate Hlen].
    eexists. split; [|eexists; reflexivity].
    destruct operands as [|x rest]; [cbn [length] in Hlen; lia|].
    specialize (Hdiv eq_refl). cbn [tail] in Hdiv |- *.
    rewrite (has_zero_false rest Hdiv). cbn [list_item nth_error]. run.
    rewrite (quotient_no_zero rest Hdiv). run. reflexivity.
  - specialize (Hpow eq_refl).
    eexists. split; [|eexists; reflexivity].
    destruct operands as [|x [|y [|z rest]]]; try discriminate Hpow.
    cbn [length Nat.eqb negb list_item nth_error]. run. reflexivity.
  - destruct (Hsqrt eq_refl) as (x & -> & Hx).
    eexists. split; [|eexists; reflexivity].
    cbn [length Nat.eqb negb list_item nth_error]. run. rewrite Hx.
    reflexivity.
Qed.

(** *** The number a float stands for *)

Lemma fraction_value m e :
  (fst (fraction m e) # snd (fraction m e) == inject_Z (Zpos m) * 2 ^ e)%Q.
Proof.
  unfold fraction. destruct e as [|p|p]; cbn [fst snd].
  - rewrite Z.mul_1_r. unfold inject_Z. cbn [Qpower]. ring.
  - change (2%Q) with (2 # 1)%Q. rewrite Qpower_decomp_pos.
    assert (H1 : (1 ^ p = 1)%positive).
    { apply Pos2Z.inj. rewrite Pos2Z.inj_pow. apply Z.pow_1_l. lia. }
    rewrite H1. unfold inject_Z, Qeq, Qmult. cbn [Qnum Qden]. lia.
  - change (2%Q) with (2 # 1)%Q. rewrite Qpower_decomp_neg_pos.
    rewrite Z.pow_1_l by lia. unfold inject_Z, Qeq, Qmult. cbn [Qnum Qden].
    lia.
Qed.

Lemma round_half_even_nearest (q : Z * positive) :
  nearest_even (fst q # snd q) (round_half_even q).
Proof.
  destruct q as [a d]. unfold round_half_even. cbn [fst snd].
  pose proof (Z.div_mod a (Zpos d) ltac:(lia)) as Hdm.
  pose proof (Z.mod_pos_bound a (Zpos d) ltac:(lia)) as Hr.
  set (lo := (a / Zpos d)%Z) in *. set (r := (a mod Zpos d)%Z) in *.
  clearbody lo r.
  assert (Hdist : forall n,
    (Qabs (inject_Z n - (a # d)) == Z.abs (n * Zpos d - a) # d)%Q).
  { intros n. rewrite Zabs_Qabs. apply Qabs_wd.
    unfold inject_Z, Qeq, Qminus, Qplus, Qopp. cbn [Qnum Qden]. lia. }
  assert (Hlo : (lo * Zpos d - a = - r)%Z) by (rewrite Hdm; ring).
  assert (Hhi : ((lo + 1) * Zpos d - a = Zpos d - r)%Z) by (rewrite Hdm; ring).
  unfold nearest_even.
  destruct (2 * r ?= Zpos d)%Z eqn:E.
  - apply Z.compare_eq in E.
    destruct (Z.even lo) eqn:Ev.
    + split; [|intros _; exact Ev].
      rewrite Hdist, Hlo. unfold Qle. cbn [Qnum Qden]. clear - E Hr. lia.
    + split.
      * rewrite Hdist, Hhi. unfold Qle. cbn [Qnum Qden]. clear - E Hr. lia.
      * intros _. rewrite Z.even_add, Ev. reflexivity.
  - rewrite Z.compare_lt_iff in E. split.
    + rewrite Hdist, Hlo. unfold Qle. cbn [Qnum Qden]. clear - E Hr. lia.
    + rewrite Hdist, Hlo. unfold Qeq. cbn [Qnum Qden]. clear - E Hr. lia.
  - rewrite Z.compare_gt_iff in E. split.
    + rewrite Hdist, Hhi. unfold Qle. cbn [Qnum Qden]. clear - E Hr. lia.
    + rewrite Hdist, Hhi. unfold Qeq. cbn [Qnum Qden]. clear - E Hr. lia.
Qed.

Lemma nearest_even_eq q q' n :
  (q == q')%Q -> nearest_even q' n -> nearest_even q n.
Proof.
  unfold nearest_even. intros E [H1 H2].
  split; [rewrite E; exact H1|]. intros H. apply H2. rewrite <- E. exact H.
Qed.

(** [round6] rounds to six decimal places. *)
Lemma round6_rounds r :
  is_finite r = true -> rounded_to_six_places r (round6 r).
Proof.
  destruct r as [s|s| |s m e]; try discriminate; intros _.
  - exists 0%Z. split; [|reflexivity].
    split; [vm_compute; discriminate|intros _; reflexivity].
  - exists (round_half_even (scale10 (fraction m e) 6)).
    split; [|reflexivity].
    assert (E : (Qabs (float_value (S754_finite s m e)) * 1000000 ==
                 fst (scale10 (fraction m e) 6) #
                 snd (scale10 (fraction m e) 6))%Q).
    { unfold float_value. rewrite Qabs_Qmult.
      assert (Hs : (Qabs (if s then -1 else 1) == 1)%Q)
        by (destruct s; reflexivity).
      rewrite Hs, Qmult_1_l.
      rewrite Qabs_pos.
      - rewrite <- fraction_value.
        destruct (fraction m e) as [a d]. cbn [scale10 fst snd].
        unfold Qeq, Qmult. cbn [Qnum Qden]. lia.
      - apply Qmult_le_0_compat; [discriminate|].
        apply Qpower_0_le. discriminate. }
    eapply nearest_even_eq; [exact E|]. apply round_half_even_nearest.
Qed.


(** The value of a finite float from its fraction. *)
Lemma float_value_fraction s m e :
  (float_value (S754_finite s m e) ==
   (if s then - fst (fraction m e) else fst (fraction m e))%Z
   # snd (fraction m e))%Q.
Proof.
  unfold float_value. rewrite <- fraction_value.
  destruct (fraction m e) as [a d]. cbn [fst snd].
  destruct s; unfold Qeq, Qmult; cbn [Qnum Qden]; lia.
Qed.

Lemma fraction_positive m e : (0 < fst (fraction m e))%Z.
Proof.
  unfold fraction. destruct e as [|p|p]; cbn [fst]; lia.
Qed.

Lemma trunc_fraction s m e :
  trunc (S754_finite s m e) =
  (if s then - (fst (fraction m e) / Zpos (snd (fraction m e)))
   else fst (fraction m e) / Zpos (snd (fraction m e)))%Z.
Proof.
  unfold trunc, fraction. destruct e as [|p|p]; cbn [fst snd].
  - rewrite Z.shiftl_mul_pow2 by lia. rewrite Z.div_1_r. reflexivity.
  - rewrite Z.shiftl_mul_pow2 by lia. rewrite Z.div_1_r. reflexivity.
  - rewrite Z.shiftr_div_pow2 by lia. rewrite Pos2Z.inj_pow. reflexivity.
Qed.

(** [trunc] is the integer part of the value. *)
Lemma trunc_value r :
  is_finite r = true -> trunc r = integer_part (float_value r).
Proof.
  destruct r as [s|s| |s m e]; try discriminate; intros _; [reflexivity|].
  rewrite trunc_fraction. unfold integer_part.
  pose proof (fraction_positive m e) as Hpos.
  pose proof (float_value_fraction s m e) as Hv.
  destruct (fraction m e) as [a d]. cbn [fst snd] in *.
  destruct s.
  - assert (Hneg : Qle_bool 0 (float_value (S754_finite true m e)) = false).
    { destruct (Qle_bool 0 _) eqn:E; [|reflexivity].
      apply Qle_bool_iff in E. rewrite Hv in E.
      unfold Qle in E. cbn [Qnum Qden] in E. lia. }
    rewrite Hneg, (Qceiling_comp _ _ Hv).
    unfold Qceiling, Qfloor, Qopp. cbn [Qnum Qden].
    rewrite Z.opp_involutive. reflexivity.
  - assert (Hnn : Qle_bool 0 (float_value (S754_finite false m e)) = true).
    { apply Qle_bool_iff. rewrite Hv. unfold Qle. cbn [Qnum Qden]. lia. }
    rewrite Hnn, (Qfloor_comp _ _ Hv). reflexivity.
Qed.

(** [is_integer] tells whether the value is its integer part. *)
Lemma is_integer_value r :
  is_finite r = true ->
  (is_integer r = true <-> (float_value r == inject_Z (trunc r))%Q).
Proof.
  destruct r as [s|s| |s m e]; try discriminate; intros _.
  - split; reflexivity.
  - rewrite float_value_fraction. unfold is_integer, eq_int.
    set (z := trunc (S754_finite s m e)). clearbody z.
    unfold fraction, inject_Z, Qeq. cbn [Qnum Qden].
    destruct e as [|p|p]; cbn [fst snd]; rewrite Z.eqb_eq;
      destruct s; try rewrite Pos2Z.inj_pow; lia.
Qed.

(** C5 (as the code has it). For operands that pass the checks, the
    value is the sum of all operands for add, the first operand minus
    the sum of the rest for subtract, the product of all for multiply,
    the first operand divided by each of the others in turn for divide,
    the first operand raised to the second for power, and the operand
    raised to 0.5 for sqrt; when that value is a finite float, the
    answer ends with the value without a fractional part when it is a
    whole number, and with the value rounded to six places otherwise.
    The last three parts say what these words mean on the number the
    float stands for: the value is a whole number exactly when that
    number is its truncation, the truncation is its integer part, and
    the rounded value is the float nearest to [n / 10^6], where [n] is
    the integer nearest to the number times [10^6], the even one in a
    tie. *)
Theorem result_rendering libm_pow complex_pow_overflows
    (data : gmap string value) (op : string) (numbers : list string)
    (operands : list spec_float) (r : spec_float) :
  data !! "operation" = Some (VStr op) ->
  data !! "numbers" = Some (VList numbers) ->
  counts_ok (VStr op) numbers ->
  Forall2 reads_as numbers operands ->
  In op operations ->
  valid_operands op operands ->
  spec_value libm_pow complex_pow_overflows op operands = inr (Float r) ->
  is_finite r = true ->
  (exists expr,
     _calculate_result libm_pow complex_pow_overflows data =
     inr (expr +:+ " = " +:+ spec_render r)) /\
  (is_integer r = true ->
   spec_render r = str_int (trunc r) /\
   contains "." (spec_render r) = false) /\
  (is_integer r = false -> spec_render r = str_float (round6 r)) /\
  (is_integer r = true <-> (float_value r == inject_Z (trunc r))%Q) /\
  trunc r = integer_part (float_value r) /\
  rounded_to_six_places r (round6 r).
Proof.
  intros Hop Hn Hc Hr Hin Hv Hval Hfin.
  split; [|split; [|split; [|split; [|split]]]].
  - assert (Hc' : counts_ok (default (VStr "add") (data !! "operation"))
                    numbers).
    { rewrite Hop. exact Hc. }
    rewrite (_calculate_result_checked _ _ _ _ Hn Hc').
    rewrite Hop. cbn [default from_option id].
    unfold calculate. rewrite (convert_reads numbers operands Hr).
    run. cbn [app].
    assert (Hlen : 2 <= length operands \/ op = "sqrt").
    { destruct Hc as (_ & _ & Hmin).
      destruct (String.eqb op "sqrt") eqn:E.
      - right. apply String.eqb_eq, E.
      - left. rewrite <- (Forall2_length _ _ _ Hr). apply Hmin.
        intros E'. injection E' as ->. rewrite String.eqb_refl in E.
        discriminate E. }
    destruct (evaluate_spec libm_pow complex_pow_overflows op operands
                Hin Hv Hlen) as (symbol & Hev & expr & Hex).
    rewrite Hev, Hval. run. rewrite Hex. run.
    rewrite (render_finite r Hfin). run.
    exists expr. reflexivity.
  - intros Hi. unfold spec_render. rewrite Hi.
    split; [reflexivity|apply str_int_no_dot].
  - intros Hi. unfold spec_render. rewrite Hi. reflexivity.
  - apply is_integer_value, Hfin.
  - apply trunc_value, Hfin.
  - apply round6_rounds, Hfin.
Qed.

Lemma result_rendering_witness :
  (exists expr,
     _calculate_result unused_pow unused_complex_pow
       (<["numbers" := VList ["0.1"; "0.2"]]>
          (<["operation" := VStr "add"]> ∅)) =
     inr (expr +:+ " = " +:+
          spec_render (S754_finite false 5404319552844596 (-54)))) /\
  rounded_to_six_places (S754_finite false 5404319552844596 (-54))
    (round6 (S754_finite false 5404319552844596 (-54))) /\
  str_float (S754_finite false 5404319552844596 (-54))
    = "0.30000000000000004" /\
  spec_render (S754_finite false 5404319552844596 (-54)) = "0.3" /\
  _calculate_result unused_pow unused_complex_pow
    (<["numbers" := VList ["0.1"; "0.2"]]>
       (<["operation" := VStr "add"]> ∅)) = inr "0.1 + 0.2 = 0.3".
Proof.
  destruct (result_rendering unused_pow unused_complex_pow
              (<["numbers" := VList ["0.1"; "0.2"]]>
                 (<["operation" := VStr "add"]> ∅))
              "add" ["0.1"; "0.2"]
              [S754_finite false 7205759403792794 (-56);
               S754_finite false 7205759403792794 (-55)]
              (S754_finite false 5404319552844596 (-54)))
    as (Htext & _ & _ & _ & _ & Hround).
  - vm_compute. reflexivity.
  - vm_compute. reflexivity.
  - split; [discriminate|]. split; cbn [length]; [lia|intros _; lia].
  - repeat constructor.
  - unfold operations. cbn [In]. tauto.
  - split; [discriminate|]. split; discriminate.
  - vm_compute. reflexivity.
  - reflexivity.
  - split; [exact Htext|]. split; [exact Hround|].
    split; [vm_compute; reflexivity|].
    split; vm_compute; reflexivity.
Defined.

(** C5, as it is stated, fails: the numbers 1e308 and 1e308 pass every
    check and their sum is computed, but it is infinite, and the answer
    is an error message instead of the text of the result. *)
Lemma infinite_sum_not_rendered :
  counts_ok (VStr "add") ["1e308"; "1e308"] /\
  Forall2 reads_as ["1e308"; "1e308"]
    [S754_finite false 5010420900022432 971;
     S754_finite false 5010420900022432 971] /\
  valid_operands "add"
    [S754_finite false 5010420900022432 971;
     S754_finite false 5010420900022432 971] /\
  spec_value unused_pow unused_complex_pow "add"
    [S754_finite false 5010420900022432 971;
     S754_finite false 5010420900022432 971]
    = inr (Float (S754_infinity false)) /\
  _calculate_result unused_pow unused_complex_pow
    (<["numbers" := VList ["1e308"; "1e308"]]>
       (<["operation" := VStr "add"]> ∅))
    = inr "Error: Calculation result is too large" /\
  forall expr text,
    expr +:+ " = " +:+ text <> "Error: Calculation result is too large".
Proof.
  split; [split; [discriminate|split; cbn [length]; [lia|intros _; lia]]|].
  split; [repeat constructor|].
  split; [split; [discriminate|split; discriminate]|].
  split; [vm_compute; reflexivity|].
  split; [vm_compute; reflexivity|].
  intros expr text. apply text_with_equals. vm_compute. intuition discriminate.
Qed.

(** ** The text of a match *)

Lemma advances_refl st : advances st [] st.
Proof. split; [reflexivity|cbn [length]; lia]. Qed.

Lemma advances_trans a u b v c :
  advances a u b -> advances b v c -> advances a (u ++ v) c.
Proof.
  intros [H1 H2] [H3 H4]. split.
  - rewrite H1, H3, app_assoc. reflexivity.
  - rewrite H4, H2, length_app. lia.
Qed.

Lemma step_text {A} ok st (k : Re.mstate -> option A) x :
  Re.step ok st k = Some x ->
  exists st' c, k st' = Some x /\ advances st [c] st' /\ ok c = true.
Proof.
  unfold Re.step. destruct (Re.ms_rest st) as [|c rest] eqn:E; [discriminate|].
  destruct (ok c) eqn:Hc; [|discriminate].
  intros H. eexists _, c. split; [exact H|]. split; [|exact Hc].
  split; cbn [Re.ms_rest Re.ms_pos app length]; [exact E|lia].
Qed.

Lemma rep_loop_text {A}
    (body : Re.mstate -> (Re.mstate -> option A) -> option A)
    (P : list ascii -> Prop) lo hi greedy (k : Re.mstate -> option A) :
  (forall st k' x, body st k' = Some x ->
     exists st' w, k' st' = Some x /\ advances st w st' /\ P w) ->
  forall fuel n st x,
    match hi with Some h => n <= h | None => True end ->
    Re.rep_loop body lo hi greedy k fuel n st = Some x ->
    exists st' ws,
      k st' = Some x /\ advances st (concat ws) st' /\ Forall P ws /\
      lo <= n + length ws /\
      match hi with Some h => n + length ws <= h | None => True end.
Proof.
  intros Hbody. induction fuel as [|fuel IH]; intros n st x Hn H.
  - discriminate.
  - cbn [Re.rep_loop] in H.
    assert (Hagain : forall y,
      (if Re.below n hi
       then body st (fun st' =>
              if Nat.eqb (Re.ms_pos st') (Re.ms_pos st) then None
              else Re.rep_loop body lo hi greedy k fuel (S n) st')
       else None) = Some y ->
      exists st' ws,
        k st' = Some y /\ advances st (concat ws) st' /\ Forall P ws /\
        lo <= n + length ws /\
        match hi with Some h => n + length ws <= h | None => True end).
    { intros y Hy. destruct (Re.below n hi) eqn:Hb; [|discriminate].
      apply Hbody in Hy as (st1 & w1 & Hy & A1 & P1).
      destruct (Nat.eqb (Re.ms_pos st1) (Re.ms_pos st)); [discriminate|].
      apply IH in Hy as (st2 & ws & Hy & A2 & P2 & Hlo & Hhi).
      - exists st2, (w1 :: ws). split; [exact Hy|].
        split; [cbn [concat]; eapply advances_trans; eassumption|].
        split; [constructor; assumption|].
        cbn [length]. split; [lia|]. destruct hi; [lia|exact I].
      - destruct hi as [h|]; [|exact I]. cbn [Re.below] in Hb.
        apply Nat.ltb_lt in Hb. lia. }
    assert (Hstop : forall y,
      (if Nat.leb lo n then k st else None) = Some y ->
      exists st' ws,
        k st' = Some y /\ advances st (concat ws) st' /\ Forall P ws /\
        lo <= n + length ws /\
        match hi with Some h => n + length ws <= h | None => True end).
    { intros y Hy. destruct (Nat.leb lo n) eqn:Hl; [|discriminate].
      apply Nat.leb_le in Hl.
      exists st, []. split; [exact Hy|]. split; [apply advances_refl|].
      split; [constructor|]. cbn [length]. split; [lia|].
      destruct hi; [lia|exact I]. }
    destruct greedy.
    + match type of H with
      | match ?a with _ => _ end = _ =>
          case_eq a; [intros y Ha|intros Ha]; rewrite Ha in H
      end.
      * injection H as <-. apply Hagain, Ha.
      * apply Hstop, H.
    + match type of H with
      | match ?a with _ => _ end = _ =>
          case_eq a; [intros y Ha|intros Ha]; rewrite Ha in H
      end.
      * injection H as <-. apply Hstop, Ha.
      * apply Hagain, H.
Qed.

(** What the matcher consumes is a text of the expression. *)
Lemma rmatch_text r :
  forall A st (k : Re.mstate -> option A) x,
    Re.rmatch r st k = Some x ->
    exists st' w, k st' = Some x /\ advances st w st' /\ lang r w.
Proof.
  induction r as [| c | | neg its | a IHa b IHb | a IHa b IHb | j a IHa
                 | a IHa lo hi g | | ]; intros A st k x H;
    cbn [Re.rmatch] in H; cbn [lang].
  - exists st, []. split; [exact H|]. split; [apply advances_refl|reflexivity].
  - apply step_text in H as (st' & c' & H & Ha & Hc).
    apply Ascii.eqb_eq in Hc. subst c'.
    exists st', [c]. split; [exact H|]. split; [exact Ha|reflexivity].
  - apply step_text in H as (st' & c' & H & Ha & Hc).
    exists st', [c']. split; [exact H|]. split; [exact Ha|].
    exists c'. reflexivity.
  - apply step_text in H as (st' & c' & H & Ha & Hc).
    exists st', [c']. split; [exact H|]. split; [exact Ha|].
    exists c'. split; [reflexivity|exact Hc].
  - apply IHa in H as (st1 & u & H & A1 & L1).
    apply IHb in H as (st2 & v & H & A2 & L2).
    exists st2, (u ++ v). split; [exact H|].
    split; [eapply advances_trans; eassumption|].
    exists u, v. split; [reflexivity|]. split; assumption.
  - destruct (Re.rmatch a st k) as [y|] eqn:Ha.
    + injection H as <-. apply IHa in Ha as (st1 & w & H & A1 & L1).
      exists st1, w. split; [exact H|]. split; [exact A1|]. left. exact L1.
    + apply IHb in H as (st1 & w & H & A1 & L1).
      exists st1, w. split; [exact H|]. split; [exact A1|]. right. exact L1.
  - apply IHa in H as (st1 & w & H & A1 & L1).
    exists (Re.set_group j st st1), w. split; [exact H|].
    split; [exact A1|exact L1].
  - apply (rep_loop_text (Re.rmatch a) (lang a)) in H
      as (st' & ws & H & A1 & L1 & Hlo & Hhi).
    + exists st', (concat ws). split; [exact H|]. split; [exact A1|].
      exists ws. split; [reflexivity|]. split; [lia|]. split; [|exact L1].
      destruct hi; [lia|exact I].
    + intros st0 k' y Hy. apply IHa in Hy. exact Hy.
    + destruct hi; [lia|exact I].
  - destruct (Re.at_end st); [|discriminate].
    exists st, []. split; [exact H|]. split; [apply advances_refl|reflexivity].
  - destruct (Re.at_word_boundary st); [|discriminate].
    exists st, []. split; [exact H|]. split; [apply advances_refl|reflexivity].
Qed.

Lemma match_at_text r n st m :
  Re.match_at r n st = Some m -> lang r (chars (Re.m_text m)).
Proof.
  unfold Re.match_at. intros H.
  destruct (Re.rmatch r st Some) as [st'|] eqn:Hm; [|discriminate].
  injection H as <-. cbn [Re.m_text].
  apply rmatch_text in Hm as (st1 & w & E & [Hrest Hpos] & L).
  injection E as ->. rewrite Hrest, Hpos.
  replace (Re.ms_pos st + length w - Re.ms_pos st) with (length w) by lia.
  rewrite firstn_app, Nat.sub_diag, firstn_all. cbn [firstn].
  rewrite app_nil_r, chars_of_chars. exact L.
Qed.

Lemma scan_text r n fuel : forall st m,
  Re.scan r n fuel st = Some m -> lang r (chars (Re.m_text m)).
Proof.
  induction fuel as [|fuel IH]; intros st m H; cbn [Re.scan] in H.
  - destruct (Re.match_at r n st) as [m'|] eqn:Hm; [|discriminate].
    injection H as <-. eapply match_at_text, Hm.
  - destruct (Re.match_at r n st) as [m'|] eqn:Hm.
    + injection H as <-. eapply match_at_text, Hm.
    + destruct (Re.ms_rest st); [discriminate|]. eapply IH, H.
Qed.

Lemma all_matches_text r fuel : forall st,
  Forall (fun t => lang r (chars t)) (Re.all_matches r fuel st).
Proof.
  induction fuel as [|fuel IH]; intros st; cbn [Re.all_matches].
  - constructor.
  - destruct (Re.scan r 0 (length (Re.ms_rest st)) st) as [m|] eqn:Hm;
      [|constructor].
    constructor; [eapply scan_text, Hm|].
    destruct (_ - Re.ms_pos st); [constructor|].
    destruct (skipn _ _); [constructor|apply IH].
Qed.

(** Every text that [findall] returns is a text of the pattern. *)
Lemma findall_text p r n s l :
  Re.parse p = Some (r, n) -> Re.findall p s = inr l ->
  Forall (fun t => lang r (chars t)) l.
Proof.
  unfold Re.findall, Re.compile. intros -> H. cbn [bind ret fst] in H.
  injection H as <-.
  exact (all_matches_text r (S (String.length s)) (Re.start_state s)).
Qed.

(** ** The numbers the extraction finds *)

Lemma digit_cases c :
  isdigit c = true ->
  In c (chars "0123456789").
Proof.
  unfold isdigit, between, code. intros H.
  apply andb_true_iff in H as [H1 H2].
  apply N.leb_le in H1. apply N.leb_le in H2.
  rewrite <- (ascii_N_embedding c).
  destruct (N_of_ascii c) as [|p]; [lia|].
  assert (E : (p = 48 \/ p = 49 \/ p = 50 \/ p = 51 \/ p = 52 \/ p = 53 \/
               p = 54 \/ p = 55 \/ p = 56 \/ p = 57)%positive) by lia.
  cbn [chars list_ascii_of_string In].
  repeat (destruct E as [->|E]; [tauto|]). subst p. tauto.
Qed.

Lemma digit_not_space c : isdigit c = true -> isspace c = false.
Proof.
  intros H. apply digit_cases in H. cbn [chars list_ascii_of_string In] in H.
  repeat (destruct H as [<-|H]; [reflexivity|]). destruct H.
Qed.

Lemma digit_lower c : isdigit c = true -> lower_char c = c.
Proof.
  intros H. apply digit_cases in H. cbn [chars list_ascii_of_string In] in H.
  repeat (destruct H as [<-|H]; [reflexivity|]). destruct H.
Qed.

Lemma digit_run_digits ds :
  Forall (fun c => isdigit c = true) ds ->
  forall rest acc n,
    match rest with
    | [] => True
    | c :: _ => isdigit c = false /\ Ascii.eqb c "_" = false
    end ->
    exists acc', digit_run (ds ++ rest) acc n = (acc', n + length ds, rest).
Proof.
  induction 1 as [|c ds Hc _ IH]; intros rest acc n Hrest; cbn [app length].
  - exists acc. rewrite Nat.add_0_r. destruct rest as [|c rest]; [reflexivity|].
    destruct Hrest as [H1 H2]. cbn [digit_run]. rewrite H1, H2. reflexivity.
  - cbn [digit_run]. rewrite Hc.
    destruct (IH rest (10 * acc + Z.of_N (code c - 48))%Z (S n) Hrest)
      as [acc' ->].
    exists acc'. f_equal. f_equal. lia.
Qed.

(** A text of [NUMBER] is all digits and points, so the trimming and the
    lowering of [float] leave it as it is. *)
Lemma float_space_isspace c : float_space c = true -> isspace c = true.
Proof.
  unfold float_space, isspace. intros H.
  apply orb_true_iff in H as [H|H]; [rewrite H; reflexivity|].
  apply Ascii.eqb_eq in H. subst c. reflexivity.
Qed.

Lemma number_text_plain w :
  number_text w ->
  Forall (fun c => float_space c = false /\ lower_char c = c) w.
Proof.
  intros (ds & fs & _ & Hds & Hfs & Hw).
  assert (Hd : forall l, Forall (fun c => isdigit c = true) l ->
    Forall (fun c => float_space c = false /\ lower_char c = c) l).
  { intros l Hl. eapply Forall_impl; [exact Hl|]. intros c Hc. cbn beta in Hc.
    split; [|apply digit_lower; exact Hc].
    destruct (float_space c) eqn:E; [|reflexivity].
    apply float_space_isspace in E.
    rewrite (digit_not_space c Hc) in E. discriminate E. }
  destruct Hw as [->|[_ ->]]; [apply Hd, Hds|].
  apply Forall_app. split; [apply Hd, Hds|].
  constructor; [split; reflexivity|apply Hd, Hfs].
Qed.

Lemma skip_spaces_plain l :
  Forall (fun c => float_space c = false /\ lower_char c = c) l ->
  skip_spaces l = l.
Proof.
  destruct 1 as [|c l [Hc _] _]; cbn [skip_spaces]; [reflexivity|].
  rewrite Hc. reflexivity.
Qed.

Lemma normal_form_plain l :
  Forall (fun c => float_space c = false /\ lower_char c = c) l ->
  chars (lower (trim (of_chars l))) = l.
Proof.
  intros H. unfold lower, trim.
  rewrite !chars_of_chars, (skip_spaces_plain l H).
  rewrite skip_spaces_plain by (apply Forall_rev; exact H).
  rewrite rev_involutive.
  induction H as [|c l [_ Hc] _ IH]; cbn [map]; [reflexivity|].
  rewrite Hc, IH. reflexivity.
Qed.

(** A float that is read without a sign is not below zero. *)
Lemma of_decimal_unsigned m e : ltb (of_decimal false m e) zero = false.
Proof.
  assert (H : forall num den, ltb (of_ratio false num den) zero = false).
  { intros num den. unfold of_ratio. destruct num; try reflexivity.
    destruct (SFdiv_core_binary _ _ _ _ _ _) as [[q e'] l].
    unfold binary_round_aux.
    destruct (shr_fexp _ _ _ _ _) as [mrs' e1].
    destruct (shr_fexp _ _ _ _ _) as [mrs'' e2].
    destruct (shr_m mrs''); try reflexivity.
    destruct (_ <=? _)%Z; reflexivity. }
  unfold of_decimal. destruct e; apply H.
Qed.

Lemma unsigned_number_is_number s : unsigned_number s -> is_number s.
Proof. intros (x & Hx & _). exists x. exact Hx. Qed.

(** [float] reads every text of [NUMBER], as a number that is not below
    zero. *)
Lemma number_text_reads w : number_text w -> unsigned_number (of_chars w).
Proof.
  intros Hw. pose proof (number_text_plain w Hw) as Hplain.
  destruct Hw as (ds & fs & Hne & Hds & Hfs & Hw).
  unfold unsigned_number, of_string. rewrite (normal_form_plain w Hplain).
  destruct ds as [|d ds]; [contradiction|].
  assert (Hd : In d (chars "0123456789")).
  { apply digit_cases. inversion Hds; assumption. }
  assert (Hword : forall l,
    (String.eqb (of_chars (d :: l)) "inf" ||
     String.eqb (of_chars (d :: l)) "infinity")%bool = false /\
    String.eqb (of_chars (d :: l)) "nan" = false).
  { intros l. cbn [chars list_ascii_of_string In] in Hd.
    repeat (destruct Hd as [<-|Hd]; [split; reflexivity|]). destruct Hd. }
  assert (Hparse : forall tail,
    w = (d :: ds) ++ tail ->
    (tail = [] \/ exists fs', fs' <> [] /\
                  Forall (fun c => isdigit c = true) fs' /\
                  tail = "."%char :: fs') ->
    exists x, parse_number false w = Some x /\ ltb x zero = false).
  { intros tail -> Htail. unfold parse_number.
    destruct (digit_run_digits (d :: ds) Hds tail 0%Z 0) as [ip ->].
    { destruct Htail as [->|(fs' & _ & _ & ->)]; [exact I|split; reflexivity]. }
    destruct Htail as [->|(fs' & Hne' & Hfs' & ->)].
    - cbn [length Nat.add parse_exponent]. eexists.
      split; [reflexivity|apply of_decimal_unsigned].
    - destruct (digit_run_digits fs' Hfs' [] ip 0 I) as [m E].
      rewrite app_nil_r in E. rewrite E.
      cbn [length Nat.add parse_exponent]. eexists.
      split; [reflexivity|apply of_decimal_unsigned]. }
  destruct Hw as [->|[Hfne ->]].
  - assert (Hs : parse_sign (d :: ds) = (false, d :: ds)).
    { cbn [chars list_ascii_of_string In] in Hd.
      repeat (destruct Hd as [<-|Hd]; [reflexivity|]). destruct Hd. }
    rewrite Hs. destruct (Hword ds) as [-> ->].
    destruct (Hparse []) as (x & -> & Hx).
    + rewrite app_nil_r. reflexivity.
    + left. reflexivity.
    + exists x. split; [reflexivity|exact Hx].
  - assert (Hs : parse_sign ((d :: ds) ++ "."%char :: fs)
                 = (false, (d :: ds) ++ "."%char :: fs)).
    { cbn [chars list_ascii_of_string In] in Hd. cbn [app].
      repeat (destruct Hd as [<-|Hd]; [reflexivity|]). destruct Hd. }
    rewrite Hs. cbn [app]. destruct (Hword (ds ++ "."%char :: fs)) as [-> ->].
    destruct (Hparse ("."%char :: fs)) as (x & Hx & Hpos).
    + reflexivity.
    + right. exists fs. split; [exact Hfne|]. split; [exact Hfs|reflexivity].
    + cbn [app] in Hx. rewrite Hx. exists x. split; [reflexivity|exact Hpos].
Qed.

Lemma digit_words ws :
  Forall (lang (Re.RSet false [Re.IDigit])) ws ->
  Forall (fun c => isdigit c = true) (concat ws) /\
  length (concat ws) = length ws.
Proof.
  induction 1 as [|w ws (c & -> & Hc) _ [IH1 IH2]]; cbn [concat app length].
  - split; [constructor|reflexivity].
  - split; [|rewrite IH2; reflexivity].
    constructor; [|exact IH1].
    cbn [xorb existsb Re.item_matches orb] in Hc.
    rewrite orb_false_r in Hc. exact Hc.
Qed.

(** The texts of [NUMBER] are digits, then possibly a point and digits. *)
Lemma NUMBER_lang :
  exists r, Re.parse NUMBER = Some (r, 0) /\
            forall w, lang r w -> number_text w.
Proof.
  eexists. split; [vm_compute; reflexivity|].
  intros w H. cbn [lang] in H.
  destruct H as (u & v & -> & (ws & -> & Hlo & _ & Hws)
                 & (ws' & -> & _ & Hhi & Hws')).
  destruct (digit_words ws Hws) as [Hd Hlen].
  assert (Hne : concat ws <> []).
  { intros E. rewrite E in Hlen. cbn [length] in Hlen. lia. }
  destruct ws' as [|f [|f' ws']]; cbn [length] in Hhi; [| |lia].
  - exists (concat ws), []. cbn [concat]. rewrite app_nil_r.
    split; [exact Hne|]. split; [exact Hd|]. split; [constructor|].
    left. reflexivity.
  - inversion Hws' as [|? ? Hf _]; subst.
    destruct Hf as (a & b & -> & -> & (fs & -> & Hflo & _ & Hfs)).
    destruct (digit_words fs Hfs) as [Hfd Hflen].
    exists (concat ws), (concat fs). cbn [concat app]. rewrite app_nil_r.
    split; [exact Hne|]. split; [exact Hd|]. split; [exact Hfd|].
    right. split; [|reflexivity].
    intros E. rewrite E in Hflen. cbn [length] in Hflen. lia.
Qed.

(** Every string that [findall] returns for [NUMBER] is read by [float]. *)
Lemma findall_NUMBER_numbers s l :
  Re.findall NUMBER s = inr l -> Forall unsigned_number l.
Proof.
  destruct NUMBER_lang as (r & Hp & Hr). intros H.
  eapply Forall_impl; [exact (findall_text NUMBER r 0 s l Hp H)|].
  intros t Ht. cbn beta in Ht. apply Hr, number_text_reads in Ht.
  unfold chars, of_chars in Ht.
  rewrite string_of_list_ascii_of_string in Ht. exact Ht.
Qed.

(** ** The slots the extraction fills *)

Lemma bind_inr {A B} (m : M A) (f : A -> M B) b :
  bind m f = inr b -> exists a, m = inr a /\ f a = inr b.
Proof.
  destruct m as [e|a]; cbn [bind]; [discriminate|].
  intros H. exists a. split; [reflexivity|exact H].
Qed.

Lemma ret_inr {A} (a b : A) : ret a = inr b -> a = b.
Proof. intros H. injection H as ->. reflexivity. Qed.

(** Take a computation that returned apart, step by step. *)
Ltac unbind H :=
  repeat match type of H with
         | bind _ _ = inr _ =>
             let a := fresh "a" in
             let Ha := fresh "Ha" in
             apply bind_inr in H as (a & Ha & H)
         end.

(** The keys of a dictionary built by insertions are the inserted ones. *)
Ltac keys :=
  let k := fresh "k" in
  let Hk := fresh "Hk" in
  intros k Hk;
  repeat (rewrite lookup_insert in Hk; case_decide;
          [subst; vm_compute; tauto|]);
  rewrite lookup_empty in Hk; destruct Hk; discriminate.

Lemma detect_operation_in text : In (_detect_operation text) operations.
Proof.
  unfold _detect_operation, operations.
  repeat match goal with
         | |- context [if ?b then _ else _] => destruct b
         end; cbn [In]; tauto.
Qed.

Lemma _parse_calculation_slots text d :
  _parse_calculation text = inr d ->
  exists op numbers,
    In op operations /\ Forall unsigned_number numbers /\
    d = calculation op numbers.
Proof.
  unfold _parse_calculation. intros H. unbind H. apply ret_inr in H.
  eexists _, a. split; [|split; [eapply findall_NUMBER_numbers, Ha|]].
  2: { symmetry. exact H. }
  unfold operations.
  repeat match goal with
         | |- context [if ?b then _ else _] => destruct b
         end; cbn [In]; tauto.
Qed.

Lemma numbers_of_groups_numbers groups : forall l,
  numbers_of_groups groups = inr l -> Forall unsigned_number l.
Proof.
  induction groups as [|g rest IH]; intros l H; cbn [numbers_of_groups] in H.
  - apply ret_inr in H. subst l. constructor.
  - unbind H. apply ret_inr in H. subst l. apply Forall_app. split.
    + destruct g as [s|]; [|apply ret_inr in Ha; subst; constructor].
      destruct (String.eqb s "").
      * apply ret_inr in Ha. subst. constructor.
      * eapply findall_NUMBER_numbers, Ha.
    + apply IH, Ha0.
Qed.

(** For the intent "calculate" both extractions give an operation among
    the six of the calculator and a list of numbers that [float]
    reads. *)
Lemma calculate_from_match groups user_input d :
  _extract_info_from_match "calculate" groups user_input = inr d ->
  exists op numbers,
    In op operations /\ Forall unsigned_number numbers /\
    d = calculation op numbers.
Proof.
  unfold _extract_info_from_match. cbn [String.eqb Ascii.eqb Bool.eqb].
  intros H. unbind H. destruct a.
  - unbind H. apply ret_inr in H.
    eexists _, a. split; [apply detect_operation_in|].
    split; [eapply numbers_of_groups_numbers, Ha0|symmetry; exact H].
  - unbind H.
    match type of H with
    | context [any_in ?x ?y] => destruct (any_in x y)
    end.
    + unbind H. apply ret_inr in H.
      exists "sqrt", a0. split; [unfold operations; cbn [In]; tauto|].
      split; [eapply findall_NUMBER_numbers, Ha1|symmetry; exact H].
    + apply _parse_calculation_slots in H. exact H.
Qed.

Lemma calculate_by_keywords user_input d :
  _extract_info_by_keywords "calculate" user_input = inr d ->
  exists op numbers,
    In op operations /\ Forall unsigned_number numbers /\
    d = calculation op numbers.
Proof.
  unfold _extract_info_by_keywords. cbn [String.eqb Ascii.eqb Bool.eqb].
  intros H. unbind H. apply ret_inr in H.
  eexists _, a. split; [apply detect_operation_in|].
  split; [eapply findall_NUMBER_numbers, Ha|symmetry; exact H].
Qed.

(** The pattern mode fills no other slots than those of the intent. *)
Lemma from_match_slots intent groups user_input d :
  _extract_info_from_match intent groups user_input = inr d ->
  forall k, is_Some (d !! k) -> In k (known_slots intent).
Proof.
  intros H.
  destruct (String.eqb intent "calculate") eqn:E1.
  { apply String.eqb_eq in E1. subst intent.
    apply calculate_from_match in H as (op & numbers & _ & _ & ->).
    unfold calculation. keys. }
  unfold _extract_info_from_match in H. rewrite E1 in H.
  destruct (String.eqb intent "weather") eqn:E2.
  { apply String.eqb_eq in E2. subst intent.
    unbind H. apply ret_inr in H. subst d. keys. }
  destruct (String.eqb intent "book_flight") eqn:E3.
  { apply String.eqb_eq in E3. subst intent.
    destruct (Nat.leb 3 (length groups)).
    - unbind H. apply ret_inr in H. subst d. keys.
    - destruct (Nat.leb 2 (length groups)).
      + unbind H. apply ret_inr in H. subst d. keys.
      + apply ret_inr in H. subst d. keys. }
  destruct (String.eqb intent "send_email") eqn:E4.
  { apply String.eqb_eq in E4. subst intent.
    unbind H. apply ret_inr in H. subst d. keys. }
  destruct (String.eqb intent "search") eqn:E5.
  { apply String.eqb_eq in E5. subst intent.
    unbind H. apply ret_inr in H. subst d. keys. }
  destruct (String.eqb intent "schedule_meeting") eqn:E6.
  { apply String.eqb_eq in E6. subst intent.
    unbind H. apply ret_inr in H. subst d. keys. }
  apply ret_inr in H. subst d. keys.
Qed.

(** Take apart a computation of the keyword mode that returned. *)
Ltac unfold_run H :=
  repeat (unbind H;
          match type of H with
          | match ?x with Some _ => _ | None => _ end = inr _ => destruct x
          | match ?x with [] => _ | _ :: _ => _ end = inr _ => destruct x
          end).

Lemma date_slots user_input (extracted d : gmap string value) :
  (r <- first_match date_patterns user_input ;;
   match r with
   | Some mo =>
       date <- group_strip mo 1 ;;
       ret (<["date" := VStr date]> extracted)
   | None => ret extracted
   end) = inr d ->
  forall k, is_Some (d !! k) -> k = "date" \/ is_Some (extracted !! k).
Proof.
  intros H k Hk. unfold_run H; unbind H; apply ret_inr in H; subst d.
  - rewrite lookup_insert in Hk. case_decide; [left; congruence|].
    right. exact Hk.
  - right. exact Hk.
Qed.

(** The keyword mode fills no other slots than those of the intent. *)
Lemma by_keywords_slots intent user_input d :
  _extract_info_by_keywords intent user_input = inr d ->
  forall k, is_Some (d !! k) -> In k (known_slots intent).
Proof.
  intros H.
  destruct (String.eqb intent "calculate") eqn:E1.
  { apply String.eqb_eq in E1. subst intent.
    apply calculate_by_keywords in H as (op & numbers & _ & _ & ->).
    unfold calculation. keys. }
  unfold _extract_info_by_keywords in H. rewrite E1 in H.
  destruct (String.eqb intent "weather") eqn:E2.
  { apply String.eqb_eq in E2. subst intent.
    unfold_run H; unbind H; apply ret_inr in H; subst d; keys. }
  destruct (String.eqb intent "book_flight") eqn:E3.
  { apply String.eqb_eq in E3. subst intent.
    apply bind_inr in H as (m & _ & H).
    apply bind_inr in H as (extracted & He & H).
    intros k Hk. destruct (date_slots _ _ _ H k Hk) as [->|Hk'].
    - vm_compute. tauto.
    - revert k Hk' Hk. clear H.
      destruct m; unbind He; apply ret_inr in He; subst extracted;
        intros k Hk _; revert k Hk; keys. }
  destruct (String.eqb intent "send_email") eqn:E4.
  { apply String.eqb_eq in E4. subst intent.
    unfold_run H; unbind H; apply ret_inr in H; subst d; destruct a; keys. }
  destruct (String.eqb intent "search") eqn:E5.
  { apply String.eqb_eq in E5. subst intent.
    apply ret_inr in H. subst d. keys. }
  destruct (String.eqb intent "schedule_meeting") eqn:E6.
  { apply String.eqb_eq in E6. subst intent.
    apply bind_inr in H as (m & _ & H).
    apply bind_inr in H as (extracted & He & H).
    intros k Hk. destruct (date_slots _ _ _ H k Hk) as [->|Hk'].
    - vm_compute. tauto.
    - revert k Hk' Hk. clear H.
      destruct m; unbind He; apply ret_inr in He; subst extracted;
        intros k Hk _; revert k Hk; keys. }
  apply ret_inr in H. subst d. keys.
Qed.

(** One step of the pattern phase. *)
Lemma run_pairs_cons i p pairs user_input :
  run_pairs ((i, p) :: pairs) user_input =
  (m <- Re.search p user_input ;;
   match m with
   | Some mo =>
       info <- _extract_info_from_match i (Re.groups mo) user_input ;;
       ret (Some {| intent := i;
                    confidence := 9 # 10;
                    extracted_info := info;
                    raw_input := user_input;
                    detection_method := "pattern" |})
   | None => run_pairs pairs user_input
   end).
Proof. reflexivity. Qed.

(** Where the result of the pattern phase comes from. *)
Lemma run_pairs_source pairs user_input : forall c,
  run_pairs pairs user_input = inr (Some c) ->
  detection_method c = "pattern" /\
  confidence c = 9 # 10 /\
  raw_input c = user_input /\
  exists groups,
    _extract_info_from_match (intent c) groups user_input
    = inr (extracted_info c).
Proof.
  induction pairs as [|[i p] pairs IH]; intros c H.
  - discriminate H.
  - rewrite run_pairs_cons in H.
    apply bind_inr in H as (m & _ & H). destruct m as [mo|].
    + apply bind_inr in H as (info & Hi & H). apply ret_inr in H.
      injection H as <-.
      cbn [detection_method confidence raw_input intent extracted_info].
      split; [reflexivity|]. split; [reflexivity|]. split; [reflexivity|].
      exists (Re.groups mo). exact Hi.
    + apply IH, H.
Qed.

(** Where the result of [parse_intent] comes from: a pattern, the
    keywords, or the default. *)
Lemma parse_intent_source U c :
  parse_intent U = inr c ->
  raw_input c = normalize U /\
  ((detection_method c = "pattern" /\ confidence c = 9 # 10 /\
    exists groups,
      _extract_info_from_match (intent c) groups (normalize U)
      = inr (extracted_info c)) \/
   (detection_method c = "keywords" /\ confidence c = 7 # 10 /\
    _detect_intent_by_keywords (normalize U) = Some (intent c) /\
    _extract_info_by_keywords (intent c) (normalize U)
    = inr (extracted_info c)) \/
   (detection_method c = "default" /\ confidence c = 3 # 10 /\
    intent c = "search" /\
    extracted_info c = <["query" := VStr (normalize U)]> ∅)).
Proof.
  unfold parse_intent. fold (normalize U). rewrite match_intents_run.
  intros H. apply bind_inr in H as (r & Hr & H). destruct r as [c'|].
  - apply ret_inr in H. subst c'.
    apply run_pairs_source in Hr as (Hd & Hc & Hraw & Hg).
    split; [exact Hraw|]. left. split; [exact Hd|]. split; [exact Hc|exact Hg].
  - destruct (_detect_intent_by_keywords (normalize U)) as [k|] eqn:Hk.
    + destruct (String.eqb k "").
      * apply ret_inr in H. subst c.
        cbn [detection_method confidence raw_input intent extracted_info].
        split; [reflexivity|]. right. right. repeat split.
      * apply bind_inr in H as (info & Hi & H). apply ret_inr in H. subst c.
        cbn [detection_method confidence raw_input intent extracted_info].
        split; [reflexivity|]. right. left. repeat split. exact Hi.
    + apply ret_inr in H. subst c.
      cbn [detection_method confidence raw_input intent extracted_info].
      split; [reflexivity|]. right. right. repeat split.
Qed.

(** The slots [parse_intent] fills are slots of its intent. *)
Lemma parse_intent_slots U c :
  parse_intent U = inr c ->
  forall k, is_Some (extracted_info c !! k) -> In k (known_slots (intent c)).
Proof.
  intros H. apply parse_intent_source in H
    as (_ & [(_ & _ & groups & Hg)|[(_ & _ & _ & Hk)|(_ & _ & Hi & He)]]).
  - eapply from_match_slots, Hg.
  - eapply by_keywords_slots, Hk.
  - rewrite Hi, He. keys.
Qed.

(** What [process_input] is made of. *)
Lemma process_input_inv libm_pow complex_pow_overflows U r :
  process_input libm_pow complex_pow_overflows U = inr r ->
  input r = U /\
  parse_intent U = inr (intent_analysis r) /\
  missing_info r =
  check_missing_info (intent (intent_analysis r))
    (extracted_info (intent_analysis r)) /\
  ((missing_info r <> [] /\ action_taken r = "ask_for_info" /\
    result r =
    AskForInfo
      (_generate_missing_info_message (intent (intent_analysis r))
         (missing_info r))
      (missing_info r) (intent (intent_analysis r))) \/
   (missing_info r = [] /\ action_taken r = "call_api" /\
    exists endpoint,
      api_endpoints !! intent (intent_analysis r) = Some endpoint /\
      result r =
      _call_api libm_pow complex_pow_overflows endpoint
        (extracted_info (intent_analysis r)))).
Proof.
  unfold process_input. intros H.
  apply bind_inr in H as (c & Hc & H).
  destruct (parse_intent_total U) as (c' & Hc' & Hin).
  rewrite Hc in Hc'. injection Hc' as <-.
  unfold decide_action in H.
  destruct (check_missing_info (intent c) (extracted_info c))
    as [|f fs] eqn:Hm.
  - destruct (endpoint_of_intent _ Hin) as [endpoint He]. rewrite He in H.
    cbn [execute_action bind ret] in H. injection H as <-.
    cbn [input intent_analysis missing_info action_taken result action_value].
    split; [reflexivity|]. split; [exact Hc|]. split; [symmetry; exact Hm|].
    right. split; [reflexivity|]. split; [reflexivity|].
    exists endpoint. split; [exact He|reflexivity].
  - cbn [execute_action bind ret] in H. injection H as <-.
    cbn [input intent_analysis missing_info action_taken result action_value].
    split; [reflexivity|]. split; [exact Hc|]. split; [symmetry; exact Hm|].
    left. split; [discriminate|]. split; reflexivity.
Qed.

(** ** The requests of the classifier *)

Lemma operation_not_empty op : In op operations -> String.eqb op "" = false.
Proof.
  unfold operations. cbn [In]. intros H.
  repeat (destruct H as [<-|H]; [reflexivity|]). destruct H.
Qed.

(** The fields that are missing from the slots of a calculation. *)
Lemma check_missing_calculation op numbers :
  In op operations ->
  check_missing_info "calculate" (calculation op numbers) =
  match numbers with [] => ["numbers"] | _ => [] end.
Proof.
  intros Hop. unfold check_missing_info.
  replace (required_fields !! "calculate")
    with (Some ["operation"; "numbers"]) by (vm_compute; reflexivity).
  cbn [missing_loop]. unfold calculation.
  rewrite (lookup_insert_ne _ "numbers" "operation") by discriminate.
  rewrite !lookup_insert_eq. cbn [falsy].
  rewrite (operation_not_empty op Hop).
  destruct numbers; reflexivity.
Qed.

(** The slots of a request that is taken for a calculation. *)
Lemma calculate_slots U c :
  parse_intent U = inr c ->
  intent c = "calculate" ->
  exists op numbers,
    In op operations /\ Forall unsigned_number numbers /\
    extracted_info c = calculation op numbers.
Proof.
  intros H Hi.
  apply parse_intent_source in H
    as (_ & [(_ & _ & groups & Hg)|[(_ & _ & _ & Hk)|(_ & _ & Hs & _)]]).
  - rewrite Hi in Hg. eapply calculate_from_match, Hg.
  - rewrite Hi in Hk. eapply calculate_by_keywords, Hk.
  - rewrite Hi in Hs. discriminate Hs.
Qed.

(** X1. A request in ASCII characters that the classifier takes for a
    calculation has exactly two slots: an operation, which is one of the
    six of the calculator, and a list of numbers, each of which [float]
    reads as a number that is not below zero; so the operation is never
    missing, and the numbers are missing exactly when none was found.
    (Outside ASCII the digit class of [re] is wider than the one of the
    embedding, which is why the input is restricted.) *)
Theorem calculate_request (U : string) (c : Classification) :
  ascii_text U ->
  parse_intent U = inr c ->
  intent c = "calculate" ->
  exists op numbers,
    In op operations /\
    Forall unsigned_number numbers /\
    extracted_info c = calculation op numbers /\
    check_missing_info (intent c) (extracted_info c) =
    match numbers with [] => ["numbers"] | _ => [] end.
Proof.
  intros _ H Hi.
  destruct (calculate_slots U c H Hi) as (op & numbers & Hop & Hn & He).
  exists op, numbers. split; [exact Hop|]. split; [exact Hn|].
  split; [exact He|]. rewrite Hi, He.
  apply check_missing_calculation, Hop.
Qed.

Lemma calculate_request_witness :
  exists op numbers,
    In op operations /\
    Forall unsigned_number numbers /\
    calculation "multiply" ["6"; "7.5"] = calculation op numbers /\
    check_missing_info "calculate" (calculation "multiply" ["6"; "7.5"]) =
    match numbers with [] => ["numbers"] | _ => [] end.
Proof.
  apply (calculate_request "Multiply 6 by 7.5"
           {| intent := "calculate";
              confidence := 9 # 10;
              extracted_info := calculation "multiply" ["6"; "7.5"];
              raw_input := "multiply 6 by 7.5";
              detection_method := "pattern" |});
    [reflexivity|vm_compute; reflexivity|reflexivity].
Defined.

(** ** The answers of the calculator to the classifier *)

Lemma operands_of_numbers numbers :
  Forall unsigned_number numbers ->
  exists operands,
    Forall2 reads_as numbers operands /\
    Forall (fun x => ltb x zero = false) operands.
Proof.
  induction 1 as [|s numbers (x & Hx & Hpos) _ (operands & Hr & Hp)].
  - exists []. split; constructor.
  - exists (x :: operands). split; constructor; assumption.
Qed.

(** A power of two numbers that are not below zero is a float, or it
    overflows: it is not complex and no zero is divided by. *)
Lemma pow_unsigned libm_pow complex_pow_overflows v w :
  ltb v zero = false -> ltb w zero = false ->
  (exists x, pow libm_pow complex_pow_overflows v w = inr (Float x)) \/
  (exists msg, pow libm_pow complex_pow_overflows v w
               = inl (OverflowError msg)).
Proof.
  intros Hv Hw. unfold pow. rewrite Hv, Hw. cbn [andb].
  destruct (libm_pow (SFabs v) w) as [r erange].
  repeat first
    [ left; eexists; reflexivity
    | right; eexists; reflexivity
    | match goal with
      | |- context [if ?b then _ else _] => destruct b
      end ].
Qed.

Lemma quotient_total l : forall x,
  has_zero l = false -> exists r, quotient x l = inr r.
Proof.
  induction l as [|y l IH]; intros x H; cbn [quotient].
  - eexists. reflexivity.
  - unfold has_zero in H. cbn [existsb] in H.
    apply orb_false_iff in H as [Hy Hl].
    unfold div. rewrite eqb_zero, <- eq_int_zero, Hy. run.
    apply IH, Hl.
Qed.

(** The symbols of the six operations. *)
Lemma evaluate_unsigned libm_pow complex_pow_overflows op operands :
  In op operations -> operands <> [] ->
  Forall (fun x => ltb x zero = false) operands ->
  (exists message,
     In message reachable_errors /\
     evaluate libm_pow complex_pow_overflows (VStr op) operands
     = inr (inl message)) \/
  (exists x symbol,
     In symbol ["+"; "-"; "×"; "÷"; "^"; "√"] /\
     evaluate libm_pow complex_pow_overflows (VStr op) operands
     = inr (inr (Float x, symbol))) \/
  (exists msg,
     evaluate libm_pow complex_pow_overflows (VStr op) operands
     = inl (OverflowError msg)).
Proof.
  intros Hop Hne Hpos.
  destruct operands as [|x rest]; [contradiction|].
  unfold operations in Hop. cbn [In] in Hop.
  destruct Hop as [<-|[<-|[<-|[<-|[<-|[<-|[]]]]]]];
    unfold evaluate; cbn [value_eqb String.eqb Ascii.eqb Bool.eqb].
  - right. left. eexists _, _. split; [|reflexivity]. cbn [In]. tauto.
  - right. left. cbn [list_item nth_error tail]. run.
    unfold sum. destruct rest; cbn [minus]; eexists _, _;
      (split; [|reflexivity]); cbn [In]; tauto.
  - right. left. unfold product. cbn [fold_left]. rewrite product_float.
    eexists _, _. split; [|reflexivity]. cbn [In]. tauto.
  - cbn [tail]. destruct (has_zero rest) eqn:Hz.
    + left. eexists. split; [|reflexivity]. unfold reachable_errors.
      cbn [In]. tauto.
    + right. left. cbn [list_item nth_error]. run.
      destruct (quotient_total rest x Hz) as [r ->]. run.
      eexists _, _. split; [|reflexivity]. cbn [In]. tauto.
  - destruct (negb (Nat.eqb (length (x :: rest)) 2)) eqn:Hlen.
    + left. eexists. split; [|reflexivity]. unfold reachable_errors.
      cbn [In]. tauto.
    + destruct rest as [|y [|z rest]]; try discriminate Hlen.
      cbn [list_item nth_error]. run.
      inversion Hpos as [|? ? Hx Hrest]; subst.
      inversion Hrest as [|? ? Hy _]; subst.
      destruct (pow_unsigned libm_pow complex_pow_overflows x y Hx Hy)
        as [[r ->]|[msg ->]]; run.
      * right. left. eexists _, _. split; [|reflexivity]. cbn [In]. tauto.
      * right. right. eexists. reflexivity.
  - destruct (negb (Nat.eqb (length (x :: rest)) 1)) eqn:Hlen.
    + left. eexists. split; [|reflexivity]. unfold reachable_errors.
      cbn [In]. tauto.
    + cbn [list_item nth_error]. run.
      inversion Hpos as [|? ? Hx _]; subst. rewrite Hx.
      destruct (pow_unsigned libm_pow complex_pow_overflows x half Hx eq_refl)
        as [[r ->]|[msg ->]]; run.
      * right. left. eexists _, _. split; [|reflexivity]. cbn [In]. tauto.
      * right. right. eexists. reflexivity.
Qed.

(** *** No answer with a result begins like an error *)

Lemma digits_acc_not_empty fuel : forall z acc,
  acc <> [] -> digits_acc fuel z acc <> [].
Proof.
  induction fuel as [|fuel IH]; intros z acc H; cbn [digits_acc].
  - exact H.
  - destruct (z <? 10)%Z; [discriminate|apply IH; discriminate].
Qed.

(** The digits of a number: a first digit and more digits. *)
Lemma digits_head z :
  exists c t, digits z = c :: t /\ isdigit c = true.
Proof.
  assert (Hd : Forall (fun c => isdigit c = true) (digits z)).
  { unfold digits. apply digits_acc_digits. constructor. }
  assert (Hn : digits z <> []).
  { unfold digits. cbn [digits_acc].
    destruct (z <? 10)%Z; [discriminate|].
    apply digits_acc_not_empty. discriminate. }
  destruct (digits z) as [|c t]; [contradiction|].
  exists c, t. split; [reflexivity|]. inversion Hd; assumption.
Qed.

Lemma layout_head c t p :
  isdigit c = true ->
  exists c' t', layout (c :: t) p = c' :: t' /\ isdigit c' = true.
Proof.
  intros Hc. unfold layout.
  destruct ((p <? -3) || (16 <? p))%Z%bool.
  { destruct t; eexists _, _; (split; [reflexivity|exact Hc]). }
  destruct (p <=? 0)%Z eqn:Hp.
  { eexists _, _. split; reflexivity. }
  destruct (_ <=? p)%Z.
  { eexists _, _. split; [reflexivity|exact Hc]. }
  apply Z.leb_gt in Hp.
  destruct (Z.to_nat p) as [|n] eqn:E; [lia|].
  cbn [firstn app]. eexists _, _. split; [reflexivity|exact Hc].
Qed.

(** The text of a float begins with a digit, with a sign, or with the
    first letter of "inf" or "nan". *)
Lemma str_float_head x :
  exists c t, str_float x = String c t /\ c <> "E"%char.
Proof.
  destruct x as [s|s| |s m e]; cbn [str_float].
  - destruct s; eexists _, _; (split; [reflexivity|discriminate]).
  - destruct s; eexists _, _; (split; [reflexivity|discriminate]).
  - eexists _, _. split; [reflexivity|discriminate].
  - destruct (shortest _ _ _ _ _) as [d x10].
    destruct s.
    + eexists _, _. split; [reflexivity|discriminate].
    + destruct (digits_head (strip_zeros (length (digits d)) d))
        as (c & t & -> & Hc).
      destruct (layout_head c t (x10 + Z.of_nat (length (digits d))) Hc)
        as (c' & t' & -> & Hc').
      exists c', (of_chars t'). split; [reflexivity|].
      intros ->. discriminate Hc'.
Qed.

Lemma head_append c t s : String c t +:+ s = String c (t +:+ s).
Proof. reflexivity. Qed.

(** The text of the operands begins like the text of a float or with
    the sign of the root. *)
Lemma expression_head op symbol x rest :
  In symbol ["+"; "-"; "×"; "÷"; "^"; "√"] ->
  exists c t,
    expression (VStr op) symbol (x :: rest) = inr (String c t) /\
    c <> "E"%char.
Proof.
  intros Hs. unfold expression.
  destruct (value_eqb (VStr op) (VStr "sqrt")).
  - cbn [list_item nth_error]. run. cbn [In] in Hs.
    destruct Hs as [<-|[<-|[<-|[<-|[<-|[<-|[]]]]]]];
      eexists _, _; (split; [reflexivity|discriminate]).
  - run. cbn [map]. destruct (str_float_head x) as (c & t & E & Hc).
    destruct (map str_float rest) as [|y l]; cbn [join]; rewrite E.
    + exists c, t. split; [reflexivity|exact Hc].
    + rewrite head_append. eexists c, _. split; [reflexivity|exact Hc].
Qed.

Lemma not_an_error c t :
  c <> "E"%char -> startswith (String c t) "Error:" = false.
Proof.
  intros Hc. unfold startswith, chars.
  cbn [list_ascii_of_string starts_chars].
  destruct (Ascii.eqb_spec "E" c) as [E|_]; [|reflexivity].
  contradiction Hc. symmetry. exact E.
Qed.

(** The text of a float: the float is finite, or [int] raises. *)
Lemma render_float x :
  (exists text, render (Float x) = inr text) \/
  (exists msg, render (Float x) = inl (OverflowError msg)) \/
  render (Float x) = inl (ValueError "cannot convert float NaN to integer").
Proof.
  destruct x as [s|s| |s m e]; unfold render; cbn [int_of to_int]; run.
  - left. eexists. reflexivity.
  - right. left. eexists. reflexivity.
  - right. right. reflexivity.
  - left. eexists. reflexivity.
Qed.

(** The text the calculation answers to an operation of the six on
    numbers that are not below zero. *)
Lemma calculate_result_outcomes libm_pow complex_pow_overflows op numbers :
  In op operations -> Forall unsigned_number numbers -> numbers <> [] ->
  exists text,
    _calculate_result libm_pow complex_pow_overflows (calculation op numbers)
    = inr text /\
    (In text reachable_errors \/
     exists c t value,
       text = String c t +:+ " = " +:+ value /\ c <> "E"%char).
Proof.
  intros Hop Hn Hne. unfold _calculate_result.
  assert (E1 : calculation op numbers !! "operation" = Some (VStr op)).
  { unfold calculation.
    rewrite (lookup_insert_ne _ "numbers" "operation") by discriminate.
    apply lookup_insert_eq. }
  assert (E2 : calculation op numbers !! "numbers" = Some (VList numbers)).
  { unfold calculation. apply lookup_insert_eq. }
  rewrite E1, E2. cbn [default from_option id items].
  replace (falsy (VList numbers)) with false
    by (destruct numbers; [contradiction|reflexivity]).
  replace (if value_eqb (VStr op) (VStr "sqrt")
           then Nat.ltb (length numbers) 1 else false) with false
    by (destruct numbers; [contradiction|];
        destruct (value_eqb _ _); reflexivity).
  destruct (if value_eqb (VStr op) (VStr "sqrt") then false
            else Nat.ltb (length numbers) 2).
  { eexists. split; [reflexivity|]. left. unfold reachable_errors.
    cbn [In]. tauto. }
  destruct (Nat.ltb 10 (length numbers)).
  { eexists. split; [reflexivity|]. left. unfold reachable_errors.
    cbn [In]. tauto. }
  destruct (operands_of_numbers numbers Hn) as (operands & Hr & Hpos).
  unfold calculate. rewrite (convert_reads numbers operands Hr). run.
  cbn [app].
  assert (Ho : operands <> []).
  { intros ->. inversion Hr; subst. contradiction. }
  destruct (evaluate_unsigned libm_pow complex_pow_overflows op operands
              Hop Ho Hpos)
    as [(message & Hin & ->)|[(x & symbol & Hs & ->)|(msg & ->)]]; run.
  - eexists. split; [reflexivity|]. left. exact Hin.
  - destruct operands as [|o operands]; [contradiction|].
    destruct (expression_head op symbol o operands Hs) as (c & t & -> & Hc).
    run.
    destruct (render_float x) as [(text & ->)|[(msg & ->)| ->]]; run.
    + eexists. split; [reflexivity|]. right. eexists c, t, text.
      split; [reflexivity|exact Hc].
    + eexists. split; [reflexivity|]. left. unfold reachable_errors.
      cbn [In]. tauto.
    + eexists. split; [reflexivity|]. left. unfold reachable_errors.
      cbn [In]. tauto.
  - eexists. split; [reflexivity|]. left. unfold reachable_errors.
    cbn [In]. tauto.
Qed.

(** What the calculator answers to an operation of the six on numbers
    that are not below zero. *)
Lemma calculator_outcomes libm_pow complex_pow_overflows op numbers :
  In op operations -> Forall unsigned_number numbers -> numbers <> [] ->
  (exists text,
     In text reachable_errors /\
     _call_calculator_api libm_pow complex_pow_overflows
       (calculation op numbers) =
     ApiResponse "calculator" text "error" (Some "calculation_error")
       (Some (calculation op numbers))) \/
  (exists expr value,
     _call_calculator_api libm_pow complex_pow_overflows
       (calculation op numbers) =
     ApiResponse "calculator" (expr +:+ " = " +:+ value) "success" None
       (Some (calculation op numbers))).
Proof.
  intros Hop Hn Hne.
  destruct (calculate_result_outcomes libm_pow complex_pow_overflows
              op numbers Hop Hn Hne)
    as (text & Hres & [Hin|(c & t & value & -> & Hc)]).
  - left. exists text. split; [exact Hin|].
    apply error_reported; [exact Hres|].
    unfold reachable_errors in Hin. cbn [In] in Hin.
    repeat (destruct Hin as [<-|Hin]; [reflexivity|]). destruct Hin.
  - right. exists (String c t), value.
    unfold _call_calculator_api. rewrite Hres.
    rewrite head_append, (not_an_error c _ Hc). reflexivity.
Qed.

(** X2. What [process_input] answers to an input that the classifier
    takes for a calculation. When no number was found, it asks for the
    numbers. Otherwise it calls the calculator, whose answer is either
    a result, "<operands> = <value>" with the status "success", or one
    of seven calculation errors: fewer than two numbers, more than ten,
    a division by zero, a power without exactly two numbers, a square
    root without exactly one, a result that is too large, and a result
    that is not a number. The other answers of [_calculate_result] do
    not occur: the operation is known, every number is read by [float]
    and none is below zero. *)
Theorem calculate_answers libm_pow complex_pow_overflows (U : string) :
  exists r,
    process_input libm_pow complex_pow_overflows U = inr r /\
    (intent (intent_analysis r) = "calculate" ->
     (missing_info r = ["numbers"] /\
      action_taken r = "ask_for_info" /\
      result r =
      AskForInfo
        "I need to know what numbers you want to calculate with. What numbers would you like to calculate with?"
        ["numbers"] "calculate") \/
     (missing_info r = [] /\
      action_taken r = "call_api" /\
      ((exists text,
          In text reachable_errors /\
          result r =
          ApiResponse "calculator" text "error" (Some "calculation_error")
            (Some (extracted_info (intent_analysis r)))) \/
       (exists expr value,
          result r =
          ApiResponse "calculator" (expr +:+ " = " +:+ value) "success" None
            (Some (extracted_info (intent_analysis r))))))).
Proof.
  destruct (process_input_shape libm_pow complex_pow_overflows U)
    as (r & Hr & _). exists r. split; [exact Hr|]. intros Hi.
  apply process_input_inv in Hr as (_ & Hp & Hm & Hres).
  destruct (calculate_slots U _ Hp Hi) as (op & numbers & Hop & Hn & He).
  rewrite Hi, He, (check_missing_calculation op numbers Hop) in Hm.
  destruct numbers as [|n numbers].
  - left. destruct Hres as [(_ & Ha & Hres)|(Hnone & _)].
    + split; [exact Hm|]. split; [exact Ha|].
      rewrite Hres, Hm, Hi. reflexivity.
    + rewrite Hm in Hnone. discriminate Hnone.
  - right. destruct Hres as [(Hsome & _)|(_ & Ha & endpoint & Hep & Hres)].
    + contradiction.
    + split; [exact Hm|]. split; [exact Ha|].
      rewrite Hi in Hep. vm_compute in Hep. injection Hep as <-.
      rewrite Hres. unfold _call_api.
      cbn [String.eqb Ascii.eqb Bool.eqb]. rewrite He.
      apply calculator_outcomes; [exact Hop|exact Hn|discriminate].
Qed.

(** ** The endpoints *)

(** The endpoints of the table, one by one. *)
Lemma endpoint_cases i e :
  api_endpoints !! i = Some e ->
  In (i, e)
    [("calculate", "calculator_api"); ("weather", "weather_api");
     ("book_flight", "flight_booking_api"); ("send_email", "email_api");
     ("search", "search_api"); ("schedule_meeting", "calendar_api")].
Proof.
  intros H. apply list_elem_of_In.
  apply (elem_of_list_to_map_2 (M := gmap string)) in H. exact H.
Qed.

(** The name in the answer of an endpoint of the table. *)
Lemma call_api_name libm_pow complex_pow_overflows i e data :
  api_endpoints !! i = Some e ->
  exists name,
    e = name +:+ "_api" /\
    endpoint_name (_call_api libm_pow complex_pow_overflows e data)
    = Some name.
Proof.
  intros H. apply endpoint_cases in H. cbn [In] in H.
  destruct H as [H|[H|[H|[H|[H|[H|[]]]]]]]; injection H as <- <-.
  - exists "calculator". split; [reflexivity|].
    unfold _call_api. cbn [String.eqb Ascii.eqb Bool.eqb].
    destruct (_call_calculator_api_shape libm_pow complex_pow_overflows data)
      as (text & _ & [-> | ->]); reflexivity.
  - exists "weather". split; reflexivity.
  - exists "flight_booking". split; reflexivity.
  - exists "email". split; reflexivity.
  - exists "search". split; reflexivity.
  - exists "calendar". split; reflexivity.
Qed.

(** X3. The answer of [_call_api] names the endpoint: for the endpoint
    of an intent, which is called "<name>_api", the answer names
    "<name>"; any other endpoint gets the general answer "API call
    completed" under its own name, with the status "success". *)
Theorem endpoint_answers libm_pow complex_pow_overflows
    (e : string) (data : gmap string value) :
  (forall i,
     api_endpoints !! i = Some e ->
     exists name,
       e = name +:+ "_api" /\
       endpoint_name (_call_api libm_pow complex_pow_overflows e data)
       = Some name) /\
  ((forall i, api_endpoints !! i <> Some e) ->
   _call_api libm_pow complex_pow_overflows e data =
   ApiResponse e "API call completed" "success" None None).
Proof.
  split.
  - intros i Hi. eapply call_api_name, Hi.
  - intros Hno. unfold _call_api.
    destruct (String.eqb_spec e "calculator_api") as [->|H1].
    { exfalso. apply (Hno "calculate"). reflexivity. }
    replace (api_responses data !! e) with (@None ExecutionResult);
      [reflexivity|].
    symmetry. unfold api_responses.
    apply (not_elem_of_list_to_map_1 (M := gmap string)).
    cbn [fmap list_fmap fst]. intros Hin. apply list_elem_of_In in Hin.
    cbn [In] in Hin.
    destruct Hin as [<-|[<-|[<-|[<-|[<-|[]]]]]].
    + apply (Hno "weather"). reflexivity.
    + apply (Hno "book_flight"). reflexivity.
    + apply (Hno "send_email"). reflexivity.
    + apply (Hno "search"). reflexivity.
    + apply (Hno "schedule_meeting"). reflexivity.
Qed.

(** ** Intents that are never complete *)

(** A required field that is not among the slots is missing. *)
Lemma missing_absent I required (S : gmap string value) f :
  required_fields !! I = Some required -> In f required ->
  S !! f = None -> In f (check_missing_info I S).
Proof.
  intros Hr Hf Hs. unfold check_missing_info. rewrite Hr.
  rewrite missing_loop_filter. cbn [app].
  apply filter_In. split; [exact Hf|].
  unfold is_missing. rewrite Hs. reflexivity.
Qed.

(** X4. An email and a meeting are never complete: no extraction gives
    the message of an email or the duration of a meeting, which are
    required, so [process_input] always asks for information when the
    intent is "send_email" or "schedule_meeting", and no answer comes
    from the endpoints "email" and "calendar". *)
Theorem email_and_meeting_always_ask libm_pow complex_pow_overflows
    (U : string) :
  exists r,
    process_input libm_pow complex_pow_overflows U = inr r /\
    (intent (intent_analysis r) = "send_email" ->
     In "message" (missing_info r) /\ action_taken r = "ask_for_info") /\
    (intent (intent_analysis r) = "schedule_meeting" ->
     In "duration" (missing_info r) /\ action_taken r = "ask_for_info") /\
    endpoint_name (result r) <> Some "email" /\
    endpoint_name (result r) <> Some "calendar".
Proof.
  destruct (process_input_shape libm_pow complex_pow_overflows U)
    as (r & Hr & _). exists r. split; [exact Hr|].
  apply process_input_inv in Hr as (_ & Hp & Hm & Hres).
  pose proof (parse_intent_slots U _ Hp) as Hslots.
  assert (Habsent : forall f,
    ~ In f (known_slots (intent (intent_analysis r))) ->
    extracted_info (intent_analysis r) !! f = None).
  { intros f Hf.
    destruct (extracted_info (intent_analysis r) !! f) as [v|] eqn:E;
      [|reflexivity].
    exfalso. apply Hf, Hslots. rewrite E. eexists. reflexivity. }
  assert (Hask : missing_info r <> [] -> action_taken r = "ask_for_info").
  { intros Hne. destruct Hres as [(_ & Ha & _)|(Hnone & _)];
      [exact Ha|contradiction]. }
  assert (Hemail : intent (intent_analysis r) = "send_email" ->
                   In "message" (missing_info r)).
  { intros Hi. rewrite Hm.
    eapply (missing_absent _ ["recipient"; "subject"; "message"]).
    - rewrite Hi. reflexivity.
    - cbn [In]. tauto.
    - apply Habsent. rewrite Hi. vm_compute. intuition discriminate. }
  assert (Hmeet : intent (intent_analysis r) = "schedule_meeting" ->
                  In "duration" (missing_info r)).
  { intros Hi. rewrite Hm.
    eapply (missing_absent _ ["participants"; "date"; "duration"]).
    - rewrite Hi. reflexivity.
    - cbn [In]. tauto.
    - apply Habsent. rewrite Hi. vm_compute. intuition discriminate. }
  assert (Hin : forall f, In f (missing_info r) -> missing_info r <> []).
  { intros f Hf E. rewrite E in Hf. destruct Hf. }
  split; [|split; [|split]].
  - intros Hi. split; [apply Hemail, Hi|]. eapply Hask, Hin, Hemail, Hi.
  - intros Hi. split; [apply Hmeet, Hi|]. eapply Hask, Hin, Hmeet, Hi.
  - destruct Hres as [(_ & _ & ->)|(Hnone & _ & e & He & ->)];
      [discriminate|].
    destruct (call_api_name libm_pow complex_pow_overflows _ e
                (extracted_info (intent_analysis r)) He) as (name & -> & ->).
    intros E. injection E as ->.
    apply endpoint_cases in He. cbn [In] in He.
    destruct He as [He|[He|[He|[He|[He|[He|[]]]]]]];
      try discriminate He.
    injection He as He. symmetry in He.
    eapply Hin; [apply Hemail, He|exact Hnone].
  - destruct Hres as [(_ & _ & ->)|(Hnone & _ & e & He & ->)];
      [discriminate|].
    destruct (call_api_name libm_pow complex_pow_overflows _ e
                (extracted_info (intent_analysis r)) He) as (name & -> & ->).
    intros E. injection E as ->.
    apply endpoint_cases in He. cbn [In] in He.
    destruct He as [He|[He|[He|[He|[He|[He|[]]]]]]];
      try discriminate He.
    injection He as He. symmetry in He.
    eapply Hin; [apply Hmeet, He|exact Hnone].
Qed.

(** ** The requests for information *)

Lemma intent_message i :
  In i intents -> exists base, intent_messages !! i = Some base.
Proof.
  unfold intents. cbn [In]. intros H.
  repeat (destruct H as [<-|H]; [eexists; reflexivity|]). destruct H.
Qed.

(** Every field that can be missing has its question. *)
Lemma missing_question i (S : gmap string value) f :
  In i intents -> In f (check_missing_info i S) ->
  exists question, field_messages !! f = Some question.
Proof.
  unfold intents, check_missing_info. cbn [In]. intros Hi Hf.
  repeat (destruct Hi as [<-|Hi];
    [destruct (required_fields !! _) as [req|] eqn:E; vm_compute in E;
       [injection E as <-|discriminate E];
     rewrite missing_loop_filter in Hf; apply filter_In in Hf as [Hf _];
     cbn [In] in Hf;
     repeat (destruct Hf as [<-|Hf]; [eexists; reflexivity|]);
     destruct Hf|]).
  destruct Hi.
Qed.

(** X5. The message of a request for information: it begins with the
    sentence of the intent, and when exactly one field is missing the
    question of that field follows; the general sentences "I need more
    information to help you." and "Please provide <field>." are never
    used, because the intent is one of the six and a missing field is one
    of their required fields. *)
Theorem ask_message libm_pow complex_pow_overflows (U : string) :
  exists r,
    process_input libm_pow complex_pow_overflows U = inr r /\
    (missing_info r <> [] ->
     exists base response,
       intent_messages !! intent (intent_analysis r) = Some base /\
       result r =
       AskForInfo response (missing_info r) (intent (intent_analysis r)) /\
       (forall f,
          missing_info r = [f] ->
          exists question,
            field_messages !! f = Some question /\
            response = base +:+ " " +:+ question) /\
       (2 <= length (missing_info r) -> response = base)).
Proof.
  destruct (process_input_shape libm_pow complex_pow_overflows U)
    as (r & Hr & Hin & _). exists r. split; [exact Hr|]. intros Hne.
  apply process_input_inv in Hr as (_ & _ & Hm & Hres).
  destruct Hres as [(_ & _ & Hres)|(Hnone & _)]; [|contradiction].
  destruct (intent_message _ Hin) as [base Hb].
  exists base. eexists. split; [exact Hb|]. split; [exact Hres|].
  unfold _generate_missing_info_message. rewrite Hb.
  cbn [default from_option id]. split.
  - intros f Hf.
    destruct (missing_question (intent (intent_analysis r))
                (extracted_info (intent_analysis r)) f Hin) as [q Hq].
    { rewrite <- Hm, Hf. left. reflexivity. }
    exists q. split; [exact Hq|]. rewrite Hf, Hq. reflexivity.
  - intros Hlen. destruct (missing_info r) as [|f [|g l]];
      cbn [length] in Hlen; try lia. reflexivity.
Qed.

(** ** The choice of an action and its execution *)

(** X6. For every intent, list of missing fields and slots, the action
    that [decide_action] chooses is executed without an exception:
    [execute_action] finds the keys it reads in the dictionary of the
    action. With missing fields the result is the request for them; with
    none and an endpoint for the intent, the answer of the endpoint; with
    none and no endpoint, the direct answer "I understand you want to
    <intent>. Let me help you with that." (the sentence about a search is
    never used, since "search" has an endpoint). *)
Theorem decide_and_execute libm_pow complex_pow_overflows
    (I : string) (missing : list string) (S : gmap string value) :
  (missing <> [] ->
   fst (decide_action I missing S) = ASK_FOR_INFO /\
   execute_action libm_pow complex_pow_overflows
     (fst (decide_action I missing S)) (snd (decide_action I missing S)) =
   inr (AskForInfo (_generate_missing_info_message I missing) missing I)) /\
  (missing = [] ->
   forall e,
     api_endpoints !! I = Some e ->
     fst (decide_action I missing S) = CALL_API /\
     execute_action libm_pow complex_pow_overflows
       (fst (decide_action I missing S)) (snd (decide_action I missing S)) =
     inr (_call_api libm_pow complex_pow_overflows e S)) /\
  (missing = [] ->
   api_endpoints !! I = None ->
   fst (decide_action I missing S) = ANSWER_DIRECTLY /\
   execute_action libm_pow complex_pow_overflows
     (fst (decide_action I missing S)) (snd (decide_action I missing S)) =
   inr (DirectAnswer
          ("I understand you want to " +:+ I +:+ ". Let me help you with that.")
          I)).
Proof.
  unfold decide_action. split; [|split].
  - intros Hne. destruct missing as [|f fs]; [contradiction|].
    split; reflexivity.
  - intros -> e ->. split; reflexivity.
  - intros -> Hnone. rewrite Hnone. cbn [fst snd execute_action].
    split; [reflexivity|]. unfold _generate_direct_answer.
    destruct (String.eqb_spec I "search") as [->|_]; [|reflexivity].
    discriminate Hnone.
Qed.

(** ** Filling a slot *)

Lemma is_missing_insert (S : gmap string value) f v x :
  falsy v = false ->
  is_missing (<[f := v]> S) x =
  (negb (String.eqb x f) && is_missing S x)%bool.
Proof.
  intros Hv. unfold is_missing.
  destruct (String.eqb_spec x f) as [->|Hne]; cbn [negb andb].
  - rewrite lookup_insert_eq. destruct v as [s|l]; [exact Hv|].
    destruct l; [discriminate Hv|reflexivity].
  - rewrite lookup_insert_ne by congruence. reflexivity.
Qed.

(** X7. Filling a slot with a value that is not empty removes its field
    from the missing fields and changes nothing else: the other fields
    stay missing or present as they were, in the same order. *)
Theorem filling_a_slot (I : string) (S : gmap string value)
    (f : string) (v : value) :
  falsy v = false ->
  check_missing_info I (<[f := v]> S) =
  List.filter (fun x => negb (String.eqb x f)) (check_missing_info I S).
Proof.
  intros Hv. unfold check_missing_info.
  destruct (required_fields !! I) as [required|]; [|reflexivity].
  rewrite !missing_loop_filter. cbn [app].
  induction required as [|x required IH]; [reflexivity|].
  cbn [List.filter]. rewrite (is_missing_insert S f v x Hv), IH.
  destruct (is_missing S x); cbn [List.filter];
    destruct (negb (String.eqb x f)); reflexivity.
Qed.

Lemma filling_a_slot_witness :
  check_missing_info "book_flight"
    (<["destination" := VStr "rome"]> (<["origin" := VStr ""]> ∅)) =
  List.filter (fun x => negb (String.eqb x "destination"))
    (check_missing_info "book_flight" (<["origin" := VStr ""]> ∅)).
Proof.
  apply (filling_a_slot "book_flight" (<["origin" := VStr ""]> ∅)
           "destination" (VStr "rome")).
  reflexivity.
Defined.

(** ** An input without text *)

Lemma lower_space c : isspace c = true -> lower_char c = c.
Proof.
  destruct c as [[] [] [] [] [] [] [] []]; intros H;
    first [reflexivity|discriminate H].
Qed.

Lemma lstrip_spaces l :
  Forall (fun c => isspace c = true) l -> lstrip_chars l = [].
Proof.
  induction 1 as [|c l Hc _ IH]; cbn [lstrip_chars]; [reflexivity|].
  rewrite Hc. exact IH.
Qed.

Lemma normalize_spaces U :
  Forall (fun c => isspace c = true) (chars U) -> normalize U = "".
Proof.
  intros H. unfold normalize, strip, lower, strip_chars.
  rewrite chars_of_chars.
  replace (map lower_char (chars U)) with (chars U).
  - rewrite (lstrip_spaces _ H). reflexivity.
  - induction H as [|c l Hc _ IH]; cbn [map]; [reflexivity|].
    rewrite (lower_space c Hc), <- IH. reflexivity.
Qed.

(** The whitespace of the embedding is the whitespace of ASCII. *)
Lemma isspace_whitespace c : isspace c = true <-> In c ascii_whitespace.
Proof.
  split.
  - destruct c as [[] [] [] [] [] [] [] []]; intros H;
      first [discriminate H|unfold ascii_whitespace; cbn [In]; tauto].
  - unfold ascii_whitespace. cbn [In]. intros H.
    repeat (destruct H as [<-|H]; [reflexivity|]). destruct H.
Qed.

(** X8. An input without text, empty or made only of the whitespace
    characters of ASCII (tab, line feed, vertical tab, form feed,
    carriage return, the four separators 0x1c to 0x1f and the space), is
    taken for a search by default with an empty query, which is missing:
    the controller asks what to search for and calls no endpoint. The
    whitespace characters outside ASCII are not covered. *)
Theorem blank_input libm_pow complex_pow_overflows (U : string) :
  Forall (fun c => In c ascii_whitespace) (chars U) ->
  process_input libm_pow complex_pow_overflows U =
  inr {| input := U;
         intent_analysis :=
           {| intent := "search";
              confidence := 3 # 10;
              extracted_info := <["query" := VStr ""]> ∅;
              raw_input := "";
              detection_method := "default" |};
         missing_info := ["query"];
         action_taken := "ask_for_info";
         result :=
           AskForInfo
             "I need to know what you want to search for. What would you like to search for?"
             ["query"] "search" |}.
Proof.
  intros H.
  assert (Hs : Forall (fun c => isspace c = true) (chars U)).
  { eapply Forall_impl; [exact H|]. intros c Hc. apply isspace_whitespace, Hc. }
  clear H. apply normalize_spaces in Hs as H.
  assert (Hp : parse_intent U =
               inr {| intent := "search";
                      confidence := 3 # 10;
                      extracted_info := <["query" := VStr ""]> ∅;
                      raw_input := "";
                      detection_method := "default" |}).
  { unfold parse_intent. fold (normalize U). rewrite H.
    vm_compute. reflexivity. }
  unfold process_input. rewrite Hp. reflexivity.
Qed.

Lemma blank_input_witness :
  exists r,
    process_input unused_pow unused_complex_pow
      (String " " (String "009" (String "028" " "))) = inr r /\
    missing_info r = ["query"].
Proof.
  eexists. split.
  - apply (blank_input unused_pow unused_complex_pow
             (String " " (String "009" (String "028" " ")))).
    repeat (apply List.Forall_cons;
            [unfold ascii_whitespace; cbn [In]; tauto|]).
    apply List.Forall_nil.
  - reflexivity.
Defined.

(** ** The normal form of an input *)

Lemma lower_char_lower c : lower_char (lower_char c) = lower_char c.
Proof. destruct c as [[] [] [] [] [] [] [] []]; reflexivity. Qed.

Lemma isspace_lower c : isspace (lower_char c) = isspace c.
Proof. destruct c as [[] [] [] [] [] [] [] []]; reflexivity. Qed.

Lemma lstrip_lower l :
  lstrip_chars (map lower_char l) = map lower_char (lstrip_chars l).
Proof.
  induction l as [|c l IH]; cbn [map lstrip_chars]; [reflexivity|].
  rewrite isspace_lower. destruct (isspace c); [exact IH|reflexivity].
Qed.

Lemma strip_lower l :
  strip_chars (map lower_char l) = map lower_char (strip_chars l).
Proof.
  unfold strip_chars.
  rewrite lstrip_lower, <- map_rev, lstrip_lower, <- map_rev. reflexivity.
Qed.

(** What [lstrip_chars] leaves does not begin with a space. *)
Lemma lstrip_head l :
  match lstrip_chars l with
  | [] => True
  | c :: _ => isspace c = false
  end.
Proof.
  induction l as [|c l IH]; cbn [lstrip_chars]; [exact I|].
  destruct (isspace c) eqn:E; [exact IH|exact E].
Qed.

Lemma lstrip_kept l :
  match l with
  | [] => True
  | c :: _ => isspace c = false
  end -> lstrip_chars l = l.
Proof.
  destruct l as [|c l]; cbn [lstrip_chars]; [reflexivity|].
  intros ->. reflexivity.
Qed.

(** A text that ends with a character that is not a space keeps it. *)
Lemma lstrip_last l c :
  isspace c = false -> exists l', lstrip_chars (l ++ [c]) = l' ++ [c].
Proof.
  intros Hc. induction l as [|d l IH]; cbn [app lstrip_chars].
  - rewrite Hc. exists []. reflexivity.
  - destruct (isspace d); [exact IH|]. exists (d :: l). reflexivity.
Qed.

Lemma strip_strip l : strip_chars (strip_chars l) = strip_chars l.
Proof.
  unfold strip_chars. pose proof (lstrip_head l) as Hhead.
  destruct (lstrip_chars l) as [|c m]; [reflexivity|].
  cbn [rev]. destruct (lstrip_last (rev m) c Hhead) as [l' E].
  assert (Hkept : lstrip_chars (l' ++ [c]) = l' ++ [c]).
  { rewrite <- E. apply lstrip_kept, lstrip_head. }
  rewrite E, rev_app_distr. cbn [rev app lstrip_chars]. rewrite Hhead.
  cbn [rev]. rewrite rev_involutive, Hkept, rev_app_distr. reflexivity.
Qed.

Lemma normalize_normalize U : normalize (normalize U) = normalize U.
Proof.
  unfold normalize, strip, lower. rewrite !chars_of_chars.
  rewrite <- strip_lower, map_map.
  rewrite (map_ext (fun c => lower_char (lower_char c)) lower_char
             lower_char_lower).
  rewrite strip_strip. reflexivity.
Qed.

(** X9. For an input of ASCII characters, the classifier works on the
    normal form of the input, in lower case and without whitespace
    around it, and that form is stable: the classification of the normal
    form of an input is the classification of the input, and the raw
    input of a classification is its own normal form. (Outside ASCII
    [str.lower] and [str.strip] do more than the embedding, which is why
    the input is restricted.) *)
Theorem classification_of_normal_form (U : string) :
  ascii_text U ->
  normalize (normalize U) = normalize U /\
  parse_intent (normalize U) = parse_intent U /\
  (forall c, parse_intent U = inr c ->
             raw_input c = normalize U /\
             parse_intent (raw_input c) = inr c).
Proof.
  intros _.
  assert (Hp : parse_intent (normalize U) = parse_intent U).
  { unfold parse_intent.
    change (strip (lower (normalize U))) with (normalize (normalize U)).
    rewrite normalize_normalize. reflexivity. }
  split; [apply normalize_normalize|]. split; [exact Hp|].
  intros c Hc. pose proof (parse_intent_source U c Hc) as [Hraw _].
  split; [exact Hraw|]. rewrite Hraw, Hp. exact Hc.
Qed.

Lemma classification_of_normal_form_witness :
  normalize (normalize "  What is the WEATHER in Paris ")
  = normalize "  What is the WEATHER in Paris " /\
  raw_input
    {| intent := "weather";
       confidence := 9 # 10;
       extracted_info := <["location" := VStr "paris"]> ∅;
       raw_input := "what is the weather in paris";
       detection_method := "pattern" |}
  = normalize "  What is the WEATHER in Paris ".
Proof.
  destruct (classification_of_normal_form
              "  What is the WEATHER in Paris " eq_refl) as (Hn & _ & Hc).
  split; [exact Hn|].
  apply (Hc {| intent := "weather";
               confidence := 9 # 10;
               extracted_info := <["location" := VStr "paris"]> ∅;
               raw_input := "what is the weather in paris";
               detection_method := "pattern" |}).
  vm_compute. reflexivity.
Defined.

(** ** What a detection by keywords tells *)

(** The entry [max_entry] returns is the first with the greatest
    score. *)
Lemma max_entry_split entries : forall best,
  exists before after,
    best :: entries = before ++ max_entry best entries :: after /\
    Forall (fun x => (snd x < snd (max_entry best entries))%Q) before /\
    Forall (fun x => (snd x <= snd (max_entry best entries))%Q) after.
Proof.
  induction entries as [|x rest IH]; intros best; cbn [max_entry].
  - exists [], []. repeat split; constructor.
  - destruct (Qlt_le_dec (snd best) (snd x)) as [Hlt|Hle].
    + destruct (IH x) as (before & after & E & Hb & Ha).
      exists (best :: before), after. split; [cbn [app]; rewrite E; reflexivity|].
      split; [|exact Ha]. constructor; [|exact Hb].
      eapply Qlt_le_trans; [exact Hlt|].
      destruct before as [|y before]; cbn [app] in E.
      * injection E as E _. rewrite <- E. apply Qle_refl.
      * injection E as E _. subst y. inversion Hb; subst.
        apply Qlt_le_weak. assumption.
    + destruct (IH best) as (before & after & E & Hb & Ha).
      destruct before as [|y before]; cbn [app] in E.
      * injection E as E E'. exists [], (x :: after).
        split; [cbn [app]; rewrite <- E, <- E'; reflexivity|].
        split; [constructor|]. constructor; [|exact Ha].
        rewrite <- E. exact Hle.
      * injection E as E E'. subst y.
        exists (best :: x :: before), after.
        split; [cbn [app]; do 2 f_equal; exact E'|].
        split; [|exact Ha].
        inversion Hb as [|? ? Hbest Hrest]; subst.
        constructor; [exact Hbest|]. constructor; [|exact Hrest].
        eapply Qle_lt_trans; [exact Hle|exact Hbest].
Qed.

(** A positive score comes from a keyword that occurs in the input. *)
Lemma score_sum_positive keywords user_input :
  (0 < score_sum keywords user_input)%Q ->
  exists keyword, In keyword keywords /\ contains keyword user_input = true.
Proof.
  induction keywords as [|k rest IH]; cbn [score_sum]; intros H.
  - discriminate H.
  - destruct (contains k user_input) eqn:E.
    + exists k. split; [left; reflexivity|exact E].
    + cbn [andb] in H. rewrite !Qplus_0_l in H.
      destruct (IH H) as (kw & Hin & Hc).
      exists kw. split; [right; exact Hin|exact Hc].
Qed.

Lemma detect_by_keywords_inv table user_input k :
  detect_by_keywords table user_input = Some k ->
  exists before keywords after,
    table = before ++ (k, keywords) :: after /\
    Forall (fun e => (score_sum (snd e) user_input <
                      score_sum keywords user_input)%Q) before /\
    Forall (fun e => (score_sum (snd e) user_input <=
                      score_sum keywords user_input)%Q) after /\
    (0 < score_sum keywords user_input)%Q.
Proof.
  unfold detect_by_keywords.
  set (f := fun e : string * list string =>
              (fst e, keyword_score (snd e) user_input (split user_input) 0)).
  assert (Hf : forall e, (snd (f e) == score_sum (snd e) user_input)%Q).
  { intros e. unfold f. cbn [snd]. rewrite keyword_score_sum. ring. }
  destruct table as [|first rest]; cbn [map]; [discriminate|].
  destruct (max_entry_split (map f rest) (f first))
    as (before & after & E & Hb & Ha).
  destruct (Qlt_le_dec 0 (snd (max_entry (f first) (map f rest))))
    as [Hpos|_]; [|discriminate].
  intros Hk. injection Hk as Hk.
  change (f first :: map f rest) with (map f (first :: rest)) in E.
  apply map_eq_app in E as (before' & tail & Et & Eb & E).
  destruct tail as [|e after']; [discriminate E|].
  cbn [map] in E. injection E as Ee Ea.
  destruct e as [k' keywords].
  assert (Hk' : k' = k).
  { rewrite <- Hk, <- Ee. reflexivity. }
  subst k'. exists before', keywords, after'.
  split; [exact Et|].
  rewrite <- Ee in Hb, Ha, Hpos. rewrite Hf in Hpos. cbn [snd] in Hpos.
  split; [|split; [|exact Hpos]].
  - subst before. apply List.Forall_forall. intros x Hx.
    rewrite List.Forall_forall in Hb.
    specialize (Hb (f x) (in_map f _ _ Hx)). rewrite !Hf in Hb. exact Hb.
  - subst after. apply List.Forall_forall. intros x Hx.
    rewrite List.Forall_forall in Ha.
    specialize (Ha (f x) (in_map f _ _ Hx)). rewrite !Hf in Ha. exact Ha.
Qed.

(** X10. What a detection by keywords tells: the intent that
    [_detect_intent_by_keywords] returns is the first one of the table
    with the greatest score, that score is positive, and so one of the
    keywords of the intent occurs in the input. *)
Theorem detected_by_keywords (u k : string) :
  _detect_intent_by_keywords u = Some k ->
  exists before keywords after,
    intent_keywords = before ++ (k, keywords) :: after /\
    Forall (fun e => (score_sum (snd e) u < score_sum keywords u)%Q) before /\
    Forall (fun e => (score_sum (snd e) u <= score_sum keywords u)%Q) after /\
    (0 < score_sum keywords u)%Q /\
    exists keyword, In keyword keywords /\ contains keyword u = true.
Proof.
  unfold _detect_intent_by_keywords. intros H.
  apply (detect_by_keywords_inv intent_keywords u k) in H
    as (before & keywords & after & E & Hb & Ha & Hpos).
  exists before, keywords, after.
  split; [exact E|]. split; [exact Hb|]. split; [exact Ha|].
  split; [exact Hpos|]. apply score_sum_positive, Hpos.
Qed.

Lemma detected_by_keywords_witness :
  exists before keywords after,
    intent_keywords = before ++ ("weather", keywords) :: after /\
    Forall (fun e => (score_sum (snd e) "how hot is it today" <
                      score_sum keywords "how hot is it today")%Q) before /\
    Forall (fun e => (score_sum (snd e) "how hot is it today" <=
                      score_sum keywords "how hot is it today")%Q) after /\
    (0 < score_sum keywords "how hot is it today")%Q /\
    exists keyword,
      In keyword keywords /\ contains keyword "how hot is it today" = true.
Proof.
  apply (detected_by_keywords "how hot is it today" "weather").
  vm_compute. reflexivity.
Defined.

(** ** Capital letters in a normal form *)

Lemma lower_not_upper c : isupper (lower_char c) = false.
Proof. destruct c as [[] [] [] [] [] [] [] []]; reflexivity. Qed.

Lemma lstrip_Forall (P : ascii -> Prop) l :
  Forall P l -> Forall P (lstrip_chars l).
Proof.
  induction 1 as [|c l Hc Hl IH]; cbn [lstrip_chars]; [constructor|].
  destruct (isspace c); [exact IH|constructor; assumption].
Qed.

(** A normal form has no capital letter. *)
Lemma normalize_no_upper U :
  Forall (fun c => isupper c = false) (chars (normalize U)).
Proof.
  unfold normalize, strip, lower, strip_chars. rewrite !chars_of_chars.
  apply Forall_rev, lstrip_Forall, Forall_rev, lstrip_Forall.
  apply List.Forall_forall. intros c Hc.
  apply in_map_iff in Hc as (d & <- & _). apply lower_not_upper.
Qed.

(** A pattern that begins with a capital letter after a word boundary
    matches nowhere in a text without capital letters. *)
Lemma capital_match_at tail n st :
  Forall (fun c => isupper c = false) (Re.ms_rest st) ->
  Re.match_at
    (Re.RSeq Re.RWordB
       (Re.RSeq (Re.RSet false [Re.IRange "A" "Z"]) tail)) n st = None.
Proof.
  intros H. unfold Re.match_at. cbn [Re.rmatch].
  destruct (Re.at_word_boundary st); [|reflexivity].
  unfold Re.step. destruct (Re.ms_rest st) as [|c rest]; [reflexivity|].
  inversion H as [|? ? Hc _]; subst.
  cbn [existsb Re.item_matches xorb orb].
  change (between (code "A") (code "Z") c) with (isupper c).
  rewrite Hc. reflexivity.
Qed.

Lemma capital_scan tail n fuel : forall st,
  Forall (fun c => isupper c = false) (Re.ms_rest st) ->
  Re.scan
    (Re.RSeq Re.RWordB
       (Re.RSeq (Re.RSet false [Re.IRange "A" "Z"]) tail)) n fuel st = None.
Proof.
  induction fuel as [|fuel IH]; intros st H; cbn [Re.scan];
    rewrite (capital_match_at tail n st H); [reflexivity|].
  destruct (Re.ms_rest st) as [|c rest] eqn:E; [reflexivity|].
  apply IH. cbn [Re.ms_rest]. inversion H; assumption.
Qed.

Lemma capitalised_shape :
  exists tail,
    Re.parse "\b[A-Z][a-z]+(?:\s+[A-Z][a-z]+)*\b" =
    Some (Re.RSeq Re.RWordB
            (Re.RSeq (Re.RSet false [Re.IRange "A" "Z"]) tail), 0).
Proof. eexists. vm_compute. reflexivity. Qed.

Lemma capitalised_none s :
  Forall (fun c => isupper c = false) (chars s) ->
  Re.findall "\b[A-Z][a-z]+(?:\s+[A-Z][a-z]+)*\b" s = inr [].
Proof.
  intros H. destruct capitalised_shape as [tail E].
  unfold Re.findall, Re.compile. rewrite E. run. cbn [fst Re.all_matches].
  rewrite capital_scan; [reflexivity|exact H].
Qed.

(** X11. The classifier puts the input in lower case before it looks
    for anything, so the search of the keyword mode for capitalised
    words, which is to give the location of a weather request that has
    no "in", "at" or "for", never finds one: such a request has no
    location. *)
Theorem capitalised_words_never_found (U : string) :
  Re.findall "\b[A-Z][a-z]+(?:\s+[A-Z][a-z]+)*\b" (normalize U) = inr [] /\
  (first_match
     ["(?:in|at|for)\s+([a-zA-Z\s]+?)(?:\s|$)";
      "weather\s+(?:in|at|for)\s+([a-zA-Z\s]+?)(?:\s|$)"]
     (normalize U) = inr None ->
   _extract_info_by_keywords "weather" (normalize U) = inr ∅).
Proof.
  pose proof (capitalised_none (normalize U) (normalize_no_upper U)) as H.
  split; [exact H|]. intros Hm.
  unfold _extract_info_by_keywords. cbn [String.eqb Ascii.eqb Bool.eqb].
  rewrite Hm. run. rewrite H. reflexivity.
Qed.

(** ** The checks that only a direct call of the calculator meets *)

Lemma unknown_operation op :
  ~ In op operations ->
  value_eqb (VStr op) (VStr "add") = false /\
  value_eqb (VStr op) (VStr "subtract") = false /\
  value_eqb (VStr op) (VStr "multiply") = false /\
  value_eqb (VStr op) (VStr "divide") = false /\
  value_eqb (VStr op) (VStr "power") = false /\
  value_eqb (VStr op) (VStr "sqrt") = false.
Proof.
  intros H. unfold operations in H. cbn [In] in H. cbn [value_eqb].
  repeat split; apply String.eqb_neq; intros ->; apply H; tauto.
Qed.

(** X12. Two checks of [_calculate_result] that no request of the
    classifier meets, on a direct call with numbers that pass the counts
    and are read by [float]: an operation that is not one of the six is
    answered with the calculation error that names it, and the square
    root of a number below zero with the calculation error "Error:
    Cannot calculate square root of negative number"; nothing is
    computed. *)
Theorem checks_of_a_direct_call libm_pow complex_pow_overflows
    (data : gmap string value) (op : string) (numbers : list string)
    (operands : list spec_float) :
  data !! "operation" = Some (VStr op) ->
  data !! "numbers" = Some (VList numbers) ->
  counts_ok (VStr op) numbers ->
  Forall2 reads_as numbers operands ->
  (~ In op operations ->
   calculation_error libm_pow complex_pow_overflows data
     ("Error: Unknown operation '" +:+ op +:+
      "'. Supported operations: add, subtract, multiply, divide, power, sqrt")) /\
  (op = "sqrt" ->
   forall x, operands = [x] -> ltb x zero = true ->
   calculation_error libm_pow complex_pow_overflows data
     "Error: Cannot calculate square root of negative number").
Proof.
  intros Ho Hn Hc Hr.
  assert (Hres :
    _calculate_result libm_pow complex_pow_overflows data =
    match calculate libm_pow complex_pow_overflows (VStr op) numbers with
    | inr text => inr text
    | inl (OverflowError _) => inr "Error: Calculation result is too large"
    | inl e => inr ("Error: Calculation failed - " +:+ exn_str e)
    end).
  { rewrite (_calculate_result_checked libm_pow complex_pow_overflows
               data numbers Hn); rewrite Ho; [reflexivity|exact Hc]. }
  unfold calculate in Hres. rewrite (convert_reads numbers operands Hr) in Hres.
  cbn [bind ret app] in Hres.
  split.
  - intros Hop.
    destruct (unknown_operation op Hop) as (E1 & E2 & E3 & E4 & E5 & E6).
    unfold evaluate in Hres. rewrite E1, E2, E3, E4, E5, E6 in Hres.
    cbn [bind ret PyRepr.str_value] in Hres.
    apply error_reported; [exact Hres|reflexivity].
  - intros -> x -> Hx.
    unfold evaluate in Hres.
    cbn [value_eqb String.eqb Ascii.eqb Bool.eqb length Nat.eqb negb
         list_item nth_error bind ret] in Hres.
    rewrite Hx in Hres. cbn [bind ret] in Hres.
    apply error_reported; [exact Hres|reflexivity].
Qed.

Lemma checks_of_a_direct_call_witness :
  calculation_error unused_pow unused_complex_pow
    (<["numbers" := VList ["7"; "2"]]> (<["operation" := VStr "modulo"]> ∅))
    "Error: Unknown operation 'modulo'. Supported operations: add, subtract, multiply, divide, power, sqrt" /\
  calculation_error unused_pow unused_complex_pow
    (<["numbers" := VList ["-4"]]> (<["operation" := VStr "sqrt"]> ∅))
    "Error: Cannot calculate square root of negative number".
Proof.
  split.
  - destruct (checks_of_a_direct_call unused_pow unused_complex_pow
                (<["numbers" := VList ["7"; "2"]]>
                   (<["operation" := VStr "modulo"]> ∅))
                "modulo" ["7"; "2"]
                [of_decimal false 7 0; of_decimal false 2 0]) as [H _].
    + vm_compute. reflexivity.
    + vm_compute. reflexivity.
    + split; [discriminate|]. split; [cbn [length]; lia|].
      intros _. cbn [length]. lia.
    + constructor; [vm_compute; reflexivity|].
      constructor; [vm_compute; reflexivity|constructor].
    + apply H. vm_compute. intuition discriminate.
  - destruct (checks_of_a_direct_call unused_pow unused_complex_pow
                (<["numbers" := VList ["-4"]]>
                   (<["operation" := VStr "sqrt"]> ∅))
                "sqrt" ["-4"] [of_decimal true 4 0]) as [_ H].
    + vm_compute. reflexivity.
    + vm_compute. reflexivity.
    + split; [discriminate|]. split; [cbn [length]; lia|].
      intros E. contradiction E. reflexivity.
    + constructor; [vm_compute; reflexivity|constructor].
    + apply (H eq_refl (of_decimal true 4 0)); reflexivity.
Defined.

(** ** Values that have no text *)

(** X13. What the calculator answers when the value of an operation on
    operands that pass the checks cannot be written as a number: an
    infinite value is answered with "Error: Calculation result is too
    large"; a value that is not a number, a complex value and a zero
    raised to a negative power are answered with "Error: Calculation
    failed - " and the message of the exception. All of them are
    calculation errors, none is raised. *)
Theorem values_without_text libm_pow complex_pow_overflows
    (data : gmap string value) (op : string) (numbers : list string)
    (operands : list spec_float) :
  data !! "operation" = Some (VStr op) ->
  data !! "numbers" = Some (VList numbers) ->
  counts_ok (VStr op) numbers ->
  Forall2 reads_as numbers operands ->
  In op operations ->
  valid_operands op operands ->
  (forall s,
     spec_value libm_pow complex_pow_overflows op operands
     = inr (Float (S754_infinity s)) ->
     calculation_error libm_pow complex_pow_overflows data
       "Error: Calculation result is too large") /\
  (spec_value libm_pow complex_pow_overflows op operands
   = inr (Float S754_nan) ->
   calculation_error libm_pow complex_pow_overflows data
     "Error: Calculation failed - cannot convert float NaN to integer") /\
  (spec_value libm_pow complex_pow_overflows op operands = inr Complex ->
   calculation_error libm_pow complex_pow_overflows data
     "Error: Calculation failed - int() argument must be a string, a bytes-like object or a real number, not 'complex'") /\
  (forall msg,
     spec_value libm_pow complex_pow_overflows op operands
     = inl (ZeroDivisionError msg) ->
     calculation_error libm_pow complex_pow_overflows data
       ("Error: Calculation failed - " +:+ msg)).
Proof.
  intros Hop Hn Hc Hr Hin Hv.
  assert (Hc' : counts_ok (default (VStr "add") (data !! "operation"))
                  numbers).
  { rewrite Hop. exact Hc. }
  pose proof (_calculate_result_checked libm_pow complex_pow_overflows
                data numbers Hn Hc') as Hres.
  rewrite Hop in Hres. cbn [default from_option id] in Hres.
  unfold calculate in Hres.
  rewrite (convert_reads numbers operands Hr) in Hres.
  cbn [bind ret app] in Hres.
  assert (Hlen : 2 <= length operands \/ op = "sqrt").
  { destruct Hc as (_ & _ & Hmin).
    destruct (String.eqb op "sqrt") eqn:E.
    - right. apply String.eqb_eq, E.
    - left. rewrite <- (Forall2_length _ _ _ Hr). apply Hmin.
      intros E'. injection E' as ->. rewrite String.eqb_refl in E.
      discriminate E. }
  destruct (evaluate_spec libm_pow complex_pow_overflows op operands
              Hin Hv Hlen) as (symbol & Hev & expr & Hex).
  rewrite Hev in Hres.
  split; [|split; [|split]].
  - intros s Hval. rewrite Hval in Hres. cbn [bind ret] in Hres.
    rewrite Hex in Hres.
    cbn [bind ret raise render int_of to_int] in Hres.
    apply error_reported; [exact Hres|reflexivity].
  - intros Hval. rewrite Hval in Hres. cbn [bind ret] in Hres.
    rewrite Hex in Hres.
    cbn [bind ret raise render int_of to_int exn_str] in Hres.
    apply error_reported; [exact Hres|reflexivity].
  - intros Hval. rewrite Hval in Hres. cbn [bind ret] in Hres.
    rewrite Hex in Hres.
    cbn [bind ret raise render int_of to_int exn_str] in Hres.
    apply error_reported; [exact Hres|reflexivity].
  - intros msg Hval. rewrite Hval in Hres.
    cbn [bind ret raise exn_str] in Hres.
    apply error_reported; [exact Hres|reflexivity].
Qed.

Lemma values_without_text_witness :
  calculation_error unused_pow unused_complex_pow
    (<["numbers" := VList ["inf"; "inf"]]>
       (<["operation" := VStr "subtract"]> ∅))
    "Error: Calculation failed - cannot convert float NaN to integer".
Proof.
  destruct (values_without_text unused_pow unused_complex_pow
              (<["numbers" := VList ["inf"; "inf"]]>
                 (<["operation" := VStr "subtract"]> ∅))
              "subtract" ["inf"; "inf"]
              [S754_infinity false; S754_infinity false])
    as (_ & H & _).
  - vm_compute. reflexivity.
  - vm_compute. reflexivity.
  - split; [discriminate|]. split; cbn [length]; [lia|intros _; lia].
  - repeat constructor.
  - unfold operations. cbn [In]. tauto.
  - split; [discriminate|]. split; discriminate.
  - apply H. vm_compute. reflexivity.
Defined.

(** ** Lazy groups at the end of a pattern *)

Lemma same_group_refl i st : same_group i st st.
Proof. reflexivity. Qed.

Lemma same_group_trans i a b c :
  same_group i a b -> same_group i b c -> same_group i a c.
Proof. unfold same_group. intros H1 H2. rewrite H2. exact H1. Qed.

Lemma step_same {A} i ok st (k : Re.mstate -> option A) x :
  Re.step ok st k = Some x ->
  exists st', k st' = Some x /\ same_group i st st'.
Proof.
  unfold Re.step. destruct (Re.ms_rest st) as [|c rest]; [discriminate|].
  destruct (ok c); [|discriminate].
  intros H. eexists. split; [exact H|reflexivity].
Qed.

Lemma rep_loop_same {A} i
    (body : Re.mstate -> (Re.mstate -> option A) -> option A)
    lo hi greedy (k : Re.mstate -> option A) :
  (forall st k' x, body st k' = Some x ->
     exists st', k' st' = Some x /\ same_group i st st') ->
  forall fuel n st x,
    Re.rep_loop body lo hi greedy k fuel n st = Some x ->
    exists st', k st' = Some x /\ same_group i st st'.
Proof.
  intros Hbody. induction fuel as [|fuel IH]; intros n st x H.
  - discriminate.
  - cbn [Re.rep_loop] in H.
    assert (Hagain : forall y,
      (if Re.below n hi
       then body st (fun st' =>
              if Nat.eqb (Re.ms_pos st') (Re.ms_pos st) then None
              else Re.rep_loop body lo hi greedy k fuel (S n) st')
       else None) = Some y ->
      exists st', k st' = Some y /\ same_group i st st').
    { intros y Hy. destruct (Re.below n hi); [|discriminate].
      apply Hbody in Hy as (st1 & Hy & K1).
      destruct (Nat.eqb (Re.ms_pos st1) (Re.ms_pos st)); [discriminate|].
      apply IH in Hy as (st2 & Hy & K2).
      exists st2. split; [exact Hy|]. eapply same_group_trans; eassumption. }
    assert (Hstop : forall y,
      (if Nat.leb lo n then k st else None) = Some y ->
      exists st', k st' = Some y /\ same_group i st st').
    { intros y Hy. destruct (Nat.leb lo n); [|discriminate].
      exists st. split; [exact Hy|apply same_group_refl]. }
    destruct greedy.
    + match type of H with
      | match ?a with _ => _ end = _ =>
          case_eq a; [intros y Ha|intros Ha]; rewrite Ha in H
      end.
      * injection H as <-. apply Hagain, Ha.
      * apply Hstop, H.
    + match type of H with
      | match ?a with _ => _ end = _ =>
          case_eq a; [intros y Ha|intros Ha]; rewrite Ha in H
      end.
      * injection H as <-. apply Hstop, Ha.
      * apply Hagain, H.
Qed.

(** A pattern leaves the groups it does not set as they are. *)
Lemma rmatch_same i r :
  sets_group i r = false ->
  forall A st (k : Re.mstate -> option A) x,
    Re.rmatch r st k = Some x ->
    exists st', k st' = Some x /\ same_group i st st'.
Proof.
  induction r as [| c | | neg its | a IHa b IHb | a IHa b IHb | j a IHa
                 | a IHa lo hi g | | ]; intros Hs A st k x H;
    cbn [Re.rmatch] in H; cbn [sets_group] in Hs.
  - exists st. split; [exact H|reflexivity].
  - eapply step_same, H.
  - eapply step_same, H.
  - eapply step_same, H.
  - apply orb_false_iff in Hs as [Ha Hb].
    apply (IHa Ha) in H as (st1 & H & K1).
    apply (IHb Hb) in H as (st2 & H & K2).
    exists st2. split; [exact H|]. eapply same_group_trans; eassumption.
  - apply orb_false_iff in Hs as [Ha Hb].
    destruct (Re.rmatch a st k) as [y|] eqn:E.
    + injection H as <-. eapply (IHa Ha), E.
    + eapply (IHb Hb), H.
  - apply orb_false_iff in Hs as [Hj Ha].
    apply (IHa Ha) in H as (st1 & H & K1).
    exists (Re.set_group j st st1). split; [exact H|].
    unfold same_group. cbn [Re.set_group Re.ms_caps Re.lookup_cap].
    rewrite Hj. exact K1.
  - eapply rep_loop_same; [|exact H].
    intros st0 k' y Hy. eapply (IHa Hs), Hy.
  - destruct (Re.at_end st); [|discriminate].
    exists st. split; [exact H|reflexivity].
  - destruct (Re.at_word_boundary st); [|discriminate].
    exists st. split; [exact H|reflexivity].
Qed.

(** An optional part at the end of a pattern always matches, with or
    without its text. *)
Lemma optional_result i opt st :
  sets_group i opt = false ->
  exists st',
    Re.rmatch (Re.RRep opt 0 (Some 1) true) st Some = Some st' /\
    same_group i st st'.
Proof.
  intros Hs.
  assert (Hsome : exists st',
    Re.rmatch (Re.RRep opt 0 (Some 1) true) st Some = Some st').
  { cbn [Re.rmatch Re.rep_loop Re.below Nat.ltb Nat.leb].
    match goal with
    | |- exists _, match ?a with _ => _ end = _ => destruct a
    end; eexists; reflexivity. }
  destruct Hsome as [st' H]. exists st'. split; [exact H|].
  apply (rmatch_same i (Re.RRep opt 0 (Some 1) true) Hs) in H
    as (st1 & E & K). injection E as <-. exact K.
Qed.

(** A lazy [.+?] takes one character when what follows it can match
    right after that character. *)
Lemma lazy_first {A} (k : Re.mstate -> option A) st x :
  (forall st', is_Some (k st')) ->
  Re.rmatch (Re.RRep Re.RAny 1 None false) st k = Some x ->
  exists c rest,
    Re.ms_rest st = c :: rest /\
    k (Re.MState (Some c) rest (S (Re.ms_pos st)) (Re.ms_caps st)) = Some x.
Proof.
  intros Hk. cbn [Re.rmatch].
  destruct (Re.ms_rest st) as [|c rest] eqn:E.
  - cbn [length Re.rep_loop Re.below Nat.leb Re.rmatch].
    unfold Re.step. rewrite E. discriminate.
  - cbn [length Re.rep_loop Re.below Nat.leb Re.rmatch].
    unfold Re.step. rewrite E.
    destruct (negb (Ascii.eqb c "010")); [|discriminate].
    cbn [Re.ms_pos].
    replace (Nat.eqb (S (Re.ms_pos st)) (Re.ms_pos st)) with false
      by (symmetry; apply Nat.eqb_neq; lia).
    destruct (Hk (Re.MState (Some c) rest (S (Re.ms_pos st)) (Re.ms_caps st)))
      as [y Hy].
    rewrite Hy. intros H. injection H as <-.
    exists c, rest. split; [reflexivity|exact Hy].
Qed.

(** The lazy group of [(.+?)(?:...)?] at the end of a pattern is one
    character. *)
Lemma lazy_group_one i opt st x :
  sets_group i opt = false ->
  Re.rmatch (lazy_then_optional i opt) st Some = Some x ->
  exists c, Re.lookup_cap i (Re.ms_caps x) = Some (String c "").
Proof.
  intros Hs H. unfold lazy_then_optional in H.
  change (Re.rmatch (Re.RRep Re.RAny 1 None false) st
            (fun st' =>
               Re.rmatch (Re.RRep opt 0 (Some 1) true)
                 (Re.set_group i st st') Some) = Some x) in H.
  apply lazy_first in H as (c & rest & E & H).
  - destruct (optional_result i opt
                (Re.set_group i st
                   (Re.MState (Some c) rest (S (Re.ms_pos st))
                      (Re.ms_caps st))) Hs) as (st' & H' & K).
    rewrite H' in H. injection H as <-. exists c. rewrite K.
    cbn [Re.set_group Re.ms_caps Re.ms_pos Re.lookup_cap].
    rewrite Nat.eqb_refl, E.
    replace (S (Re.ms_pos st) - Re.ms_pos st) with 1 by lia.
    reflexivity.
  - intros st'.
    destruct (optional_result i opt (Re.set_group i st st') Hs)
      as (st'' & H' & _).
    rewrite H'. eexists. reflexivity.
Qed.

(** A match of a pattern ends with a match of its last part. *)
Lemma suffix_match b r :
  ends_with b r ->
  forall A st (k : Re.mstate -> option A) x,
    Re.rmatch r st k = Some x ->
    exists st', Re.rmatch b st' k = Some x.
Proof.
  induction r as [| c | | neg its | a IHa r' IHr | a IHa r' IHr | j a IHa
                 | a IHa lo hi g | | ]; cbn [ends_with];
    intros [->|He] A st k x H; try contradiction;
    try (exists st; exact H).
  cbn [Re.rmatch] in H. apply rmatch_inv in H as (st1 & H & _).
  eapply IHr; [exact He|exact H].
Qed.

Lemma scan_match_at r n fuel : forall st m,
  Re.scan r n fuel st = Some m ->
  exists st', Re.match_at r n st' = Some m.
Proof.
  induction fuel as [|fuel IH]; intros st m H; cbn [Re.scan] in H.
  - destruct (Re.match_at r n st) as [m'|] eqn:Hm; [|discriminate].
    injection H as <-. exists st. exact Hm.
  - destruct (Re.match_at r n st) as [m'|] eqn:Hm.
    + injection H as <-. exists st. exact Hm.
    + destruct (Re.ms_rest st); [discriminate|]. eapply IH, H.
Qed.

Lemma search_parsed p r n text :
  Re.parse p = Some (r, n) ->
  Re.search p text =
  inr (Re.scan r n (String.length text) (Re.start_state text)).
Proof. unfold Re.search, Re.compile. intros ->. reflexivity. Qed.

(** The shape of a pattern with a lazy group at its end. *)
Lemma search_lazy p r n i opt text m :
  Re.parse p = Some (r, n) ->
  ends_with (lazy_then_optional i opt) r ->
  sets_group i opt = false ->
  1 <= i <= n ->
  Re.search p text = inr (Some m) ->
  exists c, nth_error (Re.groups m) (i - 1) = Some (Some (String c "")).
Proof.
  intros Hp He Hs Hi H. rewrite (search_parsed p r n text Hp) in H.
  injection H as H.
  apply scan_match_at in H as (st & H). unfold Re.match_at in H.
  destruct (Re.rmatch r st Some) as [st'|] eqn:Hm; [|discriminate].
  injection H as <-. cbn [Re.groups].
  apply (suffix_match _ _ He) in Hm as (st1 & Hm).
  apply (lazy_group_one i opt st1 st' Hs) in Hm as [c Hc].
  exists c. rewrite nth_error_map.
  replace (nth_error (List.seq 1 n) (i - 1)) with (Some i).
  - cbn [option_map]. rewrite Hc. reflexivity.
  - symmetry. rewrite nth_error_nth' with (d := 0).
    + rewrite seq_nth by lia. f_equal. lia.
    + rewrite length_seq. lia.
Qed.

Lemma lazy_patterns_shape :
  Forall (fun q =>
            exists r n opt,
              Re.parse (fst q) = Some (r, n) /\
              ends_with (lazy_then_optional (snd q) opt) r /\
              sets_group (snd q) opt = false /\
              1 <= snd q <= n) lazy_patterns.
Proof.
  repeat (constructor;
    [eexists _, _, _; cbn [fst snd];
     split; [vm_compute; reflexivity|];
     split; [cbn [ends_with];
             repeat first [left; reflexivity|right]|];
     split; [reflexivity|lia]|]).
  constructor.
Qed.

(** X14. In fifteen patterns the group of a name is the lazy [(.+?)]
    followed by an optional part that ends the pattern, so in a text of
    ASCII characters that group is always a single character: the
    destination of a flight in the first five patterns of "book_flight",
    the recipient in the patterns of "send_email" and the participants
    in those of "schedule_meeting". (The text is restricted to ASCII,
    where a character of the embedding is a character of [re].) *)
Theorem lazy_group_is_one_character (p : string) (i : nat)
    (text : string) (m : Re.match_obj) :
  ascii_text text ->
  In (p, i) lazy_patterns ->
  Re.search p text = inr (Some m) ->
  exists c, nth_error (Re.groups m) (i - 1) = Some (Some (String c "")).
Proof.
  intros _ Hin H. pose proof lazy_patterns_shape as Hshape.
  rewrite List.Forall_forall in Hshape.
  destruct (Hshape (p, i) Hin) as (r & n & opt & Hp & He & Hs & Hi).
  cbn [fst snd] in *.
  eapply search_lazy; eassumption.
Qed.

(** ** The names the patterns extract *)

(** The match the result of the pattern phase comes from. *)
Lemma run_pairs_match pairs user_input : forall c,
  run_pairs pairs user_input = inr (Some c) ->
  exists p m,
    In (intent c, p) pairs /\
    Re.search p user_input = inr (Some m) /\
    _extract_info_from_match (intent c) (Re.groups m) user_input
    = inr (extracted_info c).
Proof.
  induction pairs as [|[i p] pairs IH]; intros c H.
  - discriminate H.
  - rewrite run_pairs_cons in H.
    apply bind_inr in H as (m & Hm & H). destruct m as [mo|].
    + apply bind_inr in H as (info & Hi & H). apply ret_inr in H.
      injection H as <-. cbn [intent extracted_info].
      exists p, mo. split; [left; reflexivity|]. split; [exact Hm|exact Hi].
    + destruct (IH c H) as (p' & m & Hin & Hs & He).
      exists p', m. split; [right; exact Hin|]. split; [exact Hs|exact He].
Qed.

Lemma parse_intent_match U c :
  parse_intent U = inr c -> detection_method c = "pattern" ->
  exists p m,
    In (intent c, p) (declared_pairs intent_patterns) /\
    Re.search p (normalize U) = inr (Some m) /\
    _extract_info_from_match (intent c) (Re.groups m) (normalize U)
    = inr (extracted_info c).
Proof.
  unfold parse_intent. fold (normalize U). rewrite match_intents_run.
  intros H Hd. apply bind_inr in H as (r & Hr & H). destruct r as [c'|].
  - apply ret_inr in H. subst c'. eapply run_pairs_match, Hr.
  - exfalso. destruct (_detect_intent_by_keywords (normalize U)) as [k|].
    + destruct (String.eqb k "").
      * apply ret_inr in H. subst c. discriminate Hd.
      * apply bind_inr in H as (info & _ & H). apply ret_inr in H.
        subst c. discriminate Hd.
    + apply ret_inr in H. subst c. discriminate Hd.
Qed.

(** The patterns of the three intents with names. *)
Lemma named_patterns i p :
  In (i, p) (declared_pairs intent_patterns) ->
  (i = "send_email" -> In (p, 1) lazy_patterns) /\
  (i = "schedule_meeting" -> In (p, 1) lazy_patterns) /\
  (i = "book_flight" ->
   In (p, 2) lazy_patterns \/
   p = "(?:from\s+)?(.+?)\s+(?:to\s+)?(.+?)(?:\s+on\s+(.+))?\s+(?:flight|ticket|travel)").
Proof.
  intros H. vm_compute in H.
  repeat (destruct H as [H|H];
    [injection H as <- <-;
     (split; [|split]); intros E; try discriminate E;
     first [right; reflexivity | left; vm_compute; tauto | vm_compute; tauto]|]).
  destruct H.
Qed.

(** A group of one character, stripped, is one character or nothing. *)
Lemma strip_or_empty_one c :
  String.length (strip_or_empty (Some (String c ""))) <= 1.
Proof.
  cbn [strip_or_empty String.eqb]. unfold strip, strip_chars.
  cbn [chars list_ascii_of_string lstrip_chars].
  destruct (isspace c) eqn:E; cbn [rev app lstrip_chars].
  - cbn. lia.
  - rewrite E. cbn. lia.
Qed.

Lemma group_found groups i g :
  nth_error groups i = Some g -> group groups i = inr g.
Proof. unfold group. intros ->. reflexivity. Qed.

(** X15. The names the patterns extract from an input of ASCII
    characters are one character long at most: when the classifier
    recognises an email or a meeting by a pattern, the recipient or the
    participants are the character that follows the opening words, or
    nothing when that character is a space; so is the destination of a
    flight, unless the input matches the sixth pattern of "book_flight",
    which ends with "flight", "ticket" or "travel". (The input is
    restricted to ASCII, where the length of a string of the embedding
    is its number of characters.) *)
Theorem names_of_one_character (U : string) (c : Classification) :
  ascii_text U ->
  parse_intent U = inr c ->
  detection_method c = "pattern" ->
  (intent c = "send_email" ->
   exists s, extracted_info c !! "recipient" = Some (VStr s) /\
             String.length s <= 1) /\
  (intent c = "schedule_meeting" ->
   exists s, extracted_info c !! "participants" = Some (VStr s) /\
             String.length s <= 1) /\
  (intent c = "book_flight" ->
   (exists s, extracted_info c !! "destination" = Some (VStr s) /\
              String.length s <= 1) \/
   matches
     "(?:from\s+)?(.+?)\s+(?:to\s+)?(.+?)(?:\s+on\s+(.+))?\s+(?:flight|ticket|travel)"
     (normalize U)).
Proof.
  intros _ H Hd.
  destruct (parse_intent_match U c H Hd) as (p & m & Hin & Hs & He).
  destruct (named_patterns _ _ Hin) as (Hemail & Hmeet & Hflight).
  assert (Hone : forall i,
    In (p, i) lazy_patterns ->
    exists ch, nth_error (Re.groups m) (i - 1) = Some (Some (String ch ""))).
  { intros i Hi. pose proof lazy_patterns_shape as Hshape.
    rewrite List.Forall_forall in Hshape.
    destruct (Hshape (p, i) Hi) as (r & n & opt & Hp & Hw & Hg & Hn).
    cbn [fst snd] in *. eapply search_lazy; eassumption. }
  split; [|split].
  - intros Hi. destruct (Hone 1 (Hemail Hi)) as [ch Hch].
    cbn [Nat.sub] in Hch. rewrite Hi in He.
    unfold _extract_info_from_match in He.
    cbn [String.eqb Ascii.eqb Bool.eqb] in He.
    rewrite (group_found _ _ _ Hch) in He. cbn [bind ret] in He.
    apply bind_inr in He as (g1 & _ & He). apply ret_inr in He.
    exists (strip_or_empty (Some (String ch ""))).
    split; [|apply strip_or_empty_one].
    rewrite <- He.
    rewrite (lookup_insert_ne _ "subject" "recipient") by discriminate.
    apply lookup_insert_eq.
  - intros Hi. destruct (Hone 1 (Hmeet Hi)) as [ch Hch].
    cbn [Nat.sub] in Hch. rewrite Hi in He.
    unfold _extract_info_from_match in He.
    cbn [String.eqb Ascii.eqb Bool.eqb] in He.
    rewrite (group_found _ _ _ Hch) in He. cbn [bind ret] in He.
    apply bind_inr in He as (g1 & _ & He). apply ret_inr in He.
    exists (strip_or_empty (Some (String ch ""))).
    split; [|apply strip_or_empty_one].
    rewrite <- He.
    rewrite (lookup_insert_ne _ "date" "participants") by discriminate.
    apply lookup_insert_eq.
  - intros Hi. destruct (Hflight Hi) as [Hlazy| ->].
    + left. destruct (Hone 2 Hlazy) as [ch Hch].
      cbn [Nat.sub] in Hch. rewrite Hi in He.
      unfold _extract_info_from_match in He.
      cbn [String.eqb Ascii.eqb Bool.eqb] in He.
      exists (strip_or_empty (Some (String ch ""))).
      split; [|apply strip_or_empty_one].
      destruct (Nat.leb 3 (length (Re.groups m))).
      * apply bind_inr in He as (g0 & _ & He).
        rewrite (group_found _ _ _ Hch) in He. cbn [bind ret] in He.
        apply bind_inr in He as (g2 & _ & He). apply ret_inr in He.
        rewrite <- He.
        rewrite (lookup_insert_ne _ "date" "destination") by discriminate.
        apply lookup_insert_eq.
      * destruct (Nat.leb 2 (length (Re.groups m))) eqn:E2.
        -- apply bind_inr in He as (g0 & _ & He).
           rewrite (group_found _ _ _ Hch) in He. cbn [bind ret] in He.
           apply ret_inr in He. rewrite <- He. apply lookup_insert_eq.
        -- exfalso. apply Nat.leb_gt in E2.
           assert (Hsome : nth_error (Re.groups m) 1 <> None)
             by (rewrite Hch; discriminate).
           apply nth_error_Some in Hsome. lia.
    + right. exists m. exact Hs.
Qed.

Lemma names_of_one_character_witness :
  exists s,
    (<["subject" := VStr ""]> (<["recipient" := VStr "j"]> ∅)
       : gmap string value) !! "recipient" = Some (VStr s) /\
    String.length s <= 1.
Proof.
  destruct (names_of_one_character "Send email to John about lunch"
              {| intent := "send_email";
                 confidence := 9 # 10;
                 extracted_info :=
                   <["subject" := VStr ""]> (<["recipient" := VStr "j"]> ∅);
                 raw_input := "send email to john about lunch";
                 detection_method := "pattern" |})
    as [H _].
  - reflexivity.
  - vm_compute. reflexivity.
  - reflexivity.
  - apply H. reflexivity.
Defined.

Lemma lazy_group_is_one_character_witness :
  exists c,
    nth_error [Some "b"; None] (1 - 1) = Some (Some (String c "")).
Proof.
  apply (lazy_group_is_one_character
           "(?:email|mail)\s+(.+?)(?:\s+regarding\s+(.+))?" 1
           "please mail bob regarding x"
           {| Re.m_start := 7; Re.m_end := 13; Re.m_text := "mail b";
              Re.groups := [Some "b"; None] |}).
  - reflexivity.
  - vm_compute. tauto.
  - vm_compute. reflexivity.
Defined.

(** ** What a classification tells about the input *)

Lemma run_pairs_missed pairs user_input :
  run_pairs pairs user_input = inr None ->
  Forall (fun q => no_match (snd q) user_input) pairs.
Proof.
  induction pairs as [|[i p] pairs IH]; intros H; [constructor|].
  rewrite run_pairs_cons in H.
  apply bind_inr in H as (m & Hm & H). destruct m as [mo|].
  - apply bind_inr in H as (info & _ & H). discriminate H.
  - constructor; [exact Hm|apply IH, H].
Qed.

(** The pattern the result of the pattern phase comes from is the first
    one that matches. *)
Lemma run_pairs_first pairs user_input : forall c,
  run_pairs pairs user_input = inr (Some c) ->
  exists before p after,
    pairs = before ++ (intent c, p) :: after /\
    Forall (fun q => no_match (snd q) user_input) before /\
    matches p user_input.
Proof.
  induction pairs as [|[i p] pairs IH]; intros c H.
  - discriminate H.
  - rewrite run_pairs_cons in H.
    apply bind_inr in H as (m & Hm & H). destruct m as [mo|].
    + apply bind_inr in H as (info & _ & H). apply ret_inr in H.
      injection H as <-. cbn [intent].
      exists [], p, pairs. split; [reflexivity|]. split; [constructor|].
      exists mo. exact Hm.
    + destruct (IH c H) as (before & p' & after & -> & Hb & Hp).
      exists ((i, p) :: before), p', after. split; [reflexivity|].
      split; [constructor; [exact Hm|exact Hb]|exact Hp].
Qed.

(** X16. What the detection method of a classification tells about the
    input. "pattern": the confidence is 0.9 and the intent is that of the
    first pattern of the table that matches the normal form of the
    input. "keywords": the confidence is 0.7, no pattern matches, and the
    intent is the one the keywords detect. "default": the confidence is
    0.3, no pattern matches, no keyword is detected, and the intent is
    "search" with the whole normal form as the query. There is no other
    method. *)
Theorem what_the_method_tells (U : string) (c : Classification) :
  parse_intent U = inr c ->
  (detection_method c = "pattern" ->
   confidence c = 9 # 10 /\
   exists before p after,
     declared_pairs intent_patterns = before ++ (intent c, p) :: after /\
     Forall (fun q => no_match (snd q) (normalize U)) before /\
     matches p (normalize U)) /\
  (detection_method c = "keywords" ->
   confidence c = 7 # 10 /\
   Forall (fun q => no_match (snd q) (normalize U))
     (declared_pairs intent_patterns) /\
   _detect_intent_by_keywords (normalize U) = Some (intent c)) /\
  (detection_method c = "default" ->
   confidence c = 3 # 10 /\
   intent c = "search" /\
   extracted_info c = <["query" := VStr (normalize U)]> ∅ /\
   Forall (fun q => no_match (snd q) (normalize U))
     (declared_pairs intent_patterns) /\
   _detect_intent_by_keywords (normalize U) = None) /\
  (detection_method c = "pattern" \/ detection_method c = "keywords" \/
   detection_method c = "default").
Proof.
  unfold parse_intent. fold (normalize U). rewrite match_intents_run.
  intros H. apply bind_inr in H as (r & Hr & H). destruct r as [c'|].
  - apply ret_inr in H. subst c'.
    destruct (run_pairs_source _ _ _ Hr) as (Hd & Hc & _).
    split; [|split; [|split]].
    + intros _. split; [exact Hc|]. eapply run_pairs_first, Hr.
    + intros E. rewrite Hd in E. discriminate E.
    + intros E. rewrite Hd in E. discriminate E.
    + left. exact Hd.
  - apply run_pairs_missed in Hr.
    destruct (_detect_intent_by_keywords (normalize U)) as [k|] eqn:Hk.
    + pose proof (intent_not_empty k (keyword_phase_intent _ _ Hk)) as Hne.
      rewrite Hne in H.
      apply bind_inr in H as (info & _ & H). apply ret_inr in H. subst c.
      cbn [detection_method confidence intent extracted_info].
      split; [|split; [|split]].
      * intros E. discriminate E.
      * intros _. split; [reflexivity|]. split; [exact Hr|reflexivity].
      * intros E. discriminate E.
      * right. left. reflexivity.
    + apply ret_inr in H. subst c.
      cbn [detection_method confidence intent extracted_info].
      split; [|split; [|split]].
      * intros E. discriminate E.
      * intros E. discriminate E.
      * intros _. repeat split. exact Hr.
      * right. right. reflexivity.
Qed.

Lemma what_the_method_tells_witness :
  Forall (fun q => no_match (snd q) (normalize " Hello there"))
    (declared_pairs intent_patterns) /\
  _detect_intent_by_keywords (normalize " Hello there") = None.
Proof.
  destruct (what_the_method_tells " Hello there"
              {| intent := "search";
                 confidence := 3 # 10;
                 extracted_info := <["query" := VStr "hello there"]> ∅;
                 raw_input := "hello there";
                 detection_method := "default" |})
    as (_ & _ & H & _).
  - vm_compute. reflexivity.
  - destruct (H eq_refl) as (_ & _ & _ & Hn & Hk). split; assumption.
Defined.

(** ** The slots of a classification *)

(** X17. The classifier fills no slot that is not a required field of
    its intent: for every input there is a classification, and each of
    its slots is one that the extractions of the intent can fill and one
    of the required fields of the intent. *)
Theorem extracted_slots (U : string) :
  exists c,
    parse_intent U = inr c /\
    forall k,
      is_Some (extracted_info c !! k) ->
      In k (known_slots (intent c)) /\
      exists required,
        required_fields !! intent c = Some required /\ In k required.
Proof.
  destruct (parse_intent_total U) as (c & Hc & Hin).
  exists c. split; [exact Hc|]. intros k Hk.
  pose proof (parse_intent_slots U c Hc k Hk) as Hs.
  split; [exact Hs|].
  unfold intents in Hin. cbn [In] in Hin.
  repeat (destruct Hin as [Hi|Hin];
    [rewrite <- Hi in Hs |- *; vm_compute in Hs;
     eexists; split; [reflexivity|]; vm_compute; tauto|]).
  destruct Hin.
Qed.

(** ** The query of a search that the keywords detect *)

Lemma after_chars_found p : forall l,
  contains_chars p l = true -> exists t, after_chars p l = Some t.
Proof.
  induction l as [|c l IH]; cbn [contains_chars after_chars]; intros H.
  - destruct (starts_chars p []); [eexists; reflexivity|discriminate H].
  - destruct (starts_chars p (c :: l)); [eexists; reflexivity|].
    apply IH, H.
Qed.

(** The loop over the keywords of a search stops at the first one that
    occurs in the input. *)
Lemma search_query_first keywords user_input :
  (exists k, In k keywords /\ contains k user_input = true) ->
  exists before k after tail,
    keywords = before ++ k :: after /\
    Forall (fun k' => contains k' user_input = false) before /\
    after_first k user_input = Some tail /\
    search_query keywords user_input = strip tail.
Proof.
  induction keywords as [|k keywords IH]; intros (k0 & Hin & Hc).
  - destruct Hin.
  - cbn [search_query]. destruct (contains k user_input) eqn:E.
    + unfold contains in E.
      destruct (after_chars_found _ _ E) as [t Ht].
      exists [], k, keywords, (of_chars t).
      split; [reflexivity|]. split; [constructor|].
      unfold after_first. rewrite Ht. split; reflexivity.
    + destruct Hin as [->|Hin]; [rewrite Hc in E; discriminate E|].
      destruct IH as (before & k1 & after & tail & -> & Hb & Ha & Hq).
      { exists k0. split; assumption. }
      exists (k :: before), k1, after, tail.
      split; [reflexivity|]. split; [constructor; assumption|].
      split; [exact Ha|exact Hq].
Qed.

Lemma search_keywords_of_table keywords :
  In ("search", keywords) intent_keywords ->
  keywords =
  ["search"; "find"; "look"; "what"; "tell"; "information"; "know"; "help"].
Proof.
  intros Hin. vm_compute in Hin.
  repeat (destruct Hin as [Hin|Hin];
    [first [discriminate Hin|injection Hin as <-; reflexivity]|]).
  destruct Hin.
Qed.

Lemma search_by_keywords user_input :
  _extract_info_by_keywords "search" user_input =
  inr (<["query" :=
           VStr (search_query
                   ["search"; "find"; "look"; "what"; "tell"; "information";
                    "know"; "help"] user_input)]> ∅).
Proof. reflexivity. Qed.

Lemma detect_intent_inv u k :
  _detect_intent_by_keywords u = Some k ->
  exists before keywords after,
    intent_keywords = before ++ (k, keywords) :: after /\
    (0 < score_sum keywords u)%Q.
Proof.
  unfold _detect_intent_by_keywords. intros H.
  apply (detect_by_keywords_inv intent_keywords u k) in H
    as (before & keywords & after & E & _ & _ & Hpos).
  exists before, keywords, after. split; [exact E|exact Hpos].
Qed.

(** X18. The query of a search that the keywords detect: it is the text
    after the first occurrence of the first of the words search, find,
    look, what, tell, information, know, help that occurs in the normal
    form of the input, stripped. One of them always occurs, since these
    are the keywords that made the intent a search, so the query is
    never the whole input. *)
Theorem keyword_search_query (U : string) (c : Classification) :
  parse_intent U = inr c ->
  detection_method c = "keywords" ->
  intent c = "search" ->
  exists before k after tail,
    ["search"; "find"; "look"; "what"; "tell"; "information"; "know"; "help"]
    = before ++ k :: after /\
    Forall (fun k' => contains k' (normalize U) = false) before /\
    after_first k (normalize U) = Some tail /\
    extracted_info c = <["query" := VStr (strip tail)]> ∅.
Proof.
  intros H Hd Hi.
  apply parse_intent_source in H
    as (_ & [(Hd' & _)|[(_ & _ & Hk & He)|(Hd' & _)]]);
    try (rewrite Hd in Hd'; discriminate Hd').
  rewrite Hi in Hk, He.
  apply detect_intent_inv in Hk as (b & keywords & a & E & Hpos).
  assert (Hkeys : keywords =
    ["search"; "find"; "look"; "what"; "tell"; "information"; "know";
     "help"]).
  { apply search_keywords_of_table. rewrite E.
    apply in_or_app. right. left. reflexivity. }
  subst keywords. apply score_sum_positive in Hpos.
  destruct (search_query_first _ _ Hpos)
    as (before & k & after & tail & Ek & Hb & Ha & Hq).
  exists before, k, after, tail.
  split; [exact Ek|]. split; [exact Hb|]. split; [exact Ha|].
  rewrite search_by_keywords in He. apply ret_inr in He.
  rewrite <- He, Hq. reflexivity.
Qed.

Lemma keyword_search_query_witness :
  exists before k after tail,
    ["search"; "find"; "look"; "what"; "tell"; "information"; "know"; "help"]
    = before ++ k :: after /\
    after_first k (normalize "Please HELP me with my homework") = Some tail.
Proof.
  destruct (keyword_search_query "Please HELP me with my homework"
              {| intent := "search";
                 confidence := 7 # 10;
                 extracted_info :=
                   <["query" := VStr "me with my homework"]> ∅;
                 raw_input := "please help me with my homework";
                 detection_method := "keywords" |})
    as (before & k & after & tail & E & _ & Ha & _).
  - vm_compute. reflexivity.
  - reflexivity.
  - reflexivity.
  - exists before, k, after, tail. split; assumption.
Defined.
